(** * pycaz.cyclone: track interpolation and parametric vortex fields

    A shallow embedding of [src/pycaz/cyclone.py]: the scalar physics
    library, the solvers and regressions for the radius of maximum wind,
    [Record.gen_radial_fields], [Record.calc_rmax],
    [Record.calculate_wind], [Record.calculate_pressure], the
    construction of a [Track] ([sort], [calc_translation]) and
    [Track.interpolate]; and of the time of day that
    [Local2Global.read_local2global] of [src/schism/core.py] computes.

    Numbers.  The program computes with numpy doubles and uses [np.nan]
    and [np.inf] as data ([np.nan] marks a missing field, [np.inf] closes
    the last radial band).  A double is modelled by [fl]: not-a-number, a
    signed infinity, or a finite real.  Arithmetic on finite values is
    exact arithmetic on [R] (rounding, overflow and the sign of zero are
    abstracted away); the special values follow IEEE-754 as numpy
    implements it (no exception on division by zero, comparisons with NaN
    are false).

    Exceptions.  Python exceptions are values of [exn]; a computation that
    may raise returns [res A].  A local variable that may be unbound when
    it is read is an [option].

    Other code.  [scipy.optimize.fsolve] and the functions of
    [pycaz.conversion] ([gc_distance], [pa2mb], [km2m]) are parameters of
    the sections that call them. *)

From Stdlib Require Import Reals Lra Lia List String Bool ZArith.
From Stdlib Require Import Permutation Sorted.
Import ListNotations.
Local Open Scope R_scope.

(** ** Doubles *)

Inductive fl : Type :=
| NaN
| Inf (neg : bool)
| Fin (x : R).

Definition PInf : fl := Inf false.
Definition NInf : fl := Inf true.

Definition Rltb (x y : R) : bool := if Rlt_dec x y then true else false.
Definition Rleb (x y : R) : bool := if Rle_dec x y then true else false.
Definition Reqb (x y : R) : bool := if Req_dec_T x y then true else false.

Definition isnan (a : fl) : bool :=
  match a with NaN => true | _ => false end.

Definition fneg (a : fl) : fl :=
  match a with
  | NaN => NaN
  | Inf s => Inf (negb s)
  | Fin x => Fin (- x)
  end.

Definition fadd (a b : fl) : fl :=
  match a, b with
  | NaN, _ | _, NaN => NaN
  | Inf s, Inf t => if Bool.eqb s t then Inf s else NaN
  | Inf s, Fin _ | Fin _, Inf s => Inf s
  | Fin x, Fin y => Fin (x + y)
  end.

Definition fsub (a b : fl) : fl := fadd a (fneg b).

Definition fmul (a b : fl) : fl :=
  match a, b with
  | NaN, _ | _, NaN => NaN
  | Inf s, Inf t => Inf (xorb s t)
  | Inf s, Fin x | Fin x, Inf s =>
      if Reqb x 0 then NaN else Inf (xorb s (Rltb x 0))
  | Fin x, Fin y => Fin (x * y)
  end.

(** numpy division: a zero divisor gives an infinity or NaN, never an
    exception. *)
Definition fdiv (a b : fl) : fl :=
  match a, b with
  | NaN, _ | _, NaN => NaN
  | Inf _, Inf _ => NaN
  | Fin _, Inf _ => Fin 0
  | Inf s, Fin y => Inf (xorb s (Rltb y 0))
  | Fin x, Fin y =>
      if Reqb y 0 then (if Reqb x 0 then NaN else Inf (Rltb x 0))
      else Fin (x / y)
  end.

Definition flt (a b : fl) : bool :=
  match a, b with
  | NaN, _ | _, NaN => false
  | Inf s, Inf t => s && negb t
  | Inf s, Fin _ => s
  | Fin _, Inf t => negb t
  | Fin x, Fin y => Rltb x y
  end.

Definition fle (a b : fl) : bool :=
  match a, b with
  | NaN, _ | _, NaN => false
  | Inf s, Inf t => s || negb t
  | Inf s, Fin _ => s
  | Fin _, Inf t => negb t
  | Fin x, Fin y => Rleb x y
  end.

Definition fgt (a b : fl) : bool := flt b a.
Definition fge (a b : fl) : bool := fle b a.

Definition feq (a b : fl) : bool :=
  match a, b with
  | Fin x, Fin y => Reqb x y
  | Inf s, Inf t => Bool.eqb s t
  | _, _ => false
  end.

Definition fabs (a : fl) : fl :=
  match a with
  | NaN => NaN
  | Inf _ => PInf
  | Fin x => Fin (Rabs x)
  end.

Definition fsqrt (a : fl) : fl :=
  match a with
  | NaN => NaN
  | Inf s => if s then NaN else PInf
  | Fin x => if Rltb x 0 then NaN else Fin (sqrt x)
  end.

Definition fexp (a : fl) : fl :=
  match a with
  | NaN => NaN
  | Inf s => if s then Fin 0 else PInf
  | Fin x => Fin (exp x)
  end.

Definition fsin (a : fl) : fl :=
  match a with Fin x => Fin (sin x) | _ => NaN end.

Definition fcos (a : fl) : fl :=
  match a with Fin x => Fin (cos x) | _ => NaN end.

Definition is_int (y : R) : bool := Reqb (IZR (Int_part y)) y.
Definition odd_int (y : R) : bool := is_int y && Z.odd (Int_part y).

(** [a ** b] on doubles (C [pow]). *)
Definition fpow (a b : fl) : fl :=
  match a, b with
  | Fin x, Fin y =>
      if Reqb y 0 then Fin 1
      else if Rltb 0 x then Fin (Rpower x y)
      else if Reqb x 0 then (if Rltb 0 y then Fin 0 else PInf)
      else if is_int y
           then Fin (if odd_int y then - Rpower (- x) y else Rpower (- x) y)
           else NaN
  | NaN, Fin y => if Reqb y 0 then Fin 1 else NaN
  | Inf s, Fin y =>
      if Reqb y 0 then Fin 1
      else if Rltb 0 y then Inf (s && odd_int y)
      else Fin 0
  | Fin x, NaN => if Reqb x 1 then Fin 1 else NaN
  | Fin x, Inf t =>
      if Reqb (Rabs x) 1 then Fin 1
      else if xorb (Rltb (Rabs x) 1) t then Fin 0 else PInf
  | Inf _, Inf t => if t then Fin 0 else PInf
  | _, _ => NaN
  end.

(** [np.max([a, b])]: NaN propagates. *)
Definition np_max2 (a b : fl) : fl :=
  match a, b with
  | NaN, _ | _, NaN => NaN
  | _, _ => if flt a b then b else a
  end.

(** [np.deg2rad]. *)
Definition deg2rad (a : fl) : fl := fmul a (Fin (PI / 180)).

Definition finite (a : fl) : Prop := exists x, a = Fin x.

(** ** Exceptions *)

Inductive exn : Type :=
| AssertionError
| KeyError (key : string)
| IndexError
| TypeError
| ValueError
| ZeroDivisionError
| UnboundLocalError (var : string)
| Warning (msg : string)
| Exception (msg : string).

Inductive res (A : Type) : Type :=
| Ok (a : A)
| Raise (e : exn).
Arguments Ok {A} a.
Arguments Raise {A} e.

Definition bind {A B : Type} (m : res A) (k : A -> res B) : res B :=
  match m with
  | Ok a => k a
  | Raise e => Raise e
  end.

Notation "x <- m ;; k" := (bind m (fun x => k))
  (at level 61, m at next level, right associativity).

(** [try: m  except: h] with a bare [except], which catches everything. *)
Definition try_except {A : Type} (m : res A) (h : res A) : res A :=
  match m with
  | Ok a => Ok a
  | Raise _ => h
  end.

(** Reading a dictionary entry that may be absent. *)
Definition getitem {A : Type} (key : string) (o : option A) : res A :=
  match o with
  | Some a => Ok a
  | None => Raise (KeyError key)
  end.

(** Reading a local variable that may be unbound. *)
Definition local {A : Type} (var : string) (o : option A) : res A :=
  match o with
  | Some a => Ok a
  | None => Raise (UnboundLocalError var)
  end.

(** [a[i]] on a list or 1-d array with a non-negative index. *)
Definition index {A : Type} (l : list A) (i : nat) : res A :=
  match nth_error l i with
  | Some a => Ok a
  | None => Raise IndexError
  end.

Fixpoint mapM {A B : Type} (f : A -> res B) (l : list A) : res (list B) :=
  match l with
  | [] => Ok []
  | a :: l' => b <- f a ;; bs <- mapM f l' ;; Ok (b :: bs)
  end.

Declare Scope fl_scope.
Delimit Scope fl_scope with fl.
Bind Scope fl_scope with fl.
Infix "+" := fadd : fl_scope.
Infix "-" := fsub : fl_scope.
Infix "*" := fmul : fl_scope.
Infix "/" := fdiv : fl_scope.
Infix "**" := fpow (at level 30, right associativity) : fl_scope.
Notation "- a" := (fneg a) : fl_scope.

(** ** Scalar physics library *)

(** [np.exp(1)]. *)
Definition np_e : fl := fexp (Fin 1).

Definition coriolis (lat : fl) : fl :=
  (Fin (2 * 7.292e-5) * fsin (deg2rad lat))%fl.

(** The if/elif/else ladder that ends both Holland-B functions. *)
Definition clamp_B (B bmax bmin : fl) : fl :=
  if flt B bmin then bmin
  else if fgt B bmax then bmax
  else B.

Definition holland_B_raw (vmax pc pn rhoair : fl) : fl :=
  ((vmax ** Fin 2) * rhoair * np_e / (pn - pc))%fl.

Definition calc_holland_B (vmax pc pn rhoair bmax bmin : fl) : fl :=
  let B := holland_B_raw vmax pc pn rhoair in
  clamp_B B bmax bmin.

Definition holland_B_full_raw (vmax rmax pc f pn rhoair : fl) : fl :=
  ((vmax ** Fin 2 * rhoair * np_e + f * vmax * rmax * np_e * rhoair)
   / (pn - pc))%fl.

Definition calc_holland_B_full (vmax rmax pc f pn rhoair bmax bmin : fl) : fl :=
  let B := holland_B_full_raw vmax rmax pc f pn rhoair in
  clamp_B B bmax bmin.

Definition calc_vcirc_j92 (r Rm Vm : fl) : fl :=
  ((Fin 2 * r * Rm * Vm) / (Rm ** Fin 2 + r ** Fin 2))%fl.

Definition calc_vcirc_h80 (r Rm pc B pn rhoair f : fl) : fl :=
  let r := (r + Fin 1e-8)%fl in
  (fsqrt ((Rm / r) ** B * (B / rhoair) * (pn - pc) * fexp (- ((Rm / r) ** B))
          + (r * f / Fin 2) ** Fin 2)
   - (r * f / Fin 2))%fl.

Definition calc_vcirc_h80c (r Rm pc B pn rhoair : fl) : fl :=
  let r := (r + Fin 1e-8)%fl in
  fsqrt ((Rm / r) ** B * (B / rhoair) * (pn - pc) * fexp (- ((Rm / r) ** B)))%fl.

Definition calc_vcirc_w06 (r Rm Vm n X : fl) : fl :=
  if fle r Rm then (Vm * (r / Rm) ** n)%fl
  else (Vm * fexp (- (r - Rm) / X))%fl.

Definition calc_vcirc_e04 (r Rm Vm b m n R0 : fl) : fl :=
  let multiplier :=
    (((Fin 1 - b) * (n + m) / (n + m * (r / Rm) ** (Fin 2 * (n + m))))
     + (b * (Fin 1 + Fin 2 * m)
        / (Fin 1 + Fin 2 * m * (r / Rm) ** (Fin 2 * m + Fin 1))))%fl in
  (Vm * ((R0 - r) / (R0 - Rm)) * (r / Rm) ** m * fsqrt multiplier)%fl.

Definition calc_vcirc_e11 (r Rm Vm f : fl) : fl :=
  (Fin 2 * r * (Rm * Vm + Fin 0.5 * f * Rm ** Fin 2) / (Rm ** Fin 2 + r ** Fin 2)
   - r * f / Fin 2)%fl.

Definition calc_vcirc_m16 (r Rm Vm n : fl) : fl :=
  (Vm * ((Fin 2 * r * Rm) / (Rm ** Fin 2 + r ** Fin 2)) ** n)%fl.

Definition calc_mslp_h80 (r Rm pc B pn : fl) : fl :=
  let r := (r + Fin 1e-8)%fl in
  ((pn - pc) * fexp (- ((Rm / r) ** B)) + pc)%fl.

(** ** Directional interpolators *)

(** An interpolator is a callable: it maps a bearing to a value or
    raises. *)
Definition interp : Type := fl -> res fl.

(** [np.linspace(0, 2*np.pi, 5)]. *)
Definition theta_grid : list R := [0; PI / 2; PI; 3 * PI / 2; 2 * PI].

(** Piecewise-linear evaluation on ascending nodes [xs]: the segment is
    the first one whose right node is not below [x], the last segment
    when there is none. *)
Fixpoint interp_linear (xs : list R) (ys : list fl) (x : R) : fl :=
  match xs, ys with
  | x0 :: xs', y0 :: ys' =>
      match xs', ys' with
      | x1 :: xs'', y1 :: _ =>
          if Rleb x x1 || match xs'' with [] => true | _ => false end
          then ((y1 - y0) / Fin (x1 - x0) * Fin (x - x0) + y0)%fl
          else interp_linear xs' ys' x
      | _, _ => NaN
      end
  | _, _ => NaN
  end.

(** Calling [scipy.interpolate.interp1d(xs, ys)] (linear, bounds checked):
    a query outside the nodes raises [ValueError]. *)
Definition interp1d_call (xs : list R) (ys : list fl) : interp :=
  fun x =>
    match x with
    | NaN => Ok NaN
    | Inf _ => Raise ValueError
    | Fin v =>
        if Rltb v (hd 0 xs) then Raise ValueError
        else if Rltb (last xs 0) v then Raise ValueError
        else Ok (interp_linear xs ys v)
    end.

(** Building it: the two arrays must have the same length. *)
Definition interp1d (xs : list R) (ys : list fl) : res interp :=
  if Nat.eqb (List.length xs) (List.length ys) then Ok (interp1d_call xs ys)
  else Raise ValueError.

(** ** Record *)

(** [vinfo] is the scalar [np.nan] when the field was not given, else an
    array of thresholds; [radinfo] is that scalar, one row of quadrant
    radii, or a table with one row per threshold. *)
Inductive vinfo_t : Type :=
| VScalar (x : fl)
| VArr (l : list fl).

Inductive radinfo_t : Type :=
| RScalar (x : fl)
| RRow (row : list fl)
| RTable (rows : list (list fl)).

Record CycloneRecord : Type := mkRecord {
  timestamp : Z;              (* nanoseconds *)
  lon : fl;
  lat : fl;
  mslp : fl;
  vmax : fl;
  rmax : fl;
  vinfo : vinfo_t;
  radinfo : radinfo_t;
  ustorm : fl;
  vstorm : fl;
  fvmax : option interp;
  fvinfo : option (list interp);
  fradinfo : option (list interp);
  frmax : option (list interp)   (* as seen through [np.atleast_1d] *)
}.

(** [np.atleast_1d(self['vinfo'])]. *)
Definition vinfo_1d (v : vinfo_t) : list fl :=
  match v with
  | VScalar x => [x]
  | VArr l => l
  end.

(** [np.atleast_2d(self['radinfo'])]. *)
Definition atleast_2d (a : radinfo_t) : list (list fl) :=
  match a with
  | RScalar x => [[x]]
  | RRow row => [row]
  | RTable rows => rows
  end.

(** *** gen_radial_fields *)

(** The translation removed from the reported winds: zero when either
    component is NaN, else the stored velocity rotated by [angle]. *)
Definition removed_translation (rec : CycloneRecord) (angle : fl) : fl * fl :=
  let angle_rad := deg2rad angle in
  if isnan (ustorm rec) || isnan (vstorm rec) then (Fin 0, Fin 0)
  else ((ustorm rec * fcos angle_rad - vstorm rec * fsin angle_rad)%fl,
        (ustorm rec * fsin angle_rad + vstorm rec * fcos angle_rad)%fl).

(** One sampled magnitude: the speed [v] at bearing [theta] with
    [fraction] of the translation removed, divided by [swrf]. *)
Definition radial_amp (v fraction us vs swrf : fl) (theta : R) : fl :=
  let v_x := (v * fsin (Fin theta) * Fin (-1) - fraction * us)%fl in
  let v_y := (v * fcos (Fin theta) - fraction * vs)%fl in
  (fsqrt (v_x ** Fin 2 + v_y ** Fin 2) / swrf)%fl.

Definition radial_amps (v fraction us vs swrf : fl) : list fl :=
  map (radial_amp v fraction us vs swrf) theta_grid.

(** The part of the object the threshold loop reads and writes. *)
Record radial_state : Type := mkRadial {
  rs_vinfo : vinfo_t;
  rs_radinfo : radinfo_t;
  rs_fvinfo : list interp;
  rs_fradinfo : list interp
}.

(** [np.append(self['radinfo'][i], self['radinfo'][i][0])]. *)
Definition radinfo_closed (a : radinfo_t) (i : nat) : res (list fl) :=
  match a with
  | RScalar _ => Raise TypeError
  | RRow row => _ <- index row i ;; Raise IndexError
  | RTable rows => row <- index rows i ;; r0 <- index row 0 ;; Ok (row ++ [r0])
  end.

Definition radial_step (fraction us vs swrf : fl) (i : nat) (v : fl)
    (st : radial_state) : radial_state * option exn :=
  if isnan v then
    (mkRadial (VScalar NaN) (RScalar NaN) (rs_fvinfo st) (rs_fradinfo st), None)
  else
    let vinfo_func := interp1d_call theta_grid (radial_amps v fraction us vs swrf) in
    let st1 := mkRadial (rs_vinfo st) (rs_radinfo st)
                 (rs_fvinfo st ++ [vinfo_func]) (rs_fradinfo st) in
    match (radinfo <- radinfo_closed (rs_radinfo st) i ;;
           interp1d theta_grid radinfo) with
    | Ok radinfo_func =>
        (mkRadial (rs_vinfo st) (rs_radinfo st)
           (rs_fvinfo st1) (rs_fradinfo st ++ [radinfo_func]), None)
    | Raise e => (st1, Some e)
    end.

Fixpoint radial_loop (fraction us vs swrf : fl) (i : nat) (vinfos : list fl)
    (st : radial_state) : radial_state * option exn :=
  match vinfos with
  | [] => (st, None)
  | v :: rest =>
      match radial_step fraction us vs swrf i v st with
      | (st', None) => radial_loop fraction us vs swrf (S i) rest st'
      | (st', Some e) => (st', Some e)
      end
  end.

(** The method mutates [self]: the result is the object as the call
    leaves it, with the exception that ended the call if there was one. *)
Definition gen_radial_fields (self : CycloneRecord) (fraction angle swrf : fl)
    : CycloneRecord * option exn :=
  let '(us, vs) := removed_translation self angle in
  let vmax_amp := radial_amps (vmax self) fraction us vs swrf in
  let f := interp1d_call theta_grid vmax_amp in
  let st0 := mkRadial (vinfo self) (radinfo self) [] [] in
  match radial_loop fraction us vs swrf 0 (vinfo_1d (vinfo self)) st0 with
  | (st, None) =>
      (mkRecord (timestamp self) (lon self) (lat self) (mslp self) (vmax self)
         (rmax self) (rs_vinfo st) (rs_radinfo st) (ustorm self) (vstorm self)
         (Some f) (Some (rs_fvinfo st)) (Some (rs_fradinfo st)) (frmax self),
       None)
  | (st, Some e) =>
      (mkRecord (timestamp self) (lon self) (lat self) (mslp self) (vmax self)
         (rmax self) (rs_vinfo st) (rs_radinfo st) (ustorm self) (vstorm self)
         (Some f) (fvinfo self) (fradinfo self) (frmax self),
       Some e)
  end.

(** ** Field evaluation: calculate_wind and calculate_pressure *)

Record kw_corr_t : Type := mkCorr {
  fraction : fl; angle : fl; swrf : fl; tfac : fl }.
Record kw_atmos_t : Type := mkAtmos { pn : fl; rhoair : fl }.
Record kw_h80_t : Type := mkH80 { bmax : fl; bmin : fl }.
Record kw_e04_t : Type := mkE04 {
  e04_b : fl; e04_m : fl; e04_n : fl; e04_R0 : fl }.
Record kw_w06_t : Type := mkW06 { w06_n : fl; w06_X : fl }.
Record kw_m16_t : Type := mkM16 { m16_n : fl }.

(** [rmax_select]: a string, an int, or a value of another type. *)
Inductive rmax_select_t : Type :=
| SelStr (s : string)
| SelInt (k : Z)
| SelOther.

(** Lines 644-651 (and 893-900): the first assignment is overwritten on
    both branches of the test that follows it. *)
Definition query_theta (theta_input : fl) : fl :=
  let theta := (Fin (-1) * theta_input + Fin (PI / 2))%fl in
  let theta :=
    if flt theta_input (Fin 0) then (Fin (2 * PI) + theta_input)%fl
    else theta_input in
  theta.

Definition assert (b : bool) : res unit :=
  if b then Ok tt else Raise AssertionError.

(** [np.mean]; the mean of no value is NaN. *)
Definition np_mean (l : list fl) : fl :=
  (fold_left fadd l (Fin 0) / Fin (INR (List.length l)))%fl.

(** [np.argmin]: the first minimum, a NaN counting as one. *)
Fixpoint argmin_from (best_i : nat) (best : fl) (i : nat) (l : list fl) : nat :=
  match l with
  | [] => best_i
  | x :: l' =>
      if isnan best then best_i
      else if isnan x || flt x best then argmin_from i x (S i) l'
      else argmin_from best_i best (S i) l'
  end.

Definition np_argmin (l : list fl) : res nat :=
  match l with
  | [] => Raise ValueError
  | x :: l' => Ok (argmin_from 0 x 1 l')
  end.

(** [a[k]] with a Python int: a negative index counts from the end. *)
Definition index_int {A : Type} (l : list A) (k : Z) : res A :=
  let n := Z.of_nat (List.length l) in
  if (0 <=? k)%Z then index l (Z.to_nat k)
  else if (- n <=? k)%Z then index l (Z.to_nat (n + k))
  else Raise IndexError.

Definition rmax_select_methods_available : list string :=
  ["mean"; "nearest"; "linear"]%string.

(** The two exceptions the rmax selection raises from its outer [except]
    clauses. *)
Definition keyword_warning : exn :=
  Warning "Wrong keyword for rmax method. First frmax is used".
Definition index_warning : exn :=
  Warning "Wrong rmax index. First frmax is used".

(** [np.append(0, rmax_frac)[0:-1]*rmax] and [rmax_frac*rmax]. *)
Definition rlim_min_of (rmax_frac : list fl) (rmax : fl) : list fl :=
  map (fun x => (x * rmax)%fl) (removelast (Fin 0 :: rmax_frac)).
Definition rlim_max_of (rmax_frac : list fl) (rmax : fl) : list fl :=
  map (fun x => (x * rmax)%fl) rmax_frac.

(** The two assertions that open the body of the band loop; an index
    out of range is caught by the same bare [except]. *)
Definition in_band (r : fl) (rlim_min rlim_max : list fl) (i : nat) : bool :=
  match nth_error rlim_min i, nth_error rlim_max i with
  | Some lo, Some hi => fge r lo && flt r hi
  | _, _ => false
  end.

(** [if vcirc <= 0: vcirc = 0] *)
Definition floor0 (vcirc : fl) : fl :=
  if fle vcirc (Fin 0) then Fin 0 else vcirc.

(** The band loop of both methods (lines 726-827 and 970-1017), over the
    chain of [if method == ...] blocks [model] of the method at hand.
    [Some (i, method, v)]: the loop left through [break] at index [i],
    with [v] what the blocks assigned there ([None]: no block matched);
    [None]: the list was exhausted and nothing was assigned. *)
Fixpoint band_loop (model : string -> option fl) (methods : list string) (i : nat)
    (r : fl) (rlim_min rlim_max : list fl) : option (nat * string * option fl) :=
  match methods with
  | [] => None
  | method :: rest =>
      if in_band r rlim_min rlim_max i
      then Some (i, method, model method)
      else band_loop model rest (S i) r rlim_min rlim_max
  end.

(** [rmax_frac] as the documentation asks for it: increasing. *)
Definition increasing (l : list fl) : Prop :=
  forall j t a b, (j < t)%nat ->
    nth_error l j = Some a -> nth_error l t = Some b -> flt a b = true.

Section FieldEvaluation.

(** [scipy.interpolate.interp1d] on nodes that are not ascending or not
    finite (the "linear" rmax selection puts an infinity at each end) is
    library behaviour that no statement below depends on. *)
Variable interp1d_any : list fl -> list fl -> res interp.

Variable self : CycloneRecord.

Definition frmax_first (theta : fl) : res fl :=
  fs <- getitem "frmax" (frmax self) ;;
  f <- index fs 0 ;;
  f theta.

Definition frmax_values (theta : fl) : res (list fl) :=
  fs <- getitem "frmax" (frmax self) ;;
  mapM (fun f : interp => f theta) fs.

Definition fradinfo_values (theta : fl) : res (list fl) :=
  fs <- getitem "fradinfo" (fradinfo self) ;;
  mapM (fun f : interp => f theta) fs.

Definition select_nearest (r theta : fl) : res (option fl) :=
  try_except
    (radinfo <- fradinfo_values theta ;;
     radnn <- np_argmin (map (fun x => fabs (x - r)%fl) radinfo) ;;
     vals <- frmax_values theta ;;
     rmax <- index vals radnn ;;
     Ok (Some rmax))
    (_ <- frmax_first theta ;;
     Raise (Warning "nearest not possible, first rmax selected")).

Definition select_linear (r theta : fl) : res (option fl) :=
  try_except
    (radinfo <- fradinfo_values theta ;;
     let radinfo := (NInf :: radinfo) ++ [PInf] in
     rmaxinfo <- frmax_values theta ;;
     r0 <- index rmaxinfo 0 ;;
     let rmaxinfo := r0 :: rmaxinfo in
     rl <- index rmaxinfo (List.length rmaxinfo - 1) ;;
     let rmaxinfo := rmaxinfo ++ [rl] in
     int_f <- interp1d_any radinfo rmaxinfo ;;
     rmax <- int_f r ;;
     Ok (Some rmax))
    (_ <- frmax_first theta ;;
     Raise (Warning "linear not possible, first rmax selected")).

(** Lines 668-712 (and 912-956).  The result is the local variable
    [rmax] as the statement leaves it: [None] when no branch assigned
    it.  Every [except] clause assigns the first interpolator's value
    and then executes [raise Warning(...)]. *)
Definition select_rmax (rmax_select : rmax_select_t) (r theta : fl)
    : res (option fl) :=
  match rmax_select with
  | SelStr s =>
      try_except
        (_ <- assert (existsb (String.eqb s) rmax_select_methods_available) ;;
         rmax <- (if String.eqb s "mean"
                  then vals <- frmax_values theta ;; Ok (Some (np_mean vals))
                  else Ok None) ;;
         rmax <- (if String.eqb s "nearest" then select_nearest r theta
                  else Ok rmax) ;;
         rmax <- (if String.eqb s "linear" then select_linear r theta
                  else Ok rmax) ;;
         Ok rmax)
        (_ <- frmax_first theta ;;
         Raise keyword_warning)
  | SelInt k =>
      try_except
        (vals <- frmax_values theta ;;
         _ <- index_int vals k ;;
         Ok None)
        (_ <- frmax_first theta ;;
         Raise index_warning)
  | SelOther =>
      _ <- frmax_first theta ;;
      Raise (Warning "Wrong rmax selection keyword/index. First frmax is used")
  end.

Variable kw_atmos : kw_atmos_t.
Variable kw_h80 : kw_h80_t.

(** *** calculate_wind *)

Variable kw_e04 : kw_e04_t.
Variable kw_w06 : kw_w06_t.
Variable kw_m16 : kw_m16_t.

(** The chain of [if method == ...] blocks: the value assigned to
    [vcirc], or [None] when the name matches no block. *)
Definition wind_model (method : string) (r rmax vmax : fl) : option fl :=
  if String.eqb method "H80" then
    let B := calc_holland_B_full vmax rmax (mslp self) (coriolis (lat self))
               (pn kw_atmos) (rhoair kw_atmos) (bmax kw_h80) (bmin kw_h80) in
    Some (calc_vcirc_h80 r rmax (mslp self) B (pn kw_atmos) (rhoair kw_atmos)
            (coriolis (lat self)))
  else if String.eqb method "H80c" then
    let B := calc_holland_B vmax (mslp self) (pn kw_atmos) (rhoair kw_atmos)
               (bmax kw_h80) (bmin kw_h80) in
    Some (calc_vcirc_h80c r rmax (mslp self) B (pn kw_atmos) (rhoair kw_atmos))
  else if String.eqb method "J92" then
    Some (calc_vcirc_j92 r rmax vmax)
  else if String.eqb method "W06" then
    Some (calc_vcirc_w06 r rmax vmax (w06_n kw_w06) (w06_X kw_w06))
  else if String.eqb method "E04" then
    Some (floor0 (calc_vcirc_e04 r rmax vmax (e04_b kw_e04) (e04_m kw_e04)
                    (e04_n kw_e04) (e04_R0 kw_e04)))
  else if String.eqb method "E11" then
    Some (floor0 (calc_vcirc_e11 r rmax vmax (coriolis (lat self))))
  else if String.eqb method "M16" then
    Some (calc_vcirc_m16 r rmax vmax (m16_n kw_m16))
  else None.

Definition wind_bands (methods : list string) (i : nat) (r rmax vmax : fl)
    (rlim_min rlim_max : list fl) : option (nat * string * option fl) :=
  band_loop (fun method => wind_model method r rmax vmax) methods i r
    rlim_min rlim_max.

(** Lines 829-851. *)
Definition wind_uv (kw_corr : kw_corr_t) (vcirc r theta_input : fl) : fl * fl :=
  let vcirc := (vcirc * swrf kw_corr)%fl in
  let u := (- vcirc * r * fsin theta_input / np_max2 r (Fin 1e-8))%fl in
  let v := (vcirc * r * fcos theta_input / np_max2 r (Fin 1e-8))%fl in
  let a := deg2rad (angle kw_corr) in
  let utrans := (ustorm self * fcos a - vstorm self * fsin a)%fl in
  let vtrans := (ustorm self * fsin a + vstorm self * fcos a)%fl in
  let '(u, v) :=
    if negb (isnan utrans) && negb (isnan vtrans)
    then ((u + fraction kw_corr * utrans)%fl, (v + fraction kw_corr * vtrans)%fl)
    else (u, v) in
  ((u * tfac kw_corr)%fl, (v * tfac kw_corr)%fl).

(** Everything up to the end of the band loop: the bearing, [vmax], the
    rmax selection, the length check and the dispatch. *)
Definition wind_dispatch (at_ : fl * fl) (methods : list string)
    (rmax_frac : list fl) (rmax_select : rmax_select_t)
    : res (option (nat * string * option fl)) :=
  let '(r, theta_input) := at_ in
  let theta := query_theta theta_input in
  fv <- getitem "fvmax" (fvmax self) ;;
  vmax <- fv theta ;;
  rmax <- select_rmax rmax_select r theta ;;
  _ <- (if Nat.eqb (List.length rmax_frac) (List.length methods) then Ok tt
        else Raise (Exception "rmax_frac must corresponds to each listed method")) ;;
  rmax <- local "rmax" rmax ;;
  Ok (wind_bands methods 0 r rmax vmax
        (rlim_min_of rmax_frac rmax) (rlim_max_of rmax_frac rmax)).

Definition calculate_wind (at_ : fl * fl) (methods : list string)
    (rmax_frac : list fl) (rmax_select : rmax_select_t) (kw_corr : kw_corr_t)
    : res (fl * fl) :=
  band <- wind_dispatch at_ methods rmax_frac rmax_select ;;
  vcirc <- local "vcirc" (match band with Some (_, _, v) => v | None => None end) ;;
  Ok (wind_uv kw_corr vcirc (fst at_) (snd at_)).

(** *** calculate_pressure *)

Definition pressure_model (method : string) (r rmax vmax : fl) : option fl :=
  if String.eqb method "H80" then
    let B := calc_holland_B_full vmax rmax (mslp self) (coriolis (lat self))
               (pn kw_atmos) (rhoair kw_atmos) (bmax kw_h80) (bmin kw_h80) in
    Some (calc_mslp_h80 r rmax (mslp self) B (pn kw_atmos))
  else if String.eqb method "H80c" then
    let B := calc_holland_B vmax (mslp self) (pn kw_atmos) (rhoair kw_atmos)
               (bmax kw_h80) (bmin kw_h80) in
    Some (calc_mslp_h80 r rmax (mslp self) B (pn kw_atmos))
  else None.

Definition pressure_bands (methods : list string) (i : nat) (r rmax vmax : fl)
    (rlim_min rlim_max : list fl) : option (nat * string * option fl) :=
  band_loop (fun method => pressure_model method r rmax vmax) methods i r
    rlim_min rlim_max.

Definition pressure_dispatch (at_ : fl * fl) (methods : list string)
    (rmax_frac : list fl) (rmax_select : rmax_select_t)
    : res (option (nat * string * option fl)) :=
  let '(r, theta_input) := at_ in
  let theta := query_theta theta_input in
  fv <- getitem "fvmax" (fvmax self) ;;
  vmax <- fv theta ;;
  rmax <- select_rmax rmax_select r theta ;;
  _ <- (if Nat.eqb (List.length rmax_frac) (List.length methods) then Ok tt
        else Raise (Exception "rmax_frac must corresponds to each listed method")) ;;
  rmax <- local "rmax" rmax ;;
  Ok (pressure_bands methods 0 r rmax vmax
        (rlim_min_of rmax_frac rmax) (rlim_max_of rmax_frac rmax)).

Definition calculate_pressure (at_ : fl * fl) (methods : list string)
    (rmax_frac : list fl) (rmax_select : rmax_select_t) : res fl :=
  band <- pressure_dispatch at_ methods rmax_frac rmax_select ;;
  local "mslp" (match band with Some (_, _, v) => v | None => None end).

End FieldEvaluation.

(** ** Track *)

Record Track : Type := mkTrack { records : list CycloneRecord }.

Definition timeindex (self : Track) : list Z := map timestamp (records self).

(** [np.searchsorted(a, v, side='left')] on an ascending array: the first
    index whose element is not below [v]. *)
Fixpoint searchsorted_left (a : list Z) (v : Z) : nat :=
  match a with
  | [] => 0%nat
  | x :: a' => if (x <? v)%Z then S (searchsorted_left a' v) else 0%nat
  end.

(** [Timedelta.total_seconds()] of a difference in nanoseconds. *)
Definition total_seconds (d : Z) : R := IZR d / 1e9.

(** [x_left*w_left + x_right*w_right]. *)
Definition blend (x_left x_right w_left w_right : fl) : fl :=
  (x_left * w_left + x_right * w_right)%fl.

Definition zeros (n m : nat) : list (list fl) := repeat (repeat (Fin 0) m) n.

(** [a.shape[1]] of a 2-d array. *)
Definition ncols (a : list (list fl)) : nat :=
  match a with
  | [] => 0%nat
  | row :: _ => List.length row
  end.

Definition get2 (a : list (list fl)) (i j : nat) : res fl :=
  row <- index a i ;; index row j.

Fixpoint set_at {A : Type} (l : list A) (i : nat) (x : A) : res (list A) :=
  match l, i with
  | [], _ => Raise IndexError
  | _ :: l', O => Ok (x :: l')
  | a :: l', S i' => l'' <- set_at l' i' x ;; Ok (a :: l'')
  end.

Definition set2 (a : list (list fl)) (i j : nat) (x : fl) : res (list (list fl)) :=
  row <- index a i ;;
  row' <- set_at row j x ;;
  set_at a i row'.

(** [for j in ...: radinfo[i, j] = radinfo_left[i, j]*w_left
    + radinfo_right[i, j]*w_right]. *)
Fixpoint blend_cols (w_left w_right : fl) (radinfo_left radinfo_right : list (list fl))
    (i : nat) (js : list nat) (radinfo : list (list fl)) : res (list (list fl)) :=
  match js with
  | [] => Ok radinfo
  | j :: js' =>
      a <- get2 radinfo_left i j ;;
      b <- get2 radinfo_right i j ;;
      radinfo' <- set2 radinfo i j (blend a b w_left w_right) ;;
      blend_cols w_left w_right radinfo_left radinfo_right i js' radinfo'
  end.

(** The loop over thresholds of the two multi-threshold branches:
    a NaN threshold at either end executes [radinfo = radinfo*np.nan]. *)
Fixpoint blend_rows (w_left w_right : fl) (vinfo_left vinfo_right : list fl)
    (radinfo_left radinfo_right : list (list fl)) (is_ : list nat)
    (radinfo : list (list fl)) : res (list (list fl)) :=
  match is_ with
  | [] => Ok radinfo
  | i :: is' =>
      a <- index vinfo_left i ;;
      b <- index vinfo_right i ;;
      radinfo' <-
        (if isnan a || isnan b
         then Ok (map (map (fun x => (x * NaN)%fl)) radinfo)
         else blend_cols w_left w_right radinfo_left radinfo_right i
                (seq 0 (ncols radinfo)) radinfo) ;;
      blend_rows w_left w_right vinfo_left vinfo_right radinfo_left radinfo_right
        is' radinfo'
  end.

(** [radinfo[j] = radinfo_left[j]*w_left + radinfo_right[j]*w_right] on
    whole rows, with numpy broadcasting of a one-element row. *)
Definition blend_whole_row (w_left w_right : fl) (a b : list fl) : res (list fl) :=
  if Nat.eqb (List.length a) (List.length b)
  then Ok (map (fun p => blend (fst p) (snd p) w_left w_right) (combine a b))
  else match b with
       | [b0] => Ok (map (fun x => blend x b0 w_left w_right) a)
       | _ => Raise ValueError
       end.

Fixpoint blend_single (w_left w_right : fl) (radinfo_left radinfo_right : list (list fl))
    (js : list nat) (radinfo : list (list fl)) : res (list (list fl)) :=
  match js with
  | [] => Ok radinfo
  | j :: js' =>
      a <- index radinfo_left j ;;
      b <- index radinfo_right j ;;
      row <- blend_whole_row w_left w_right a b ;;
      radinfo' <- set_at radinfo j row ;;
      blend_single w_left w_right radinfo_left radinfo_right js' radinfo'
  end.

(** [len(self.records[i]['vinfo'])]. *)
Definition vinfo_len (v : vinfo_t) : res (list fl) :=
  match v with
  | VScalar _ => Raise TypeError
  | VArr l => Ok l
  end.

(** Lines 1200-1266: the locals [vinfo] and [radinfo] after the blending
    block, [None] when no branch assigned them. *)
Definition blend_radial (w_left w_right : fl) (left right : CycloneRecord)
    : res (option (vinfo_t * radinfo_t)) :=
  vinfo_left <- vinfo_len (vinfo left) ;;
  let lvinfo_left := List.length vinfo_left in
  vinfo_right <- vinfo_len (vinfo right) ;;
  let lvinfo_right := List.length vinfo_right in
  let radinfo_left := atleast_2d (radinfo left) in
  let radinfo_right := atleast_2d (radinfo right) in
  if negb (Nat.eqb lvinfo_left lvinfo_right) then
    let min_vinfo_length := Nat.min lvinfo_left lvinfo_right in
    let vinfo := firstn min_vinfo_length vinfo_left in
    let radinfo :=
      if Nat.ltb lvinfo_right lvinfo_left
      then zeros min_vinfo_length (ncols radinfo_left)
      else zeros min_vinfo_length (ncols radinfo_right) in
    radinfo <- blend_rows w_left w_right vinfo_left vinfo_right
                 radinfo_left radinfo_right (seq 0 min_vinfo_length) radinfo ;;
    Ok (Some (VArr vinfo, RTable radinfo))
  else
    let len_vinfo := lvinfo_left in
    if Nat.eqb len_vinfo 1 then
      v_l <- index vinfo_left 0 ;;
      v_r <- index vinfo_right 0 ;;
      if isnan v_l || isnan v_r then Ok (Some (VScalar NaN, RScalar NaN))
      else if feq v_l (Fin 0) || feq v_r (Fin 0)
      then Ok (Some (VScalar NaN, RScalar NaN))
      else
        radinfo <- blend_single w_left w_right radinfo_left radinfo_right
                     (seq 0 (List.length radinfo_left))
                     (zeros (List.length radinfo_left) (ncols radinfo_left)) ;;
        Ok (Some (VScalar v_l, RTable radinfo))
    else if Nat.ltb 1 len_vinfo then
      radinfo <- blend_rows w_left w_right vinfo_left vinfo_right
                   radinfo_left radinfo_right (seq 0 lvinfo_left)
                   (zeros lvinfo_left (ncols radinfo_left)) ;;
      Ok (Some (VArr vinfo_left, RTable radinfo))
    else Ok None.

(** Lines 1176-1186. *)
Definition weights (i_left i_right : nat) (v_left v_right at_ : Z) : res (fl * fl) :=
  if Nat.ltb i_left i_right then
    let td_right := total_seconds (v_right - at_) in
    let td_total := total_seconds (v_right - v_left) in
    if Reqb td_total 0 then Raise ZeroDivisionError
    else
      let w_left := Fin (td_right / td_total) in
      Ok (w_left, (Fin 1 - w_left)%fl)
  else Ok (Fin 1, Fin 0).

Definition interpolate (self : Track) (at_ : Z) : res CycloneRecord :=
  _ <- try_except
         (t_last <- index (timeindex self) (List.length (timeindex self) - 1) ;;
          _ <- assert (at_ <=? t_last)%Z ;;
          t_first <- index (timeindex self) 0 ;;
          assert (t_first <=? at_)%Z)
         (Raise (Exception "Out of interpolation range")) ;;
  let i_right := searchsorted_left (timeindex self) at_ in
  let i_left := if Nat.eqb i_right 0 then 0%nat else (i_right - 1)%nat in
  v_left <- index (timeindex self) i_left ;;
  v_right <- index (timeindex self) i_right ;;
  w <- weights i_left i_right v_left v_right at_ ;;
  let '(w_left, w_right) := w in
  left <- index (records self) i_left ;;
  right <- index (records self) i_right ;;
  let mix (field : CycloneRecord -> fl) :=
    blend (field left) (field right) w_left w_right in
  blended <- blend_radial w_left w_right left right ;;
  let blended :=
    if feq w_right (Fin 1)
    then Some (vinfo right, RTable (atleast_2d (radinfo right)))
    else if feq w_left (Fin 1)
    then Some (vinfo left, RTable (atleast_2d (radinfo left)))
    else blended in
  vr <- local "vinfo" blended ;;
  Ok (mkRecord at_ (mix lon) (mix lat) (mix mslp) (mix vmax) (mix rmax)
        (fst vr) (snd vr) (mix ustorm) (mix vstorm) None None None None).

(** ** The conversion the documentation describes *)

(** The docstring of calculate_wind: "this counter-clockwise from x-axis
    angle is converted to a clockwise angle from y axis to match the
    interpolation grid".  It is what the first assignment of line 645
    computes; a negative result is brought back to the circle. *)
Definition clockwise_from_north (theta_input : fl) : fl :=
  let theta := (Fin (-1) * theta_input + Fin (PI / 2))%fl in
  if flt theta (Fin 0) then (Fin (2 * PI) + theta)%fl else theta.

(** ** interp1d on nodes of any order *)

(** A model of [scipy.interpolate.interp1d(x, y)] as current releases
    evaluate it for one-dimensional data: the nodes are sorted by [x]
    (stable), and a call is [numpy.interp], which retries from the right
    node when the left formula gives NaN.  It instantiates the parameter
    [interp1d_any] of the field evaluation in closed statements. *)
Fixpoint insert_node (p : fl * fl) (l : list (fl * fl)) : list (fl * fl) :=
  match l with
  | [] => [p]
  | q :: l' => if fle (fst p) (fst q) then p :: l else q :: insert_node p l'
  end.

Definition sort_nodes (l : list (fl * fl)) : list (fl * fl) :=
  fold_right insert_node [] l.

Definition np_interp_segment (x x0 y0 x1 y1 : fl) : fl :=
  if feq x x0 then y0
  else
    let slope := ((y1 - y0) / (x1 - x0))%fl in
    let res := (slope * (x - x0) + y0)%fl in
    if isnan res then
      let res := (slope * (x - x1) + y1)%fl in
      if isnan res && feq y0 y1 then y0 else res
    else res.

Fixpoint np_interp (nodes : list (fl * fl)) (x : fl) : fl :=
  match nodes with
  | (x0, y0) :: rest =>
      match rest with
      | (x1, y1) :: rest' =>
          if flt x x1 || match rest' with [] => true | _ => false end
          then (if fle x1 x then y1 else np_interp_segment x x0 y0 x1 y1)
          else np_interp rest x
      | [] => y0
      end
  | [] => NaN
  end.

Definition interp1d_general (xs ys : list fl) : res interp :=
  if Nat.eqb (List.length xs) (List.length ys) then
    let nodes := sort_nodes (combine xs ys) in
    Ok (fun x =>
          match x with
          | NaN => Ok NaN
          | _ =>
              if flt x (hd NaN (map fst nodes)) then Raise ValueError
              else if flt (last (map fst nodes) NaN) x then Raise ValueError
              else Ok (np_interp nodes x)
          end)
  else Raise ValueError.

(** ** Radius of maximum wind *)

(** *** The two solvers *)

(** The smallest integer not below [x]. *)
Definition Rceil (x : R) : Z := (- Int_part (- x))%Z.

(** [np.arange(start, stop, step)] on numbers: [ceil((stop - start)/step)]
    points [start + k*step].  A zero step and a bound that is not finite
    raise; both callers catch whatever is raised, so that the kind of
    exception is not observable. *)
Definition np_arange (start stop step : fl) : res (list fl) :=
  match start, stop, step with
  | Fin a, Fin b, Fin s =>
      if Reqb s 0 then Raise ZeroDivisionError
      else Ok (map (fun k => Fin (a + INR k * s))
                 (seq 0 (Z.to_nat (Rceil ((b - a) / s)))))
  | _, _, _ => Raise ValueError
  end.

(** [for rm in rm_range: res = resfunc(rm); if res < 0: break]: the loop
    variable [rm] as the loop leaves it, [None] while it is unbound. *)
Fixpoint scan_loop (resfunc : fl -> fl) (rm_range : list fl) (rm : option fl)
    : option fl :=
  match rm_range with
  | [] => rm
  | x :: rest =>
      if flt (resfunc x) (Fin 0) then Some x
      else scan_loop resfunc rest (Some x)
  end.

(** The residuals (lines 87 and 164). *)
Definition resfunc_e11 (v r vmax f : fl) (rmax : fl) : fl :=
  (v - (Fin 2 * r * (vmax * rmax + Fin 0.5 * f * rmax ** Fin 2)
        / (rmax ** Fin 2 + r ** Fin 2)
        - f * r / Fin 2))%fl.

Definition resfunc_h80 (v r pc B f pn rhoair : fl) (rmax : fl) : fl :=
  (v - (fsqrt (B / rhoair * (rmax / r) ** B * (pn - pc)
               * fexp (- ((rmax / r) ** B))
               + (r * f / Fin 2) ** Fin 2)
        - r * f / Fin 2))%fl.

Section RadiusOfMaximumWind.

(** [scipy.optimize.fsolve(func, x0)]: library code, which may raise. *)
Variable fsolve : (fl -> fl) -> fl -> res fl.

(** The unit conversions of [pycaz.conversion]. *)
Variable pa2mb : fl -> fl.
Variable km2m : fl -> fl.

(** Lines 88-101 and 166-179, the same statements in both functions.
    [rmax_solved] is bound by neither branch when [solver] is another
    string, and the [return] is outside the [try]. *)
Definition solve_rmax (resfunc : fl -> fl) (solver : string) (limit : list fl)
    (step : fl) : res fl :=
  rmax_solved <-
    try_except
      (if String.eqb solver "scan" then
         l0 <- index limit 0 ;;
         l1 <- index limit 1 ;;
         rm_range <- np_arange l0 (l1 + step)%fl step ;;
         rm <- local "rm" (scan_loop resfunc rm_range None) ;;
         Ok (Some rm)
       else if String.eqb solver "fsolve" then
         l0 <- index limit 0 ;;
         x <- fsolve resfunc l0 ;;
         Ok (Some x)
       else Ok None)
      (Raise (Exception "Solver failed")) ;;
  local "rmax_solved" rmax_solved.

Definition calc_rmax_e11 (v r vmax f : fl) (solver : string) (limit : list fl)
    (step : fl) : res fl :=
  solve_rmax (resfunc_e11 v r vmax f) solver limit step.

Definition calc_rmax_h80 (v r pc B f pn rhoair : fl) (solver : string)
    (limit : list fl) (step : fl) : res fl :=
  solve_rmax (resfunc_h80 v r pc B f pn rhoair) solver limit step.

(** *** The two regressions *)

Definition calc_rmax_s02 (mslp : fl) : fl :=
  let mslp := pa2mb mslp in
  let rmax := (Fin 0.4785 * mslp - Fin 413)%fl in
  km2m rmax.

Definition calc_rmax_w04 (vmax lat : fl) : fl :=
  let rmax := (Fin 51.6 * fexp (Fin (-0.0223) * vmax + Fin 0.0281 * lat))%fl in
  km2m rmax.

(** *** Record.calc_rmax *)

Record kw_rmax_h80_t : Type := mkRmaxH80 {
  rh_bmax : fl; rh_bmin : fl;
  rh_solver : string; rh_limit : list fl; rh_step : fl }.
Record kw_rmax_e11_t : Type := mkRmaxE11 {
  re_solver : string; re_limit : list fl; re_step : fl }.

(** [self['frmax'] = ...]. *)
Definition set_frmax (self : CycloneRecord) (fs : list interp) : CycloneRecord :=
  mkRecord (timestamp self) (lon self) (lat self) (mslp self) (vmax self)
    (rmax self) (vinfo self) (radinfo self) (ustorm self) (vstorm self)
    (fvmax self) (fvinfo self) (fradinfo self) (Some fs).

(** [np.ones_like(theta)*x]. *)
Definition ones_times (x : fl) : list fl :=
  map (fun one => (one * x)%fl) (repeat (Fin 1) 5).

Variable self : CycloneRecord.
Variable kw_atmos : kw_atmos_t.
Variable kw_h80 : kw_rmax_h80_t.
Variable kw_e11 : kw_rmax_e11_t.

(** The body of the [try] of lines 509-568 for method [j] at one bearing.
    [Ok (Some x)]: a block assigned [x] and the loop is left by [break];
    [Ok None]: [break] is reached with no block executed; [Raise]: the
    bare [except] takes over and the loop continues. *)
Definition rmax_attempt (vlimit_min vlimit_max : list fl) (fv fr : interp)
    (thetai : fl) (j : nat) (method : string) : res (option fl) :=
  x <- fv thetai ;;
  lo <- index vlimit_min j ;;
  _ <- assert (fge x lo) ;;
  x <- fv thetai ;;
  hi <- index vlimit_max j ;;
  _ <- assert (flt x hi) ;;
  a <- (if String.eqb method "E11" then
          v <- fv thetai ;;
          r <- fr thetai ;;
          fvm <- getitem "fvmax" (fvmax self) ;;
          vm <- fvm thetai ;;
          rm <- calc_rmax_e11 v r vm (coriolis (lat self))
                  (re_solver kw_e11) (re_limit kw_e11) (re_step kw_e11) ;;
          Ok (Some rm)
        else Ok None) ;;
  a <- (if String.eqb method "H80" then
          fvm <- getitem "fvmax" (fvmax self) ;;
          vm <- fvm thetai ;;
          let B := calc_holland_B vm (mslp self) (pn kw_atmos) (rhoair kw_atmos)
                     (rh_bmax kw_h80) (rh_bmin kw_h80) in
          v <- fv thetai ;;
          r <- fr thetai ;;
          rm <- calc_rmax_h80 v r (mslp self) B (coriolis (lat self))
                  (pn kw_atmos) (rhoair kw_atmos)
                  (rh_solver kw_h80) (rh_limit kw_h80) (rh_step kw_h80) ;;
          Ok (Some rm)
        else Ok a) ;;
  a <- (if String.eqb method "S02" then Ok (Some (calc_rmax_s02 (mslp self)))
        else Ok a) ;;
  a <- (if String.eqb method "W04" then
          fvm <- getitem "fvmax" (fvmax self) ;;
          vm <- fvm thetai ;;
          Ok (Some (calc_rmax_w04 vm (lat self)))
        else Ok a) ;;
  Ok a.

(** The loop over the methods at one bearing: [rmax_fv_theta[i]] as the
    loop leaves it, starting from the placeholder. *)
Fixpoint rmax_methods (attempt : nat -> string -> res (option fl)) (j : nat)
    (methods : list string) (placeholder : fl) : fl :=
  match methods with
  | [] => placeholder
  | method :: rest =>
      match attempt j method with
      | Ok (Some x) => x
      | Ok None => placeholder
      | Raise _ => rmax_methods attempt (S j) rest placeholder
      end
  end.

(** [rmax_fv_theta] for one pair of threshold and radius interpolators. *)
Definition rmax_fv_theta (methods : list string) (vlimit_min vlimit_max : list fl)
    (fv fr : interp) : list fl :=
  map (fun thetai =>
         rmax_methods (rmax_attempt vlimit_min vlimit_max fv fr (Fin thetai))
           0 methods (Fin 1))
      theta_grid.

(** The method returns [self] after storing [frmax] (and [rmax_method],
    an empty array that nothing reads); it mutates nothing before the
    last statement of each branch. *)
Definition calc_rmax (methods : list string) (use_rmax_info : bool)
    (vlimit : list fl) : res CycloneRecord :=
  _ <- try_except
         (assert (Nat.eqb (List.length vlimit) (List.length methods)))
         (Raise (Exception "vlimit must be the size of methods.")) ;;
  let vlimit_min := removelast (Fin 0 :: vlimit) in
  let vlimit_max := vlimit in
  if negb (isnan (rmax self)) && use_rmax_info then
    frmax <- interp1d theta_grid (ones_times (rmax self)) ;;
    Ok (set_frmax self [frmax])
  else if forallb isnan (vinfo_1d (vinfo self)) then
    let rmax :=
      if negb (isnan (mslp self))
      then Some (ones_times (calc_rmax_s02 (mslp self)))
      else if negb (isnan (vmax self))
      then Some (ones_times (calc_rmax_w04 (vmax self) (lat self)))
      else None in
    rmax <- local "rmax" rmax ;;
    frmax <- interp1d theta_grid rmax ;;
    Ok (set_frmax self [frmax])
  else
    fvinfo <- getitem "fvinfo" (fvinfo self) ;;
    fradinfo <- getitem "fradinfo" (fradinfo self) ;;
    frmax <- mapM (fun p : interp * interp =>
                     interp1d theta_grid
                       (rmax_fv_theta methods vlimit_min vlimit_max (fst p) (snd p)))
               (combine fvinfo fradinfo) ;;
    Ok (set_frmax self frmax).

End RadiusOfMaximumWind.

(** ** Building a Track *)

(** [self.records[np.argsort(self.timeindex)]]: the records in ascending
    order of timestamp.  numpy promises no order among records with the
    same timestamp; they are kept here in the order given, and no
    statement depends on that choice. *)
Fixpoint insert_record (rec : CycloneRecord) (l : list CycloneRecord)
    : list CycloneRecord :=
  match l with
  | [] => [rec]
  | x :: l' =>
      if (timestamp rec <=? timestamp x)%Z then rec :: l
      else x :: insert_record rec l'
  end.

Definition sort (self : Track) : Track :=
  mkTrack (fold_right insert_record [] (records self)).

(** [rec['ustorm'] = us; rec['vstorm'] = vs]. *)
Definition set_storm (rec : CycloneRecord) (us vs : fl) : CycloneRecord :=
  mkRecord (timestamp rec) (lon rec) (lat rec) (mslp rec) (vmax rec) (rmax rec)
    (vinfo rec) (radinfo rec) us vs
    (fvmax rec) (fvinfo rec) (fradinfo rec) (frmax rec).

Section Translation.

(** [gc_distance(of_x, of_y, origin_x, origin_y)] of [pycaz.conversion]:
    the two components of the displacement from the origin, as numpy
    floats. *)
Variable gc_distance : fl -> fl -> fl -> fl -> fl * fl.

(** The body of the loop of calc_translation for index [i]; the array of
    records holds distinct objects.  The copy to the last record is part
    of the body. *)
Definition translation_step (ts : list Z) (recs : list CycloneRecord) (i : nat)
    : res (list CycloneRecord) :=
  t1 <- index ts (i + 1) ;;
  t0 <- index ts i ;;
  let dt := Fin (total_seconds (t1 - t0)) in
  r1 <- index recs (i + 1) ;;
  r0 <- index recs i ;;
  let '(dtrans_x, dtrans_y) := gc_distance (lon r1) (lat r1) (lon r0) (lat r0) in
  recs <- set_at recs i (set_storm r0 (dtrans_x / dt)%fl (dtrans_y / dt)%fl) ;;
  let n := List.length recs in
  before_last <- index recs (n - 2) ;;
  last_one <- index recs (n - 1) ;;
  set_at recs (n - 1)
    (set_storm last_one (ustorm before_last) (vstorm before_last)).

Fixpoint translation_loop (ts : list Z) (is_ : list nat) (recs : list CycloneRecord)
    : res (list CycloneRecord) :=
  match is_ with
  | [] => Ok recs
  | i :: rest =>
      recs' <- translation_step ts recs i ;;
      translation_loop ts rest recs'
  end.

Definition calc_translation (self : Track) : res Track :=
  recs <- translation_loop (timeindex self)
            (seq 0 (List.length (records self) - 1)) (records self) ;;
  Ok (mkTrack recs).

(** [Track(records)] on an array of Records: sort, then recompute the
    translation. *)
Definition Track_init (records : list CycloneRecord) : res Track :=
  calc_translation (sort (mkTrack records)).

(** The velocity the loop stores in record [i]: the displacement to the
    next record over the time between them. *)
Definition translation_between (t0 t1 : Z) (r0 r1 : CycloneRecord) : fl * fl :=
  let '(dtrans_x, dtrans_y) := gc_distance (lon r1) (lat r1) (lon r0) (lat r0) in
  ((dtrans_x / Fin (total_seconds (t1 - t0)))%fl,
   (dtrans_y / Fin (total_seconds (t1 - t0)))%fl).

End Translation.

(** ** schism.core: the time of day of a local_to_global file *)




(** ** Sample data *)

(** An interpolator over five equal samples. *)
Definition const_interp (k : R) : interp :=
  interp1d_call theta_grid (repeat (Fin k) 5).

(** A storm with one reported threshold whose interpolators have been
    generated: maximum wind 30 m/s and rmax 50 km on every bearing. *)
Definition storm (us vs : fl) : CycloneRecord :=
  mkRecord 0 (Fin 90) (Fin 20) (Fin 95000) (Fin 27) NaN
    (VArr [Fin 17]) (RTable [[Fin 50000; Fin 60000; Fin 55000; Fin 45000]])
    us vs
    (Some (const_interp 30)) (Some [const_interp 19])
    (Some [interp1d_call theta_grid
             [Fin 50000; Fin 60000; Fin 55000; Fin 45000; Fin 50000]])
    (Some [const_interp 50000]).

(** The same storm when no threshold was reported: gen_radial_fields
    leaves the arrays of threshold and radius interpolators empty. *)
Definition storm_without_radii : CycloneRecord :=
  mkRecord 0 (Fin 90) (Fin 20) (Fin 95000) (Fin 27) NaN
    (VScalar NaN) (RScalar NaN) NaN NaN
    (Some (const_interp 30)) (Some []) (Some [])
    (Some [const_interp 50000]).

(** A maximum-wind interpolator that tells the quadrants apart: 10 to the
    north, 20 to the east, 30 to the south, 40 to the west. *)
Definition fvmax_by_quadrant : interp :=
  interp1d_call theta_grid [Fin 10; Fin 20; Fin 30; Fin 40; Fin 10].

(** The default keyword arguments. *)
Definition kw_corr_default : kw_corr_t :=
  mkCorr (Fin 0.56) (Fin 19.2) (Fin 0.9) (Fin 0.88).
Definition kw_atmos_default : kw_atmos_t := mkAtmos (Fin 101325) (Fin 1.15).
Definition kw_h80_default : kw_h80_t := mkH80 (Fin 2.5) (Fin 0.5).
Definition kw_e04_default : kw_e04_t :=
  mkE04 (Fin 0.25) (Fin 1.6) (Fin 0.9) (Fin 420000).
Definition kw_w06_default : kw_w06_t := mkW06 (Fin 0.79) (Fin 243000).
Definition kw_m16_default : kw_m16_t := mkM16 (Fin 0.6).

(** calculate_wind and calculate_pressure with every keyword argument at
    its default except those listed. *)
Definition wind_with (self : CycloneRecord) (at_ : fl * fl) (methods : list string)
    (rmax_frac : list fl) (rmax_select : rmax_select_t) : res (fl * fl) :=
  calculate_wind interp1d_general self kw_atmos_default kw_h80_default
    kw_e04_default kw_w06_default kw_m16_default
    at_ methods rmax_frac rmax_select kw_corr_default.

Definition pressure_with (self : CycloneRecord) (at_ : fl * fl)
    (methods : list string) (rmax_frac : list fl) (rmax_select : rmax_select_t)
    : res fl :=
  calculate_pressure interp1d_general self kw_atmos_default kw_h80_default
    at_ methods rmax_frac rmax_select.

(** Fixes of a storm six hours apart; [fix_at] leaves the interpolators
    ungenerated, as the decoder does. *)
Definition six_hours : Z := 21600000000000.
Definition three_hours : Z := 10800000000000.

Definition fix_at (t : Z) (rmax_ : fl) (vinfo_ : vinfo_t) (radinfo_ : radinfo_t)
    : CycloneRecord :=
  mkRecord t (Fin 90) (Fin 20) (Fin 95000) (Fin 27) rmax_ vinfo_ radinfo_
    (Fin 3) (Fin 4) None None None None.

Definition quadrants (x : R) : list fl := repeat (Fin x) 4.
Definition nan_row : list fl := repeat NaN 4.

(** Two thresholds at both fixes, the second one missing. *)
Definition track_nan_second : Track :=
  mkTrack [fix_at 0 NaN (VArr [Fin 17; NaN]) (RTable [quadrants 100000; nan_row]);
           fix_at six_hours NaN (VArr [Fin 17; NaN])
             (RTable [quadrants 200000; nan_row])].

(** The same with the missing threshold listed first. *)
Definition track_nan_first : Track :=
  mkTrack [fix_at 0 NaN (VArr [NaN; Fin 17]) (RTable [nan_row; quadrants 100000]);
           fix_at six_hours NaN (VArr [NaN; Fin 17])
             (RTable [nan_row; quadrants 200000])].

(** rmax unknown at the first fix and known at the second. *)
Definition track_rmax_missing : Track :=
  mkTrack [fix_at 0 NaN (VArr [Fin 17]) (RRow (quadrants 100000));
           fix_at six_hours (Fin 30000) (VArr [Fin 17]) (RRow (quadrants 120000))].

(** Records built without [vinfo] and [radinfo]. *)
Definition track_without_vinfo : Track :=
  mkTrack [fix_at 0 (Fin 30000) (VScalar NaN) (RScalar NaN);
           fix_at six_hours (Fin 30000) (VScalar NaN) (RScalar NaN)].

(** The radial fields of a record as the decoder builds them: an array
    of thresholds and a table with one row of four quadrant radii per
    threshold. *)
Definition wf_radial (rec : CycloneRecord) : Prop :=
  exists vs,
    vinfo rec = VArr vs /\
    List.length (atleast_2d (radinfo rec)) = List.length vs /\
    Forall (fun row => List.length row = 4%nat) (atleast_2d (radinfo rec)).

(** A two-dimensional array of [n] rows and [c] columns. *)
Definition shaped (n c : nat) (a : list (list fl)) : Prop :=
  List.length a = n /\ Forall (fun row => List.length row = c) a.

(** The Track invariant: timestamps strictly ascending. *)
Definition ascending (self : Track) : Prop :=
  forall j k a b, (j < k)%nat ->
    nth_error (timeindex self) j = Some a ->
    nth_error (timeindex self) k = Some b -> (a < b)%Z.

(** The record on the other side of the bracket when the query is the
    timestamp of record [i]: the previous record, or the record itself
    for the first one. *)
Definition other_endpoint (self : Track) (i : nat) : option CycloneRecord :=
  nth_error (records self) (if Nat.eqb i 0 then 0%nat else (i - 1)%nat).

(** Stand-ins for the library solver and for the two unit conversions in
    closed statements: a solver that returns its starting point, and the
    conversions the names stand for. *)
Definition fsolve_start : (fl -> fl) -> fl -> res fl := fun _ x0 => Ok x0.
Definition pa2mb_div (x : fl) : fl := (x / Fin 100)%fl.
Definition km2m_mul (x : fl) : fl := (x * Fin 1000)%fl.

(** The default solver options of calc_rmax. *)
Definition kw_rmax_h80_default : kw_rmax_h80_t :=
  mkRmaxH80 (Fin 2.5) (Fin 0.5) "fsolve" [Fin 5000; Fin 500000] (Fin 100).
Definition kw_rmax_e11_default : kw_rmax_e11_t :=
  mkRmaxE11 "fsolve" [Fin 5000; Fin 500000] (Fin 100).

(** calc_rmax with the stand-ins and every keyword argument at its
    default except those listed. *)
Definition calc_rmax_with (self : CycloneRecord) (methods : list string)
    (use_rmax_info : bool) (vlimit : list fl) : res CycloneRecord :=
  calc_rmax fsolve_start pa2mb_div km2m_mul self kw_atmos_default
    kw_rmax_h80_default kw_rmax_e11_default methods use_rmax_info vlimit.

(** A stand-in for [gc_distance] in closed statements: the planar
    difference of the coordinates. *)
Definition planar_distance (of_x of_y origin_x origin_y : fl) : fl * fl :=
  ((of_x - origin_x)%fl, (of_y - origin_y)%fl).

(** Three fixes given out of order, with positions that differ. *)
Definition fix_moving (t : Z) (lon_ lat_ : R) : CycloneRecord :=
  mkRecord t (Fin lon_) (Fin lat_) (Fin 95000) (Fin 27) NaN
    (VArr [Fin 17]) (RTable [quadrants 100000]) NaN NaN None None None None.

Definition fixes_out_of_order : list CycloneRecord :=
  [fix_moving six_hours 89 21; fix_moving (2 * six_hours) 88 22; fix_moving 0 90 20].

(** A storm with two reported thresholds, whose radii and radii of
    maximum wind are the same on every bearing. *)
Definition storm_two_thresholds : CycloneRecord :=
  mkRecord 0 (Fin 90) (Fin 20) (Fin 95000) (Fin 27) NaN
    (VArr [Fin 17; Fin 25]) (RTable [quadrants 100000; quadrants 50000]) NaN NaN
    (Some (const_interp 30)) (Some [const_interp 19; const_interp 28])
    (Some [const_interp 100000; const_interp 50000])
    (Some [const_interp 40000; const_interp 30000]).

(** * Properties *)

(** ** Deciding comparisons *)

Lemma Rltb_true (x y : R) : x < y -> Rltb x y = true.
Proof. unfold Rltb; destruct (Rlt_dec x y); [reflexivity | contradiction]. Qed.

Lemma Rltb_false (x y : R) : ~ x < y -> Rltb x y = false.
Proof. unfold Rltb; destruct (Rlt_dec x y); [contradiction | reflexivity]. Qed.

Lemma Rleb_true (x y : R) : x <= y -> Rleb x y = true.
Proof. unfold Rleb; destruct (Rle_dec x y); [reflexivity | contradiction]. Qed.

Lemma Rleb_false (x y : R) : ~ x <= y -> Rleb x y = false.
Proof. unfold Rleb; destruct (Rle_dec x y); [contradiction | reflexivity]. Qed.

Lemma Reqb_true (x y : R) : x = y -> Reqb x y = true.
Proof. unfold Reqb; destruct (Req_dec_T x y); [reflexivity | contradiction]. Qed.

Lemma Reqb_false (x y : R) : x <> y -> Reqb x y = false.
Proof. unfold Reqb; destruct (Req_dec_T x y); [contradiction | reflexivity]. Qed.

Lemma Rltb_spec (x y : R) : Rltb x y = true <-> x < y.
Proof. unfold Rltb; destruct (Rlt_dec x y); split; intros; (easy || lra). Qed.

Lemma Rleb_spec (x y : R) : Rleb x y = true <-> x <= y.
Proof. unfold Rleb; destruct (Rle_dec x y); split; intros; (easy || lra). Qed.

Lemma Fin_eq (x y : R) : x = y -> Fin x = Fin y.
Proof. intros ->; reflexivity. Qed.

Lemma fdiv_Fin (x y : R) : y <> 0 -> (Fin x / Fin y)%fl = Fin (x / y).
Proof. intros H; unfold fdiv; rewrite (Reqb_false y 0) by exact H; reflexivity. Qed.

Lemma Int_part_2 : Int_part 2 = 2%Z.
Proof. symmetry; apply Int_part_spec; simpl; lra. Qed.

(** [x ** 2] is the square, whatever the sign of [x]. *)
Lemma fpow_2 (x : R) : (Fin x ** Fin 2)%fl = Fin (x * x).
Proof.
  assert (P : forall y, 0 < y -> Rpower y 2 = y * y).
  { intros y Hy. replace 2 with (INR 2) by (simpl; lra).
    rewrite Rpower_pow by exact Hy. simpl; ring. }
  unfold fpow. rewrite (Reqb_false 2 0) by lra.
  destruct (Rlt_dec 0 x) as [Hp | Hp].
  - rewrite (Rltb_true 0 x) by exact Hp. now rewrite P.
  - rewrite (Rltb_false 0 x) by exact Hp.
    destruct (Req_dec_T x 0) as [Hz | Hz].
    + rewrite (Reqb_true x 0) by exact Hz. rewrite (Rltb_true 0 2) by lra.
      subst x; apply Fin_eq; ring.
    + rewrite (Reqb_false x 0) by exact Hz.
      unfold odd_int, is_int. rewrite Int_part_2.
      rewrite (Reqb_true (IZR 2) 2) by reflexivity. simpl.
      rewrite P by lra. apply Fin_eq; ring.
Qed.

(** ** Holland B *)


Lemma holland_B_raw_finite (vmax pc pn rhoair : R) :
  pc < pn ->
  holland_B_raw (Fin vmax) (Fin pc) (Fin pn) (Fin rhoair)
  = Fin (vmax * vmax * rhoair * exp 1 / (pn + - pc)).
Proof.
  intros H. unfold holland_B_raw, np_e. rewrite fpow_2. simpl.
  rewrite (Reqb_false (pn + - pc) 0) by lra. reflexivity.
Qed.

Lemma holland_B_full_raw_finite (vmax rmax pc f pn rhoair : R) :
  pc < pn ->
  holland_B_full_raw (Fin vmax) (Fin rmax) (Fin pc) (Fin f) (Fin pn) (Fin rhoair)
  = Fin ((vmax * vmax * rhoair * exp 1 + f * vmax * rmax * exp 1 * rhoair)
         / (pn + - pc)).
Proof.
  intros H. unfold holland_B_full_raw, np_e. rewrite fpow_2. simpl.
  rewrite (Reqb_false (pn + - pc) 0) by lra. reflexivity.
Qed.



(** ** gen_radial_fields without a translation velocity *)

Lemma removed_translation_nan (self : CycloneRecord) (angle : fl) :
  isnan (ustorm self) || isnan (vstorm self) = true ->
  removed_translation self angle = (Fin 0, Fin 0).
Proof. intros H; unfold removed_translation; rewrite H; reflexivity. Qed.

(** With nothing removed, the sampled magnitude at any bearing is the
    speed over [swrf]. *)
Lemma radial_amp_no_translation (v fr theta : R) (swrf : fl) :
  0 <= v ->
  radial_amp (Fin v) (Fin fr) (Fin 0) (Fin 0) swrf theta = (Fin v / swrf)%fl.
Proof.
  intros Hv. unfold radial_amp.
  cbn [fmul fsub fneg fadd fsin fcos]. rewrite !fpow_2. cbn [fadd].
  set (x := v * sin theta * -1 + - (fr * 0)).
  set (y := v * cos theta + - (fr * 0)).
  assert (E : x * x + y * y = v * v).
  { subst x y.
    replace ((v * sin theta * -1 + - (fr * 0)) * (v * sin theta * -1 + - (fr * 0))
             + (v * cos theta + - (fr * 0)) * (v * cos theta + - (fr * 0)))
      with (v * v * (Rsqr (sin theta) + Rsqr (cos theta))) by (unfold Rsqr; ring).
    rewrite sin2_cos2; ring. }
  rewrite E. unfold fsqrt.
  rewrite (Rltb_false (v * v) 0) by nra.
  rewrite sqrt_square by exact Hv. reflexivity.
Qed.

Lemma radial_amps_no_translation (v fr : R) (swrf : fl) :
  0 <= v ->
  radial_amps (Fin v) (Fin fr) (Fin 0) (Fin 0) swrf = repeat (Fin v / swrf)%fl 5.
Proof.
  intros Hv. unfold radial_amps, theta_grid. cbn [map repeat].
  rewrite !radial_amp_no_translation by exact Hv. reflexivity.
Qed.

Lemma interp_linear_step (x0 x1 : R) (xs : list R) (y0 y1 : fl) (ys : list fl) (x : R) :
  interp_linear (x0 :: x1 :: xs) (y0 :: y1 :: ys) x
  = if Rleb x x1 || match xs with [] => true | _ => false end
    then ((y1 - y0) / Fin (x1 - x0) * Fin (x - x0) + y0)%fl
    else interp_linear (x1 :: xs) (y1 :: ys) x.
Proof. reflexivity. Qed.

Lemma segment_const (k x0 x1 x : R) :
  x1 - x0 <> 0 ->
  ((Fin k - Fin k) / Fin (x1 - x0) * Fin (x - x0) + Fin k)%fl = Fin k.
Proof.
  intros H. cbn [fsub fneg fadd]. rewrite fdiv_Fin by exact H.
  cbn [fmul fadd]. apply Fin_eq. field. exact H.
Qed.

(** An interpolator built on five equal samples is constant on the whole
    circle. *)
Lemma interp1d_const (k theta : R) :
  0 <= theta <= 2 * PI ->
  interp1d_call theta_grid (repeat (Fin k) 5) (Fin theta) = Ok (Fin k).
Proof.
  intros [H0 H1]. pose proof PI_RGT_0 as Hpi.
  unfold interp1d_call, theta_grid. cbn [hd last repeat].
  rewrite (Rltb_false theta 0) by lra.
  rewrite (Rltb_false (2 * PI) theta) by lra.
  f_equal.
  repeat (rewrite interp_linear_step;
          match goal with
          | |- context [Rleb ?a ?b] =>
              destruct (Rle_dec a b);
              [ rewrite (Rleb_true a b) by assumption
              | rewrite (Rleb_false a b) by assumption ]
          end;
          cbn [orb];
          try (apply segment_const; lra)).
Qed.

Lemma gen_radial_fields_fvmax (self : CycloneRecord) (fr angle sw : fl) :
  fvmax (fst (gen_radial_fields self fr angle sw))
  = Some (interp1d_call theta_grid
            (radial_amps (vmax self) fr
               (fst (removed_translation self angle))
               (snd (removed_translation self angle)) sw)).
Proof.
  unfold gen_radial_fields.
  destruct (removed_translation self angle) as [us vs].
  destruct (radial_loop fr us vs sw 0 (vinfo_1d (vinfo self))
              (mkRadial (vinfo self) (radinfo self) [] [])) as [st [e |]];
    reflexivity.
Qed.

(** C8.  When [ustorm] or [vstorm] of a Record is NaN, gen_radial_fields
    removes no translation (both removed components are zero): each of
    the five sampled magnitudes of the maximum wind is [vmax / swrf], each
    of the five sampled magnitudes of a reported threshold [w] is
    [w / swrf], and the [fvmax] interpolator the call stores in the Record
    returns [vmax / swrf] at every bearing of the circle. *)
Theorem C8_no_translation_only_swrf
    (self : CycloneRecord) (v fr s : R) (angle : fl) :
  isnan (ustorm self) || isnan (vstorm self) = true ->
  vmax self = Fin v -> 0 <= v -> s <> 0 ->
  removed_translation self angle = (Fin 0, Fin 0) /\
  radial_amps (vmax self) (Fin fr) (Fin 0) (Fin 0) (Fin s) = repeat (Fin (v / s)) 5 /\
  (forall w, 0 <= w ->
     radial_amps (Fin w) (Fin fr) (Fin 0) (Fin 0) (Fin s) = repeat (Fin (w / s)) 5) /\
  (exists f,
     fvmax (fst (gen_radial_fields self (Fin fr) angle (Fin s))) = Some f /\
     forall theta, 0 <= theta <= 2 * PI -> f (Fin theta) = Ok (Fin (v / s))).
Proof.
  intros Hnan Hv Hv0 Hs.
  assert (A : forall w, 0 <= w ->
            radial_amps (Fin w) (Fin fr) (Fin 0) (Fin 0) (Fin s)
            = repeat (Fin (w / s)) 5).
  { intros w Hw. rewrite radial_amps_no_translation by exact Hw.
    now rewrite fdiv_Fin by exact Hs. }
  repeat split.
  - now apply removed_translation_nan.
  - rewrite Hv. now apply A.
  - exact A.
  - eexists; split; [apply gen_radial_fields_fvmax |].
    intros theta Ht. rewrite (removed_translation_nan _ _ Hnan). cbn [fst snd].
    rewrite Hv, A by exact Hv0. now apply interp1d_const.
Qed.

(** ** The rmax selection *)

Section Selection.

Variable lin : list fl -> list fl -> res interp.
Variable self : CycloneRecord.

(** A string outside the three supported keywords. *)
Lemma select_rmax_unsupported (s : string) (r theta : fl) :
  existsb (String.eqb s) rmax_select_methods_available = false ->
  select_rmax lin self (SelStr s) r theta
  = (_ <- frmax_first self theta ;; Raise keyword_warning).
Proof. intros H. unfold select_rmax. rewrite H. reflexivity. Qed.

(** "nearest" when the radii at the bearing cannot be had. *)
Lemma select_rmax_nearest_fails (r theta : fl) (e : exn) :
  fradinfo_values self theta = Raise e ->
  select_rmax lin self (SelStr "nearest") r theta
  = (_ <- frmax_first self theta ;; Raise keyword_warning).
Proof.
  intros H. unfold select_rmax, select_nearest. rewrite H.
  cbn. destruct (frmax_first self theta); reflexivity.
Qed.

(** "nearest" when there is no radius to be nearest to. *)
Lemma select_rmax_nearest_empty (r theta : fl) :
  fradinfo_values self theta = Ok [] ->
  select_rmax lin self (SelStr "nearest") r theta
  = (_ <- frmax_first self theta ;; Raise keyword_warning).
Proof.
  intros H. unfold select_rmax, select_nearest. rewrite H.
  cbn. destruct (frmax_first self theta); reflexivity.
Qed.

Lemma select_rmax_linear_fails (r theta : fl) (e : exn) :
  fradinfo_values self theta = Raise e ->
  select_rmax lin self (SelStr "linear") r theta
  = (_ <- frmax_first self theta ;; Raise keyword_warning).
Proof.
  intros H. unfold select_rmax, select_linear. rewrite H.
  cbn. destruct (frmax_first self theta); reflexivity.
Qed.

(** An integer that is not an index of the interpolators. *)
Lemma select_rmax_bad_index (k : Z) (r theta : fl) (vals : list fl) (e : exn) :
  frmax_values self theta = Ok vals ->
  index_int vals k = Raise e ->
  select_rmax lin self (SelInt k) r theta
  = (_ <- frmax_first self theta ;; Raise index_warning).
Proof. intros H1 H2. unfold select_rmax. rewrite H1. cbn. rewrite H2. reflexivity. Qed.

(** An integer that is an index: the indexed value is computed and
    dropped, and [rmax] is left unassigned. *)
Lemma select_rmax_valid_index (k : Z) (r theta : fl) (vals : list fl) (x : fl) :
  frmax_values self theta = Ok vals ->
  index_int vals k = Ok x ->
  select_rmax lin self (SelInt k) r theta = Ok None.
Proof. intros H1 H2. unfold select_rmax. rewrite H1. cbn. rewrite H2. reflexivity. Qed.

Lemma select_rmax_mean (r theta : fl) (vals : list fl) :
  frmax_values self theta = Ok vals ->
  select_rmax lin self (SelStr "mean") r theta = Ok (Some (np_mean vals)).
Proof. intros H. unfold select_rmax. cbn. rewrite H. reflexivity. Qed.

Variables (kw_atmos : kw_atmos_t) (kw_h80 : kw_h80_t) (kw_e04 : kw_e04_t)
          (kw_w06 : kw_w06_t) (kw_m16 : kw_m16_t).

(** An exception of the selection ends both calls. *)
Lemma selection_raise_propagates (r theta_input vm : fl) (fv : interp)
    (methods : list string) (rmax_frac : list fl) (sel : rmax_select_t)
    (kw_corr : kw_corr_t) (e : exn) :
  fvmax self = Some fv ->
  fv (query_theta theta_input) = Ok vm ->
  select_rmax lin self sel r (query_theta theta_input) = Raise e ->
  calculate_wind lin self kw_atmos kw_h80 kw_e04 kw_w06 kw_m16
    (r, theta_input) methods rmax_frac sel kw_corr = Raise e /\
  calculate_pressure lin self kw_atmos kw_h80
    (r, theta_input) methods rmax_frac sel = Raise e.
Proof.
  intros Hf Hv Hs.
  unfold calculate_wind, calculate_pressure, wind_dispatch, pressure_dispatch.
  rewrite Hf. cbn [getitem bind]. rewrite Hv. cbn [bind]. rewrite Hs.
  split; reflexivity.
Qed.

(** With a valid integer index both calls reach the band limits with
    [rmax] unbound. *)
Lemma valid_index_unbound (r theta_input vm x : fl) (fv : interp)
    (methods : list string) (rmax_frac : list fl) (k : Z) (vals : list fl)
    (kw_corr : kw_corr_t) :
  fvmax self = Some fv ->
  fv (query_theta theta_input) = Ok vm ->
  frmax_values self (query_theta theta_input) = Ok vals ->
  index_int vals k = Ok x ->
  List.length rmax_frac = List.length methods ->
  calculate_wind lin self kw_atmos kw_h80 kw_e04 kw_w06 kw_m16
    (r, theta_input) methods rmax_frac (SelInt k) kw_corr
  = Raise (UnboundLocalError "rmax") /\
  calculate_pressure lin self kw_atmos kw_h80
    (r, theta_input) methods rmax_frac (SelInt k)
  = Raise (UnboundLocalError "rmax").
Proof.
  intros Hf Hv Hvals Hk Hlen.
  unfold calculate_wind, calculate_pressure, wind_dispatch, pressure_dispatch.
  rewrite Hf. cbn [getitem bind]. rewrite Hv. cbn [bind].
  rewrite (select_rmax_valid_index _ _ _ _ _ Hvals Hk). cbn [bind].
  rewrite Hlen, Nat.eqb_refl. split; reflexivity.
Qed.

End Selection.

(** ** Evaluating the sample storm *)

Lemma const_interp_eval (k theta : R) :
  0 <= theta <= 2 * PI -> const_interp k (Fin theta) = Ok (Fin k).
Proof. apply interp1d_const. Qed.

Lemma query_theta_nonneg (theta : R) :
  0 <= theta -> query_theta (Fin theta) = Fin theta.
Proof.
  intros H. unfold query_theta, flt. now rewrite (Rltb_false theta 0) by lra.
Qed.

Lemma zero_on_circle : 0 <= 0 <= 2 * PI.
Proof. pose proof PI_RGT_0; lra. Qed.

Lemma storm_fvmax :
  const_interp 30 (query_theta (Fin 0)) = Ok (Fin 30).
Proof.
  rewrite query_theta_nonneg by lra. apply const_interp_eval, zero_on_circle.
Qed.

Lemma storm_frmax_values (us vs : fl) :
  frmax_values (storm us vs) (query_theta (Fin 0)) = Ok [Fin 50000].
Proof.
  unfold frmax_values, storm. cbn [frmax getitem bind mapM].
  rewrite query_theta_nonneg by lra.
  rewrite const_interp_eval by apply zero_on_circle. reflexivity.
Qed.

Lemma storm_frmax_first (us vs : fl) :
  frmax_first (storm us vs) (query_theta (Fin 0)) = Ok (Fin 50000).
Proof.
  unfold frmax_first, storm. cbn [frmax getitem bind index nth_error].
  rewrite query_theta_nonneg by lra.
  apply const_interp_eval, zero_on_circle.
Qed.

Lemma without_radii_frmax_first :
  frmax_first storm_without_radii (query_theta (Fin 0)) = Ok (Fin 50000).
Proof.
  unfold frmax_first, storm_without_radii. cbn [frmax getitem bind index nth_error].
  rewrite query_theta_nonneg by lra.
  apply const_interp_eval, zero_on_circle.
Qed.

(** C1.  Evaluation at inputs on which the rmax selection fails: an
    unsupported keyword, an index out of range, and "nearest" and "linear"
    on a storm without reported radii.  In each case the first
    interpolator is evaluated, and the call then ends with the exception
    [Warning]; neither calculate_wind nor calculate_pressure returns a
    value. *)
Theorem C1_selection_failure_raises :
  wind_with (storm NaN NaN) (Fin 50000, Fin 0) ["E11"; "H80"]%string
    [Fin 2; PInf] (SelStr "median") = Raise keyword_warning /\
  pressure_with (storm NaN NaN) (Fin 50000, Fin 0) ["H80"]%string
    [PInf] (SelStr "median") = Raise keyword_warning /\
  wind_with (storm NaN NaN) (Fin 50000, Fin 0) ["E11"; "H80"]%string
    [Fin 2; PInf] (SelInt 3) = Raise index_warning /\
  pressure_with (storm NaN NaN) (Fin 50000, Fin 0) ["H80"]%string
    [PInf] (SelInt 3) = Raise index_warning /\
  wind_with storm_without_radii (Fin 50000, Fin 0) ["E11"; "H80"]%string
    [Fin 2; PInf] (SelStr "nearest") = Raise keyword_warning /\
  pressure_with storm_without_radii (Fin 50000, Fin 0) ["H80"]%string
    [PInf] (SelStr "nearest") = Raise keyword_warning /\
  wind_with storm_without_radii (Fin 50000, Fin 0) ["E11"; "H80"]%string
    [Fin 2; PInf] (SelStr "linear") = Raise keyword_warning /\
  pressure_with storm_without_radii (Fin 50000, Fin 0) ["H80"]%string
    [PInf] (SelStr "linear") = Raise keyword_warning.
Proof.
  assert (K : select_rmax interp1d_general (storm NaN NaN) (SelStr "median")
                (Fin 50000) (query_theta (Fin 0)) = Raise keyword_warning).
  { rewrite select_rmax_unsupported by reflexivity.
    now rewrite storm_frmax_first. }
  assert (I : select_rmax interp1d_general (storm NaN NaN) (SelInt 3)
                (Fin 50000) (query_theta (Fin 0)) = Raise index_warning).
  { rewrite (select_rmax_bad_index _ _ 3%Z _ _ [Fin 50000] IndexError)
      by (apply storm_frmax_values || reflexivity).
    now rewrite storm_frmax_first. }
  assert (N : select_rmax interp1d_general storm_without_radii (SelStr "nearest")
                (Fin 50000) (query_theta (Fin 0)) = Raise keyword_warning).
  { rewrite select_rmax_nearest_empty by reflexivity.
    now rewrite without_radii_frmax_first. }
  assert (L : select_rmax interp1d_general storm_without_radii (SelStr "linear")
                (Fin 50000) (query_theta (Fin 0)) = Raise keyword_warning).
  { assert (V : frmax_values storm_without_radii (query_theta (Fin 0))
                = Ok [Fin 50000]).
    { unfold frmax_values, storm_without_radii. cbn [frmax getitem bind mapM].
      rewrite query_theta_nonneg by lra.
      rewrite const_interp_eval by apply zero_on_circle. reflexivity. }
    unfold select_rmax, select_linear.
    replace (fradinfo_values storm_without_radii (query_theta (Fin 0)))
      with (@Ok (list fl) []) by reflexivity.
    rewrite V, without_radii_frmax_first. reflexivity. }
  unfold wind_with, pressure_with.
  repeat split;
    match goal with
    | H : select_rmax _ ?rec ?sel _ _ = Raise ?e |- calculate_wind _ ?rec _ _ _ _ _ _ _ _ ?sel _ = _ =>
        exact (proj1 (selection_raise_propagates interp1d_general rec
                 kw_atmos_default kw_h80_default kw_e04_default kw_w06_default
                 kw_m16_default _ _ _ (const_interp 30) _ _ sel kw_corr_default e
                 eq_refl storm_fvmax H))
    | H : select_rmax _ ?rec ?sel _ _ = Raise ?e |- calculate_pressure _ ?rec _ _ _ _ _ ?sel = _ =>
        exact (proj2 (selection_raise_propagates interp1d_general rec
                 kw_atmos_default kw_h80_default kw_e04_default kw_w06_default
                 kw_m16_default _ _ _ (const_interp 30) _ _ sel kw_corr_default e
                 eq_refl storm_fvmax H))
    end.
Qed.

(** C3.  Evaluation with a valid integer index ([rmax_select = 0] on a
    storm with one rmax interpolator): the indexed value is computed and
    dropped, [rmax] is never assigned, and both calls end with
    [UnboundLocalError] where the band limits read it; the indexed
    interpolator's value is not used for the dispatch. *)
Theorem C3_valid_index_leaves_rmax_unbound :
  wind_with (storm NaN NaN) (Fin 50000, Fin 0) ["E11"; "H80"]%string
    [Fin 2; PInf] (SelInt 0) = Raise (UnboundLocalError "rmax") /\
  pressure_with (storm NaN NaN) (Fin 50000, Fin 0) ["H80"]%string
    [PInf] (SelInt 0) = Raise (UnboundLocalError "rmax").
Proof.
  unfold wind_with, pressure_with. split.
  - exact (proj1 (valid_index_unbound interp1d_general (storm NaN NaN)
                    kw_atmos_default kw_h80_default kw_e04_default kw_w06_default
                    kw_m16_default (Fin 50000) (Fin 0) (Fin 30) (Fin 50000)
                    (const_interp 30) ["E11"; "H80"]%string [Fin 2; PInf] 0%Z
                    [Fin 50000] kw_corr_default eq_refl storm_fvmax
                    (storm_frmax_values NaN NaN) eq_refl eq_refl)).
  - exact (proj2 (valid_index_unbound interp1d_general (storm NaN NaN)
                    kw_atmos_default kw_h80_default kw_e04_default kw_w06_default
                    kw_m16_default (Fin 50000) (Fin 0) (Fin 30) (Fin 50000)
                    (const_interp 30) ["H80"]%string [PInf] 0%Z
                    [Fin 50000] kw_corr_default eq_refl storm_fvmax
                    (storm_frmax_values NaN NaN) eq_refl eq_refl)).
Qed.

(** ** The query bearing *)

Lemma query_theta_negative (theta : R) :
  theta < 0 -> query_theta (Fin theta) = Fin (2 * PI + theta).
Proof.
  intros H. unfold query_theta, flt. now rewrite (Rltb_true theta 0) by lra.
Qed.

Lemma clockwise_from_north_east : clockwise_from_north (Fin 0) = Fin (PI / 2).
Proof.
  pose proof PI_RGT_0 as Hpi.
  unfold clockwise_from_north. cbn [fmul fadd flt].
  rewrite (Rltb_false (-1 * 0 + PI / 2) 0) by lra.
  apply Fin_eq; ring.
Qed.

(** C2.  Evaluation at a query due east ([theta_input = 0]).  The bearing
    calculate_wind and calculate_pressure pass to the interpolators is 0,
    which is north in the interpolators' frame; the clockwise-from-north
    bearing of east is [PI / 2].  An interpolator that tells the quadrants
    apart is read at its northern sample, not at its eastern one.  On
    every non-negative input the bearing used is the input unchanged, and
    on every negative input it is the input plus [2 * PI]. *)
Theorem C2_bearing_is_not_converted :
  query_theta (Fin 0) = Fin 0 /\
  clockwise_from_north (Fin 0) = Fin (PI / 2) /\
  query_theta (Fin 0) <> clockwise_from_north (Fin 0) /\
  fvmax_by_quadrant (query_theta (Fin 0)) = Ok (Fin 10) /\
  fvmax_by_quadrant (clockwise_from_north (Fin 0)) = Ok (Fin 20) /\
  (forall theta, 0 <= theta -> query_theta (Fin theta) = Fin theta) /\
  (forall theta, theta < 0 -> query_theta (Fin theta) = Fin (2 * PI + theta)).
Proof.
  pose proof PI_RGT_0 as Hpi.
  rewrite clockwise_from_north_east, query_theta_nonneg by lra.
  repeat split.
  - intros E. injection E as E. lra.
  - unfold fvmax_by_quadrant, interp1d_call, theta_grid. cbn [hd last].
    rewrite (Rltb_false 0 0), (Rltb_false (2 * PI) 0) by lra.
    rewrite interp_linear_step, (Rleb_true 0 (PI / 2)) by lra.
    cbn [orb fsub fneg fadd]. rewrite fdiv_Fin by lra. cbn [fmul fadd].
    f_equal. apply Fin_eq. field. lra.
  - unfold fvmax_by_quadrant, interp1d_call, theta_grid. cbn [hd last].
    rewrite (Rltb_false (PI / 2) 0), (Rltb_false (2 * PI) (PI / 2)) by lra.
    rewrite interp_linear_step, (Rleb_true (PI / 2) (PI / 2)) by lra.
    cbn [orb fsub fneg fadd]. rewrite fdiv_Fin by lra. cbn [fmul fadd].
    f_equal. apply Fin_eq. field. lra.
  - intros theta H. now apply query_theta_nonneg.
  - intros theta H. now apply query_theta_negative.
Qed.

(** ** Radial bands *)

Lemma fmul_pos (a : fl) (rm : R) :
  0 < rm ->
  (a * Fin rm)%fl = match a with
                    | NaN => NaN
                    | Inf s => Inf s
                    | Fin x => Fin (x * rm)
                    end.
Proof.
  intros H. destruct a as [| s | x]; cbn [fmul]; try reflexivity.
  rewrite (Reqb_false rm 0), (Rltb_false rm 0) by lra.
  now rewrite xorb_false_r.
Qed.

Lemma flt_scale (a b : fl) (rm : R) :
  0 < rm -> flt a b = true -> flt (a * Fin rm) (b * Fin rm) = true.
Proof.
  intros H. rewrite !fmul_pos by exact H.
  destruct a as [| s | x], b as [| t | y]; cbn [flt]; try easy.
  intros L. apply Rltb_spec in L. apply Rltb_true. nra.
Qed.

Lemma flt_fle_false (a b r : fl) :
  flt a b = true -> fle b r = true -> flt r a = false.
Proof.
  destruct a as [| s | x], b as [| t | y], r as [| u | z]; cbn [flt fle];
    repeat match goal with c : bool |- _ => destruct c end; try easy.
  intros L1 L2. apply Rltb_spec in L1. apply Rleb_spec in L2.
  apply Rltb_false. lra.
Qed.

Lemma fle_flt_false (a r : fl) : fle a r = true -> flt r a = false.
Proof.
  destruct a as [| s | x], r as [| u | z]; cbn [flt fle];
    repeat match goal with c : bool |- _ => destruct c end; try easy.
  intros L. apply Rleb_spec in L. apply Rltb_false. lra.
Qed.

Lemma nth_error_removelast {A : Type} (l : list A) (j : nat) :
  (S j < List.length l)%nat -> nth_error (removelast l) j = nth_error l j.
Proof.
  revert j. induction l as [| a l IH]; intros j H; [cbn in H; lia |].
  destruct l as [| b l]; [cbn in H; lia |].
  change (removelast (a :: b :: l)) with (a :: removelast (b :: l)).
  destruct j as [| j]; [reflexivity |].
  cbn [nth_error]. apply IH. cbn [List.length] in *. lia.
Qed.

(** Band [i + 1] starts where band [i] ends, and band 0 starts at 0. *)
Lemma rlim_min_succ (rmax_frac : list fl) (rmax : fl) (j : nat) :
  (S j < List.length rmax_frac)%nat ->
  nth_error (rlim_min_of rmax_frac rmax) (S j)
  = nth_error (rlim_max_of rmax_frac rmax) j.
Proof.
  intros H. unfold rlim_min_of, rlim_max_of.
  rewrite !nth_error_map, nth_error_removelast by (cbn [List.length]; lia).
  reflexivity.
Qed.

Lemma rlim_min_zero (rmax_frac : list fl) (rm : R) :
  rmax_frac <> [] ->
  nth_error (rlim_min_of rmax_frac (Fin rm)) 0 = Some (Fin 0).
Proof.
  intros H. destruct rmax_frac as [| f fs]; [contradiction |].
  unfold rlim_min_of. cbn [removelast map nth_error fmul].
  destruct fs; cbn [map nth_error fmul]; f_equal; apply Fin_eq; ring.
Qed.

Lemma in_band_above (r : fl) (los his : list fl) (j : nat) (hi : fl) :
  nth_error his j = Some hi -> flt r hi = false -> in_band r los his j = false.
Proof.
  intros H1 H2. unfold in_band. rewrite H1.
  destruct (nth_error los j); [| reflexivity].
  rewrite H2. apply andb_false_r.
Qed.

(** The loop stops at the first band that contains [r]. *)
Lemma band_loop_first (model : string -> option fl) (r : fl) (los his : list fl)
    (t : nat) (m : string) (methods : list string) (k : nat) :
  (k <= t)%nat ->
  (forall j, (k <= j < t)%nat -> in_band r los his j = false) ->
  in_band r los his t = true ->
  nth_error methods (t - k) = Some m ->
  band_loop model methods k r los his = Some (t, m, model m).
Proof.
  revert k. induction methods as [| a ms IH]; intros k Hk Hbefore Hin Hm.
  - destruct (t - k)%nat; discriminate.
  - cbn [band_loop]. destruct (Nat.eq_dec k t) as [-> | Hne].
    + rewrite Hin. rewrite Nat.sub_diag in Hm. cbn in Hm. now inversion Hm.
    + rewrite (Hbefore k) by lia. apply IH; try assumption; try lia.
      * intros j Hj. apply Hbefore. lia.
      * replace (t - k)%nat with (S (t - S k)) in Hm by lia. exact Hm.
Qed.

(** With increasing fractions and a positive rmax, a radius at or above
    the lower limit of band [i] is in no earlier band. *)
Lemma not_in_earlier_band (rmax_frac : list fl) (rm : R) (r lo : fl) (i : nat) :
  0 < rm -> increasing rmax_frac ->
  (i < List.length rmax_frac)%nat ->
  nth_error (rlim_min_of rmax_frac (Fin rm)) i = Some lo ->
  fle lo r = true ->
  forall j, (j < i)%nat ->
    in_band r (rlim_min_of rmax_frac (Fin rm)) (rlim_max_of rmax_frac (Fin rm)) j
    = false.
Proof.
  intros Hrm Hinc Hi Hlo Hle j Hj.
  destruct i as [| i]; [lia |].
  rewrite rlim_min_succ in Hlo by exact Hi.
  unfold rlim_max_of in Hlo. rewrite nth_error_map in Hlo.
  destruct (nth_error rmax_frac i) as [fi |] eqn:Efi; [| discriminate].
  cbn in Hlo. inversion Hlo; subst lo; clear Hlo.
  destruct (nth_error rmax_frac j) as [fj |] eqn:Efj.
  2: { apply nth_error_None in Efj. lia. }
  apply in_band_above with (hi := (fj * Fin rm)%fl).
  - unfold rlim_max_of. rewrite nth_error_map, Efj. reflexivity.
  - destruct (Nat.eq_dec j i) as [-> | Hne].
    + rewrite Efi in Efj. inversion Efj; subst fj. now apply fle_flt_false.
    + apply flt_fle_false with (b := (fi * Fin rm)%fl); [| exact Hle].
      apply flt_scale; [exact Hrm |].
      apply (Hinc j i fj fi); [lia | assumption | assumption].
Qed.

Lemma band_loop_sound (model : string -> option fl) (r : fl) (los his : list fl)
    (methods : list string) (k t : nat) (m : string) (v : option fl) :
  band_loop model methods k r los his = Some (t, m, v) ->
  in_band r los his t = true.
Proof.
  revert k. induction methods as [| a ms IH]; intros k H; [discriminate |].
  cbn [band_loop] in H.
  destruct (in_band r los his k) eqn:E.
  - inversion H; subst; exact E.
  - eapply IH; exact H.
Qed.

Lemma band_selected (model : string -> option fl) (methods : list string)
    (rmax_frac : list fl) (rm : R) (r : fl) (i : nat) (m : string) (lo hi : fl) :
  0 < rm -> increasing rmax_frac ->
  List.length rmax_frac = List.length methods ->
  nth_error methods i = Some m ->
  nth_error (rlim_min_of rmax_frac (Fin rm)) i = Some lo ->
  nth_error (rlim_max_of rmax_frac (Fin rm)) i = Some hi ->
  fle lo r = true -> flt r hi = true ->
  band_loop model methods 0 r
    (rlim_min_of rmax_frac (Fin rm)) (rlim_max_of rmax_frac (Fin rm))
  = Some (i, m, model m).
Proof.
  intros Hrm Hinc Hlen Hm Hlo Hhi Hle Hlt.
  assert (Hi : (i < List.length rmax_frac)%nat).
  { rewrite Hlen. apply nth_error_Some. now rewrite Hm. }
  apply band_loop_first.
  - lia.
  - intros j Hj. apply (not_in_earlier_band rmax_frac rm r lo i); try assumption; lia.
  - unfold in_band, fge. now rewrite Hlo, Hhi, Hle, Hlt.
  - now rewrite Nat.sub_0_r.
Qed.

(** C4.  With a positive rmax and increasing [rmax_frac], band [i] of the
    dispatch loop of calculate_wind and of calculate_pressure is the
    right-open interval from [rlim_min[i]] (0 for the first band, the
    previous band's upper limit otherwise) to [rlim_max[i] =
    rmax_frac[i]*rmax]: a radius with [rlim_min[i] <= r < rlim_max[i]]
    runs method [i], the loop stops at [i] only for such a radius, and a
    radius equal to the upper limit of band [i] runs the next listed
    method. *)
Theorem C4_bands_right_open
    (self : CycloneRecord) (kw_atmos : kw_atmos_t) (kw_h80 : kw_h80_t)
    (kw_e04 : kw_e04_t) (kw_w06 : kw_w06_t) (kw_m16 : kw_m16_t)
    (methods : list string) (rmax_frac : list fl) (rm : R) (r vmax : fl)
    (i : nat) (m : string) (lo hi : fl) :
  0 < rm -> increasing rmax_frac ->
  List.length rmax_frac = List.length methods ->
  nth_error methods i = Some m ->
  nth_error (rlim_min_of rmax_frac (Fin rm)) i = Some lo ->
  nth_error (rlim_max_of rmax_frac (Fin rm)) i = Some hi ->
  let los := rlim_min_of rmax_frac (Fin rm) in
  let his := rlim_max_of rmax_frac (Fin rm) in
  let wind := wind_bands self kw_atmos kw_h80 kw_e04 kw_w06 kw_m16 methods 0
                r (Fin rm) vmax los his in
  let pressure := pressure_bands self kw_atmos kw_h80 methods 0
                    r (Fin rm) vmax los his in
  (i = 0%nat -> lo = Fin 0) /\
  (forall j, (S j = i)%nat -> nth_error his j = Some lo) /\
  (fle lo r = true -> flt r hi = true ->
   wind = Some (i, m, wind_model self kw_atmos kw_h80 kw_e04 kw_w06 kw_m16
                        m r (Fin rm) vmax) /\
   pressure = Some (i, m, pressure_model self kw_atmos kw_h80 m r (Fin rm) vmax)) /\
  (forall m' v, wind = Some (i, m', v) \/ pressure = Some (i, m', v) ->
   fle lo r = true /\ flt r hi = true) /\
  (forall x m', hi = Fin x -> r = Fin x -> nth_error methods (S i) = Some m' ->
   wind = Some (S i, m', wind_model self kw_atmos kw_h80 kw_e04 kw_w06 kw_m16
                           m' r (Fin rm) vmax) /\
   pressure = Some (S i, m', pressure_model self kw_atmos kw_h80 m' r (Fin rm) vmax)).
Proof.
  intros Hrm Hinc Hlen Hm Hlo Hhi los his wind pressure.
  assert (Hi : (i < List.length rmax_frac)%nat).
  { rewrite Hlen. apply nth_error_Some. now rewrite Hm. }
  split; [| split; [| split; [| split]]].
  - intros ->. subst los.
    rewrite rlim_min_zero in Hlo by (intros ->; cbn in Hi; lia).
    now inversion Hlo.
  - intros j <-. subst his. rewrite <- Hlo. symmetry. now apply rlim_min_succ.
  - intros Hle Hlt. subst wind pressure los his. unfold wind_bands, pressure_bands.
    split.
    + apply (band_selected
               (fun method => wind_model self kw_atmos kw_h80 kw_e04 kw_w06 kw_m16
                                method r (Fin rm) vmax)
               methods rmax_frac rm r i m lo hi); assumption.
    + apply (band_selected
               (fun method => pressure_model self kw_atmos kw_h80 method r (Fin rm) vmax)
               methods rmax_frac rm r i m lo hi); assumption.
  - intros m' v [H | H]; subst wind pressure; unfold wind_bands, pressure_bands in H;
      apply band_loop_sound in H; unfold in_band in H; subst los his;
      rewrite Hlo, Hhi in H; apply andb_prop in H; exact H.
  - intros x m' -> -> Hm'.
    assert (Hsi : (S i < List.length rmax_frac)%nat).
    { rewrite Hlen. apply nth_error_Some. now rewrite Hm'. }
    destruct (nth_error rmax_frac (S i)) as [f' |] eqn:Ef'.
    2: { apply nth_error_None in Ef'. lia. }
    destruct (nth_error rmax_frac i) as [f |] eqn:Ef.
    2: { apply nth_error_None in Ef. lia. }
    assert (Hhi' : nth_error (rlim_max_of rmax_frac (Fin rm)) (S i)
                   = Some (f' * Fin rm)%fl).
    { unfold rlim_max_of. now rewrite nth_error_map, Ef'. }
    assert (Hlo' : nth_error (rlim_min_of rmax_frac (Fin rm)) (S i) = Some (Fin x)).
    { now rewrite rlim_min_succ. }
    assert (Hlt : flt (Fin x) (f' * Fin rm)%fl = true).
    { unfold rlim_max_of in Hhi. rewrite nth_error_map, Ef in Hhi.
      cbn in Hhi. injection Hhi as E. rewrite <- E.
      apply flt_scale; [exact Hrm |].
      apply (Hinc i (S i) f f'); [lia | assumption | assumption]. }
    assert (Hle : fle (Fin x) (Fin x) = true).
    { cbn [fle]. apply Rleb_true. lra. }
    subst wind pressure los his. unfold wind_bands, pressure_bands.
    split.
    + apply (band_selected
               (fun method => wind_model self kw_atmos kw_h80 kw_e04 kw_w06 kw_m16
                                method (Fin x) (Fin rm) vmax)
               methods rmax_frac rm (Fin x) (S i) m' (Fin x) (f' * Fin rm)%fl);
        assumption.
    + apply (band_selected
               (fun method => pressure_model self kw_atmos kw_h80 method (Fin x)
                                (Fin rm) vmax)
               methods rmax_frac rm (Fin x) (S i) m' (Fin x) (f' * Fin rm)%fl);
        assumption.
Qed.

Lemma np_mean_single (x : R) : np_mean [Fin x] = Fin x.
Proof.
  unfold np_mean. cbn [fold_left fadd List.length INR].
  rewrite fdiv_Fin by lra. apply Fin_eq. field.
Qed.

(** The sample storm under the default "mean" selection: the dispatch runs
    with maximum wind 30 and rmax 50000. *)
Lemma storm_dispatch_mean (us vs r : fl) (methods : list string) (rmax_frac : list fl)
    (kw_atmos : kw_atmos_t) (kw_h80 : kw_h80_t) (kw_e04 : kw_e04_t)
    (kw_w06 : kw_w06_t) (kw_m16 : kw_m16_t) :
  List.length rmax_frac = List.length methods ->
  wind_dispatch interp1d_general (storm us vs) kw_atmos kw_h80 kw_e04 kw_w06 kw_m16
    (r, Fin 0) methods rmax_frac (SelStr "mean")
  = Ok (wind_bands (storm us vs) kw_atmos kw_h80 kw_e04 kw_w06 kw_m16 methods 0
          r (Fin 50000) (Fin 30)
          (rlim_min_of rmax_frac (Fin 50000)) (rlim_max_of rmax_frac (Fin 50000))) /\
  pressure_dispatch interp1d_general (storm us vs) kw_atmos kw_h80
    (r, Fin 0) methods rmax_frac (SelStr "mean")
  = Ok (pressure_bands (storm us vs) kw_atmos kw_h80 methods 0
          r (Fin 50000) (Fin 30)
          (rlim_min_of rmax_frac (Fin 50000)) (rlim_max_of rmax_frac (Fin 50000))).
Proof.
  intros Hlen. unfold wind_dispatch, pressure_dispatch.
  change (fvmax (storm us vs)) with (Some (const_interp 30)).
  cbn [getitem bind]. rewrite storm_fvmax. cbn [bind].
  rewrite (select_rmax_mean _ _ _ _ _ (storm_frmax_values us vs)).
  rewrite np_mean_single. cbn [bind]. rewrite Hlen, Nat.eqb_refl.
  split; reflexivity.
Qed.

Lemma increasing_one_inf : increasing [Fin 1; PInf].
Proof.
  intros j t a b Hjt Hj Ht.
  destruct j as [| [| j]], t as [| [| t]]; cbn in Hj, Ht; try lia;
    try discriminate; try (destruct t; discriminate); try (destruct j; discriminate).
  injection Hj as <-. injection Ht as <-. reflexivity.
Qed.

Lemma C4_bands_right_open_witness :
  0 < 50000 /\ increasing [Fin 1; PInf] /\
  wind_dispatch interp1d_general (storm NaN NaN) kw_atmos_default kw_h80_default
    kw_e04_default kw_w06_default kw_m16_default
    (Fin 50000, Fin 0) ["E11"; "H80"]%string [Fin 1; PInf] (SelStr "mean")
  = Ok (Some (1%nat, "H80"%string,
              wind_model (storm NaN NaN) kw_atmos_default kw_h80_default
                kw_e04_default kw_w06_default kw_m16_default
                "H80" (Fin 50000) (Fin 50000) (Fin 30))) /\
  wind_dispatch interp1d_general (storm NaN NaN) kw_atmos_default kw_h80_default
    kw_e04_default kw_w06_default kw_m16_default
    (Fin 49999.999, Fin 0) ["E11"; "H80"]%string [Fin 1; PInf] (SelStr "mean")
  = Ok (Some (0%nat, "E11"%string,
              wind_model (storm NaN NaN) kw_atmos_default kw_h80_default
                kw_e04_default kw_w06_default kw_m16_default
                "E11" (Fin 49999.999) (Fin 50000) (Fin 30))) /\
  pressure_dispatch interp1d_general (storm NaN NaN) kw_atmos_default kw_h80_default
    (Fin 50000, Fin 0) ["H80c"; "H80"]%string [Fin 1; PInf] (SelStr "mean")
  = Ok (Some (1%nat, "H80"%string,
              pressure_model (storm NaN NaN) kw_atmos_default kw_h80_default
                "H80" (Fin 50000) (Fin 50000) (Fin 30))) /\
  pressure_dispatch interp1d_general (storm NaN NaN) kw_atmos_default kw_h80_default
    (Fin 49999.999, Fin 0) ["H80c"; "H80"]%string [Fin 1; PInf] (SelStr "mean")
  = Ok (Some (0%nat, "H80c"%string,
              pressure_model (storm NaN NaN) kw_atmos_default kw_h80_default
                "H80c" (Fin 49999.999) (Fin 50000) (Fin 30))).
Proof.
  assert (Hpos : 0 < 50000) by lra.
  pose proof increasing_one_inf as Hinc.
  assert (E : Fin 50000 = Fin (1 * 50000)) by (apply Fin_eq; lra).
  split; [exact Hpos |]. split; [exact Hinc |].
  repeat split.
  - rewrite (proj1 (storm_dispatch_mean NaN NaN (Fin 50000) ["E11"; "H80"]%string
                      [Fin 1; PInf] kw_atmos_default kw_h80_default kw_e04_default
                      kw_w06_default kw_m16_default eq_refl)).
    f_equal.
    pose proof (proj1 (proj2 (proj2 (proj2 (proj2
             (C4_bands_right_open (storm NaN NaN) kw_atmos_default kw_h80_default
                kw_e04_default kw_w06_default kw_m16_default
                ["E11"; "H80"]%string [Fin 1; PInf] 50000 (Fin (1 * 50000)) (Fin 30)
                0 "E11"%string (Fin (0 * 50000)) (Fin (1 * 50000))
                Hpos Hinc eq_refl eq_refl eq_refl eq_refl))))
             (1 * 50000) "H80"%string eq_refl eq_refl eq_refl)) as T.
    rewrite <- E in T. exact T.
  - rewrite (proj1 (storm_dispatch_mean NaN NaN (Fin 49999.999) ["E11"; "H80"]%string
                      [Fin 1; PInf] kw_atmos_default kw_h80_default kw_e04_default
                      kw_w06_default kw_m16_default eq_refl)).
    f_equal.
    refine (proj1 (proj1 (proj2 (proj2
             (C4_bands_right_open (storm NaN NaN) kw_atmos_default kw_h80_default
                kw_e04_default kw_w06_default kw_m16_default
                ["E11"; "H80"]%string [Fin 1; PInf] 50000 (Fin 49999.999) (Fin 30)
                0 "E11"%string (Fin (0 * 50000)) (Fin (1 * 50000))
                Hpos Hinc eq_refl eq_refl eq_refl eq_refl))) _ _)).
    + cbn [fle]. apply Rleb_true. lra.
    + cbn [flt]. apply Rltb_true. lra.
  - rewrite (proj2 (storm_dispatch_mean NaN NaN (Fin 50000) ["H80c"; "H80"]%string
                      [Fin 1; PInf] kw_atmos_default kw_h80_default kw_e04_default
                      kw_w06_default kw_m16_default eq_refl)).
    f_equal.
    pose proof (proj2 (proj2 (proj2 (proj2 (proj2
             (C4_bands_right_open (storm NaN NaN) kw_atmos_default kw_h80_default
                kw_e04_default kw_w06_default kw_m16_default
                ["H80c"; "H80"]%string [Fin 1; PInf] 50000 (Fin (1 * 50000)) (Fin 30)
                0 "H80c"%string (Fin (0 * 50000)) (Fin (1 * 50000))
                Hpos Hinc eq_refl eq_refl eq_refl eq_refl))))
             (1 * 50000) "H80"%string eq_refl eq_refl eq_refl)) as T.
    rewrite <- E in T. exact T.
  - rewrite (proj2 (storm_dispatch_mean NaN NaN (Fin 49999.999) ["H80c"; "H80"]%string
                      [Fin 1; PInf] kw_atmos_default kw_h80_default kw_e04_default
                      kw_w06_default kw_m16_default eq_refl)).
    f_equal.
    refine (proj2 (proj1 (proj2 (proj2
             (C4_bands_right_open (storm NaN NaN) kw_atmos_default kw_h80_default
                kw_e04_default kw_w06_default kw_m16_default
                ["H80c"; "H80"]%string [Fin 1; PInf] 50000 (Fin 49999.999) (Fin 30)
                0 "H80c"%string (Fin (0 * 50000)) (Fin (1 * 50000))
                Hpos Hinc eq_refl eq_refl eq_refl eq_refl))) _ _)).
    + cbn [fle]. apply Rleb_true. lra.
    + cbn [flt]. apply Rltb_true. lra.
Defined.

(** ** The floor of the E04 and E11 blocks *)

Lemma floor0_Fin (x : R) :
  exists v, floor0 (Fin x) = Fin v /\ 0 <= v /\
            (x <= 0 -> v = 0) /\ (0 < x -> v = x).
Proof.
  unfold floor0, fle. destruct (Rle_dec x 0) as [H | H].
  - rewrite (Rleb_true x 0) by exact H. exists 0. repeat split; intros; lra.
  - rewrite (Rleb_false x 0) by exact H. exists x. repeat split; intros; lra.
Qed.




Lemma coriolis_Fin (la : R) :
  coriolis (Fin la) = Fin (2 * 7.292e-5 * sin (la * (PI / 180))).
Proof. reflexivity. Qed.

Lemma calc_vcirc_e11_Fin (r rm vm f : R) :
  0 < rm ->
  calc_vcirc_e11 (Fin r) (Fin rm) (Fin vm) (Fin f)
  = Fin (2 * r * (rm * vm + 0.5 * f * (rm * rm)) / (rm * rm + r * r)
         + - (r * f / 2)).
Proof.
  intros H. unfold calc_vcirc_e11. rewrite !fpow_2.
  cbn [fmul fadd]. rewrite fdiv_Fin by nra.
  cbn [fmul]. rewrite fdiv_Fin by lra. reflexivity.
Qed.





(** ** The wind at the storm centre *)

Lemma fadd_NaN_r (a : fl) : (a + NaN)%fl = NaN.
Proof. destruct a; reflexivity. Qed.

Lemma fmul_NaN_l (a : fl) : (NaN * a)%fl = NaN.
Proof. reflexivity. Qed.

(** A NaN component makes both rotated components NaN. *)
Lemma rotated_translation_nan (us vs c s : fl) :
  isnan us || isnan vs = true ->
  (us * c - vs * s)%fl = NaN /\ (us * s + vs * c)%fl = NaN.
Proof.
  intros H. destruct us as [| su | xu].
  - split; reflexivity.
  - destruct vs; try discriminate. rewrite !fmul_NaN_l. unfold fsub.
    cbn [fneg]. now rewrite !fadd_NaN_r.
  - destruct vs; try discriminate. rewrite !fmul_NaN_l. unfold fsub.
    cbn [fneg]. now rewrite !fadd_NaN_r.
Qed.

Lemma center_divisor : np_max2 (Fin 0) (Fin 1e-8) = Fin 1e-8 /\ 1e-8 <> 0.
Proof.
  split; [| lra]. unfold np_max2, flt. now rewrite (Rltb_true 0 1e-8) by lra.
Qed.

(** The two components before the translation is added: zero at the
    centre for any finite circular speed. *)
Lemma center_components (vc sw theta : R) :
  (- (Fin vc * Fin sw) * Fin 0 * fsin (Fin theta) / np_max2 (Fin 0) (Fin 1e-8))%fl
  = Fin 0 /\
  (Fin vc * Fin sw * Fin 0 * fcos (Fin theta) / np_max2 (Fin 0) (Fin 1e-8))%fl
  = Fin 0.
Proof.
  rewrite (proj1 center_divisor). cbn [fmul fneg fsin fcos].
  rewrite !fdiv_Fin by lra. split; apply Fin_eq; field.
Qed.

Lemma wind_uv_center_known (self : CycloneRecord) (fr ang sw tf vc theta us vs : R) :
  ustorm self = Fin us -> vstorm self = Fin vs ->
  wind_uv self (mkCorr (Fin fr) (Fin ang) (Fin sw) (Fin tf)) (Fin vc) (Fin 0) (Fin theta)
  = (Fin (tf * fr * (us * cos (ang * (PI / 180)) - vs * sin (ang * (PI / 180)))),
     Fin (tf * fr * (us * sin (ang * (PI / 180)) + vs * cos (ang * (PI / 180))))).
Proof.
  intros Hu Hv. unfold wind_uv. cbn [swrf angle fraction tfac].
  destruct (center_components vc sw theta) as [-> ->].
  rewrite Hu, Hv. cbn [deg2rad fmul fsin fcos fsub fneg fadd isnan negb andb].
  f_equal; apply Fin_eq; ring.
Qed.

Lemma wind_uv_center_nan (self : CycloneRecord) (fr ang sw tf vc theta : R) :
  isnan (ustorm self) || isnan (vstorm self) = true ->
  wind_uv self (mkCorr (Fin fr) (Fin ang) (Fin sw) (Fin tf)) (Fin vc) (Fin 0) (Fin theta)
  = (Fin 0, Fin 0).
Proof.
  intros H. unfold wind_uv. cbn [swrf angle fraction tfac].
  destruct (center_components vc sw theta) as [-> ->].
  destruct (rotated_translation_nan (ustorm self) (vstorm self)
              (fcos (deg2rad (Fin ang))) (fsin (deg2rad (Fin ang))) H) as [-> ->].
  cbn [isnan negb andb fmul]. f_equal; apply Fin_eq; ring.
Qed.

(** C10.  A query at the storm centre ([r = 0]) whose dispatch produced a
    finite circular speed.  The divisor of the component decomposition is
    [max(r, 1e-8) = 1e-8], not zero; the circular speed contributes
    nothing to either component; calculate_wind returns
    [tfac * fraction * (the translation rotated by angle)] when [ustorm]
    and [vstorm] are numbers, and [(0, 0)] when either is NaN. *)
Theorem C10_wind_at_center
    (lin : list fl -> list fl -> res interp) (self : CycloneRecord)
    (kw_atmos : kw_atmos_t) (kw_h80 : kw_h80_t) (kw_e04 : kw_e04_t)
    (kw_w06 : kw_w06_t) (kw_m16 : kw_m16_t)
    (methods : list string) (rmax_frac : list fl) (sel : rmax_select_t)
    (i : nat) (m : string) (theta vc fr ang sw tf : R) :
  wind_dispatch lin self kw_atmos kw_h80 kw_e04 kw_w06 kw_m16
    (Fin 0, Fin theta) methods rmax_frac sel = Ok (Some (i, m, Some (Fin vc))) ->
  let kw_corr := mkCorr (Fin fr) (Fin ang) (Fin sw) (Fin tf) in
  let a := ang * (PI / 180) in
  let wind := calculate_wind lin self kw_atmos kw_h80 kw_e04 kw_w06 kw_m16
                (Fin 0, Fin theta) methods rmax_frac sel kw_corr in
  np_max2 (Fin 0) (Fin 1e-8) = Fin 1e-8 /\ 1e-8 <> 0 /\
  (- (Fin vc * swrf kw_corr) * Fin 0 * fsin (Fin theta)
     / np_max2 (Fin 0) (Fin 1e-8))%fl = Fin 0 /\
  (Fin vc * swrf kw_corr * Fin 0 * fcos (Fin theta)
     / np_max2 (Fin 0) (Fin 1e-8))%fl = Fin 0 /\
  (forall us vs, ustorm self = Fin us -> vstorm self = Fin vs ->
     wind = Ok (Fin (tf * fr * (us * cos a - vs * sin a)),
                Fin (tf * fr * (us * sin a + vs * cos a)))) /\
  (isnan (ustorm self) || isnan (vstorm self) = true ->
     wind = Ok (Fin 0, Fin 0)).
Proof.
  intros Hd kw_corr a wind.
  split; [apply center_divisor |]. split; [apply center_divisor |].
  split; [apply center_components |]. split; [apply center_components |].
  subst wind. unfold calculate_wind. rewrite Hd. cbn [bind local fst snd].
  split.
  - intros us vs Hu Hv. subst kw_corr a. now rewrite (wind_uv_center_known _ _ _ _ _ _ _ us vs).
  - intros H. subst kw_corr. now rewrite wind_uv_center_nan.
Qed.

(** The sample storm queried at its centre with the default methods: the
    first band runs E11 and leaves a finite speed. *)
Lemma storm_center_dispatch (us vs : fl) :
  exists vc,
    wind_dispatch interp1d_general (storm us vs) kw_atmos_default kw_h80_default
      kw_e04_default kw_w06_default kw_m16_default
      (Fin 0, Fin 0) ["E11"; "H80"]%string [Fin 2; PInf] (SelStr "mean")
    = Ok (Some (0%nat, "E11"%string, Some (Fin vc))).
Proof.
  rewrite (proj1 (storm_dispatch_mean us vs (Fin 0) ["E11"; "H80"]%string
                    [Fin 2; PInf] kw_atmos_default kw_h80_default kw_e04_default
                    kw_w06_default kw_m16_default eq_refl)).
  assert (B : in_band (Fin 0) (rlim_min_of [Fin 2; PInf] (Fin 50000))
                (rlim_max_of [Fin 2; PInf] (Fin 50000)) 0 = true).
  { unfold in_band, rlim_min_of, rlim_max_of.
    cbn [removelast map nth_error fmul fge fle flt].
    rewrite (Rleb_true (0 * 50000) 0), (Rltb_true 0 (2 * 50000)) by lra.
    reflexivity. }
  unfold wind_bands. cbn [band_loop]. rewrite B.
  change (wind_model (storm us vs) kw_atmos_default kw_h80_default kw_e04_default
            kw_w06_default kw_m16_default "E11" (Fin 0) (Fin 50000) (Fin 30))
    with (Some (floor0 (calc_vcirc_e11 (Fin 0) (Fin 50000) (Fin 30)
                          (coriolis (Fin 20))))).
  rewrite coriolis_Fin, calc_vcirc_e11_Fin by lra.
  match goal with
  | |- context [floor0 (Fin ?x)] => destruct (floor0_Fin x) as (v & E & _)
  end.
  exists v. now rewrite E.
Qed.

Lemma C10_wind_at_center_witness :
  wind_with (storm (Fin 3) (Fin 4)) (Fin 0, Fin 0) ["E11"; "H80"]%string
    [Fin 2; PInf] (SelStr "mean")
  = Ok (Fin (0.88 * 0.56 * (3 * cos (19.2 * (PI / 180)) - 4 * sin (19.2 * (PI / 180)))),
        Fin (0.88 * 0.56 * (3 * sin (19.2 * (PI / 180)) + 4 * cos (19.2 * (PI / 180))))) /\
  wind_with (storm NaN NaN) (Fin 0, Fin 0) ["E11"; "H80"]%string
    [Fin 2; PInf] (SelStr "mean")
  = Ok (Fin 0, Fin 0).
Proof.
  unfold wind_with, kw_corr_default. split.
  - destruct (storm_center_dispatch (Fin 3) (Fin 4)) as (vc & Hd).
    exact (proj1 (proj2 (proj2 (proj2 (proj2
             (C10_wind_at_center interp1d_general (storm (Fin 3) (Fin 4))
                kw_atmos_default kw_h80_default kw_e04_default kw_w06_default
                kw_m16_default ["E11"; "H80"]%string [Fin 2; PInf] (SelStr "mean")
                0 "E11"%string 0 vc 0.56 19.2 0.9 0.88 Hd)))))
             3 4 eq_refl eq_refl).
  - destruct (storm_center_dispatch NaN NaN) as (vc & Hd).
    exact (proj2 (proj2 (proj2 (proj2 (proj2
             (C10_wind_at_center interp1d_general (storm NaN NaN)
                kw_atmos_default kw_h80_default kw_e04_default kw_w06_default
                kw_m16_default ["E11"; "H80"]%string [Fin 2; PInf] (SelStr "mean")
                0 "E11"%string 0 vc 0.56 19.2 0.9 0.88 Hd)))))
             eq_refl).
Defined.

Lemma C8_no_translation_only_swrf_witness :
  isnan (ustorm (storm NaN NaN)) || isnan (vstorm (storm NaN NaN)) = true /\
  0 <= 27 /\ 0.9 <> 0 /\
  radial_amps (vmax (storm NaN NaN)) (Fin 0.56) (Fin 0) (Fin 0) (Fin 0.9)
  = repeat (Fin (27 / 0.9)) 5 /\
  exists f,
    fvmax (fst (gen_radial_fields (storm NaN NaN) (Fin 0.56) (Fin 19.2) (Fin 0.9)))
    = Some f /\
    forall theta, 0 <= theta <= 2 * PI -> f (Fin theta) = Ok (Fin (27 / 0.9)).
Proof.
  assert (H1 : 0 <= 27) by lra.
  assert (H2 : 0.9 <> 0) by lra.
  destruct (C8_no_translation_only_swrf (storm NaN NaN) 27 0.56 0.9 (Fin 19.2)
              eq_refl eq_refl H1 H2) as (_ & A & _ & F).
  repeat split; try assumption.
Defined.

(** ** Track.interpolate *)

Lemma total_seconds_pos (d : Z) : (0 < d)%Z -> 0 < total_seconds d.
Proof.
  intros H. unfold total_seconds. apply IZR_lt in H.
  apply Rmult_lt_0_compat; [exact H | apply Rinv_0_lt_compat; lra].
Qed.

Lemma total_seconds_lt (d e : Z) : (d < e)%Z -> total_seconds d < total_seconds e.
Proof.
  intros H. unfold total_seconds. apply IZR_lt in H.
  apply Rmult_lt_compat_r; [apply Rinv_0_lt_compat; lra | exact H].
Qed.

(** Strictly inside the bracket both weights are strictly between 0 and 1. *)
Lemma weights_between (t0 t1 at_ : Z) :
  (t0 < at_ < t1)%Z ->
  exists w, weights 0 1 t0 t1 at_ = Ok (Fin w, Fin (1 + - w)) /\ 0 < w < 1.
Proof.
  intros [H0 H1]. unfold weights. cbn [Nat.ltb Nat.leb].
  pose proof (total_seconds_pos (t1 - at_) ltac:(lia)) as Ha.
  pose proof (total_seconds_lt (t1 - at_) (t1 - t0) ltac:(lia)) as Hb.
  rewrite Reqb_false by lra.
  exists (total_seconds (t1 - at_) / total_seconds (t1 - t0)).
  split; [reflexivity |].
  assert (Hi : 0 < / total_seconds (t1 - t0)) by (apply Rinv_0_lt_compat; lra).
  split.
  - now apply Rmult_lt_0_compat.
  - apply Rmult_lt_reg_r with (r := total_seconds (t1 - t0)); [lra |].
    unfold Rdiv. rewrite Rmult_assoc, Rinv_l by lra. lra.
Qed.

(** A query strictly between the two records of a track. *)
Lemma interpolate_two_between (left right : CycloneRecord) (at_ : Z) :
  (timestamp left < at_ < timestamp right)%Z ->
  exists w, 0 < w < 1 /\
    interpolate (mkTrack [left; right]) at_
    = (blended <- blend_radial (Fin w) (Fin (1 + - w)) left right ;;
       vr <- local "vinfo" blended ;;
       let mix (field : CycloneRecord -> fl) :=
         blend (field left) (field right) (Fin w) (Fin (1 + - w)) in
       Ok (mkRecord at_ (mix lon) (mix lat) (mix mslp) (mix vmax) (mix rmax)
             (fst vr) (snd vr) (mix ustorm) (mix vstorm) None None None None)).
Proof.
  intros [H0 H1].
  destruct (weights_between _ _ _ (conj H0 H1)) as (w & Ew & Hw).
  exists w. split; [exact Hw |].
  unfold interpolate, timeindex.
  cbn [records map List.length Nat.sub index nth_error bind].
  rewrite (proj2 (Z.leb_le at_ (timestamp right))) by lia.
  rewrite (proj2 (Z.leb_le (timestamp left) at_)) by lia.
  cbn [assert bind try_except searchsorted_left].
  rewrite (proj2 (Z.ltb_lt (timestamp left) at_)) by lia.
  rewrite (proj2 (Z.ltb_ge (timestamp right) at_)) by lia.
  cbn [Nat.eqb Nat.sub nth_error bind index].
  rewrite Ew. cbn [bind feq].
  rewrite (Reqb_false (1 + - w) 1), (Reqb_false w 1) by lra.
  reflexivity.
Qed.

Lemma fmul_NaN_r (a : fl) : (a * NaN)%fl = NaN.
Proof. destruct a; reflexivity. Qed.

(** The blending block on the two sample tracks, for any weights. *)
Lemma blend_nan_second (w_left w_right : fl) :
  blend_radial w_left w_right
    (fix_at 0 NaN (VArr [Fin 17; NaN]) (RTable [quadrants 100000; nan_row]))
    (fix_at six_hours NaN (VArr [Fin 17; NaN]) (RTable [quadrants 200000; nan_row]))
  = Ok (Some (VArr [Fin 17; NaN], RTable [nan_row; nan_row])).
Proof.
  unfold blend_radial, fix_at, quadrants, nan_row.
  cbn -[fmul fadd blend]. rewrite !fmul_NaN_r. reflexivity.
Qed.

Lemma blend_nan_first (w_left w_right : fl) :
  blend_radial w_left w_right
    (fix_at 0 NaN (VArr [NaN; Fin 17]) (RTable [nan_row; quadrants 100000]))
    (fix_at six_hours NaN (VArr [NaN; Fin 17]) (RTable [nan_row; quadrants 200000]))
  = Ok (Some (VArr [NaN; Fin 17],
              RTable [nan_row;
                      repeat (blend (Fin 100000) (Fin 200000) w_left w_right) 4])).
Proof.
  unfold blend_radial, fix_at, quadrants, nan_row.
  cbn -[fmul fadd blend]. rewrite !fmul_NaN_r. reflexivity.
Qed.

(** C7.  Evaluation at a query strictly between two records that both
    report the thresholds [17, NaN].  The NaN pair at index 1 executes
    [radinfo = radinfo*np.nan], which overwrites the whole table: the row
    of index 0, whose threshold pair is valid and which had been blended,
    is NaN in the result.  With the NaN pair listed first the valid row
    comes after the overwrite and keeps its blended radii: the outcome
    depends on the order of the thresholds. *)
Theorem C7_nan_threshold_wipes_earlier_rows :
  (exists r,
     interpolate track_nan_second three_hours = Ok r /\
     vinfo r = VArr [Fin 17; NaN] /\
     radinfo r = RTable [nan_row; nan_row]) /\
  (exists w r,
     0 < w < 1 /\
     interpolate track_nan_first three_hours = Ok r /\
     vinfo r = VArr [NaN; Fin 17] /\
     radinfo r = RTable [nan_row;
                         repeat (blend (Fin 100000) (Fin 200000)
                                   (Fin w) (Fin (1 + - w))) 4]).
Proof.
  split.
  - destruct (interpolate_two_between
                (fix_at 0 NaN (VArr [Fin 17; NaN]) (RTable [quadrants 100000; nan_row]))
                (fix_at six_hours NaN (VArr [Fin 17; NaN])
                   (RTable [quadrants 200000; nan_row]))
                three_hours) as (w & Hw & E).
    { cbn [timestamp fix_at]. unfold three_hours, six_hours. lia. }
    unfold track_nan_second. rewrite E, blend_nan_second.
    eexists. split; [reflexivity |]. split; reflexivity.
  - destruct (interpolate_two_between
                (fix_at 0 NaN (VArr [NaN; Fin 17]) (RTable [nan_row; quadrants 100000]))
                (fix_at six_hours NaN (VArr [NaN; Fin 17])
                   (RTable [nan_row; quadrants 200000]))
                three_hours) as (w & Hw & E).
    { cbn [timestamp fix_at]. unfold three_hours, six_hours. lia. }
    unfold track_nan_first. rewrite E, blend_nan_first.
    exists w. eexists. split; [exact Hw |].
    split; [reflexivity |]. split; reflexivity.
Qed.

(** *** Shapes: the blending block raises nothing on well-formed records *)

Lemma index_ok {A : Type} (l : list A) (i : nat) :
  (i < List.length l)%nat -> exists a, index l i = Ok a /\ nth_error l i = Some a.
Proof.
  intros H. unfold index. destruct (nth_error l i) as [a |] eqn:E.
  - exists a. split; reflexivity.
  - apply nth_error_None in E. lia.
Qed.

Lemma set_at_ok {A : Type} (P : A -> Prop) (l : list A) (i : nat) (x : A) :
  (i < List.length l)%nat -> Forall P l -> P x ->
  exists l', set_at l i x = Ok l' /\ List.length l' = List.length l /\ Forall P l'.
Proof.
  revert i. induction l as [| a l IH]; intros i Hi HP Hx; [cbn in Hi; lia |].
  destruct i as [| i]; cbn [set_at].
  - exists (x :: l). inversion HP; subst. repeat split; [constructor; assumption].
  - inversion HP; subst.
    destruct (IH i ltac:(cbn in Hi; lia) ltac:(assumption) Hx) as (l' & E & L & F).
    rewrite E. cbn [bind]. exists (a :: l'). repeat split.
    + cbn. now rewrite L.
    + constructor; assumption.
Qed.

Lemma shaped_row (n c : nat) (a : list (list fl)) (i : nat) (row : list fl) :
  shaped n c a -> nth_error a i = Some row -> List.length row = c.
Proof.
  intros [_ F] E. apply nth_error_In in E.
  rewrite Forall_forall in F. now apply F.
Qed.

Lemma get2_ok (n c : nat) (a : list (list fl)) (i j : nat) :
  shaped n c a -> (i < n)%nat -> (j < c)%nat -> exists x, get2 a i j = Ok x.
Proof.
  intros S Hi Hj. unfold get2.
  destruct (index_ok a i) as (row & E & N); [destruct S; lia |].
  rewrite E. cbn [bind].
  destruct (index_ok row j) as (x & Ex & _).
  { now rewrite (shaped_row n c a i row S N). }
  exists x. exact Ex.
Qed.

Lemma set2_ok (n c : nat) (a : list (list fl)) (i j : nat) (x : fl) :
  shaped n c a -> (i < n)%nat -> (j < c)%nat ->
  exists a', set2 a i j x = Ok a' /\ shaped n c a'.
Proof.
  intros S Hi Hj. unfold set2.
  destruct (index_ok a i) as (row & E & N); [destruct S; lia |].
  rewrite E. cbn [bind].
  pose proof (shaped_row n c a i row S N) as Lrow.
  destruct (set_at_ok (fun _ => True) row j x) as (row' & E' & L' & _);
    [lia | now apply Forall_forall | exact I |].
  rewrite E'. cbn [bind]. destruct S as [Ln F].
  destruct (set_at_ok (fun r => List.length r = c) a i row')
    as (a' & Ea & La & Fa); [lia | exact F | lia |].
  exists a'. split; [exact Ea | split; [lia | exact Fa]].
Qed.

Lemma zeros_shaped (n c : nat) : shaped n c (zeros n c).
Proof.
  unfold shaped, zeros. split; [apply repeat_length |].
  apply Forall_forall. intros row H. apply repeat_spec in H. subst row.
  apply repeat_length.
Qed.

Lemma ncols_shaped (n c : nat) (a : list (list fl)) :
  shaped n c a -> (0 < n)%nat -> ncols a = c.
Proof.
  intros [L F] H. destruct a as [| row a]; [cbn in L; lia |].
  cbn [ncols]. now inversion F.
Qed.

Lemma map_map_shaped (f : fl -> fl) (n c : nat) (a : list (list fl)) :
  shaped n c a -> shaped n c (map (map f) a).
Proof.
  intros [L F]. split; [now rewrite length_map |].
  apply Forall_forall. intros row H. apply in_map_iff in H.
  destruct H as (row0 & <- & H0). rewrite length_map.
  rewrite Forall_forall in F. now apply F.
Qed.

Lemma blend_cols_ok (w_left w_right : fl) (rl rr radinfo : list (list fl))
    (nl nr n c i : nat) (js : list nat) :
  shaped nl c rl -> shaped nr c rr -> shaped n c radinfo ->
  (i < nl)%nat -> (i < nr)%nat -> (i < n)%nat ->
  Forall (fun j => (j < c)%nat) js ->
  exists a', blend_cols w_left w_right rl rr i js radinfo = Ok a' /\ shaped n c a'.
Proof.
  intros Sl Sr. revert radinfo.
  induction js as [| j js IH]; intros radinfo S Hl Hr Hn Hjs; cbn [blend_cols].
  - exists radinfo. split; [reflexivity | exact S].
  - inversion Hjs as [| ? ? Hj Hjs']; subst.
    destruct (get2_ok nl c rl i j Sl Hl Hj) as (a & Ea).
    destruct (get2_ok nr c rr i j Sr Hr Hj) as (b & Eb).
    rewrite Ea, Eb. cbn [bind].
    destruct (set2_ok n c radinfo i j (blend a b w_left w_right) S Hn Hj)
      as (radinfo' & Es & S').
    rewrite Es. cbn [bind]. now apply IH.
Qed.

Lemma seq_below (c : nat) : Forall (fun j => (j < c)%nat) (seq 0 c).
Proof. apply Forall_forall. intros j H. apply in_seq in H. lia. Qed.

Lemma blend_rows_ok (w_left w_right : fl) (vl vr : list fl)
    (rl rr radinfo : list (list fl)) (nl nr n c : nat) (is_ : list nat) :
  shaped nl c rl -> shaped nr c rr -> shaped n c radinfo ->
  Forall (fun i => (i < nl)%nat /\ (i < nr)%nat /\ (i < n)%nat /\
                   (i < List.length vl)%nat /\ (i < List.length vr)%nat) is_ ->
  exists a', blend_rows w_left w_right vl vr rl rr is_ radinfo = Ok a'.
Proof.
  intros Sl Sr. revert radinfo.
  induction is_ as [| i is_ IH]; intros radinfo S His; cbn [blend_rows].
  - exists radinfo. reflexivity.
  - inversion His as [| ? ? (Hl & Hr & Hn & Hvl & Hvr) His']; subst.
    destruct (index_ok vl i Hvl) as (a & Ea & _).
    destruct (index_ok vr i Hvr) as (b & Eb & _).
    rewrite Ea, Eb. cbn [bind].
    destruct (isnan a || isnan b).
    + cbn [bind]. apply IH; [| exact His']. now apply map_map_shaped.
    + rewrite (ncols_shaped n c radinfo S) by lia.
      destruct (blend_cols_ok w_left w_right rl rr radinfo nl nr n c i (seq 0 c)
                  Sl Sr S Hl Hr Hn (seq_below c)) as (a' & E' & S').
      rewrite E'. cbn [bind]. now apply IH.
Qed.

Lemma blend_whole_row_ok (w_left w_right : fl) (a b : list fl) :
  List.length a = List.length b ->
  exists row, blend_whole_row w_left w_right a b = Ok row.
Proof.
  intros H. unfold blend_whole_row. rewrite H, Nat.eqb_refl. eexists; reflexivity.
Qed.

Lemma blend_single_ok (w_left w_right : fl) (rl rr radinfo : list (list fl))
    (nl nr c : nat) (js : list nat) :
  shaped nl c rl -> shaped nr c rr ->
  Forall (fun j => (j < nl)%nat /\ (j < nr)%nat /\ (j < List.length radinfo)%nat) js ->
  exists a', blend_single w_left w_right rl rr js radinfo = Ok a'.
Proof.
  intros Sl Sr. revert radinfo.
  induction js as [| j js IH]; intros radinfo Hjs; cbn [blend_single].
  - exists radinfo. reflexivity.
  - inversion Hjs as [| ? ? (Hl & Hr & Hn) Hjs']; subst.
    destruct (index_ok rl j) as (a & Ea & Na); [destruct Sl; lia |].
    destruct (index_ok rr j) as (b & Eb & Nb); [destruct Sr; lia |].
    rewrite Ea, Eb. cbn [bind].
    destruct (blend_whole_row_ok w_left w_right a b) as (row & Er).
    { rewrite (shaped_row _ _ _ _ _ Sl Na), (shaped_row _ _ _ _ _ Sr Nb). reflexivity. }
    rewrite Er. cbn [bind].
    destruct (set_at_ok (fun _ => True) radinfo j row Hn) as (radinfo' & Es & L & _);
      [now apply Forall_forall | exact I |].
    rewrite Es. cbn [bind]. apply IH.
    rewrite L. exact Hjs'.
Qed.

Lemma wf_radial_shaped (rec : CycloneRecord) :
  wf_radial rec ->
  exists vs, vinfo rec = VArr vs /\
             shaped (List.length vs) 4 (atleast_2d (radinfo rec)).
Proof. intros (vs & E & L & F). exists vs. split; [exact E | split; assumption]. Qed.

(** On well-formed records the blending block completes, whatever the
    weights. *)
Lemma blend_radial_ok (w_left w_right : fl) (left right : CycloneRecord) :
  wf_radial left -> wf_radial right ->
  exists b, blend_radial w_left w_right left right = Ok b.
Proof.
  intros Wl Wr.
  destruct (wf_radial_shaped left Wl) as (vl & El & Sl).
  destruct (wf_radial_shaped right Wr) as (vr & Er & Sr).
  unfold blend_radial. rewrite El, Er. cbn [vinfo_len bind].
  set (rl := atleast_2d (radinfo left)) in *.
  set (rr := atleast_2d (radinfo right)) in *.
  destruct (Nat.eqb (List.length vl) (List.length vr)) eqn:Eq; cbn [negb].
  - apply Nat.eqb_eq in Eq.
    destruct (Nat.eqb (List.length vl) 1) eqn:E1.
    + apply Nat.eqb_eq in E1.
      destruct (index_ok vl 0 ltac:(lia)) as (a & Ea & _).
      destruct (index_ok vr 0 ltac:(lia)) as (b & Eb & _).
      rewrite Ea, Eb. cbn [bind].
      destruct (isnan a || isnan b); [eexists; reflexivity |].
      destruct (feq a (Fin 0) || feq b (Fin 0)); [eexists; reflexivity |].
      destruct (blend_single_ok w_left w_right rl rr
                  (zeros (List.length rl) (ncols rl))
                  (List.length vl) (List.length vr) 4 (seq 0 (List.length rl)) Sl Sr)
        as (a' & E').
      { apply Forall_forall. intros j Hj. apply in_seq in Hj.
        destruct Sl as [Ll _]. unfold zeros. rewrite repeat_length. lia. }
      rewrite E'. eexists; reflexivity.
    + destruct (Nat.ltb 1 (List.length vl)) eqn:E2; [| eexists; reflexivity].
      apply Nat.ltb_lt in E2.
      rewrite (ncols_shaped _ _ _ Sl) by lia.
      destruct (blend_rows_ok w_left w_right vl vr rl rr
                  (zeros (List.length vl) 4)
                  (List.length vl) (List.length vr) (List.length vl) 4
                  (seq 0 (List.length vl)) Sl Sr (zeros_shaped _ _)) as (a' & E').
      { apply Forall_forall. intros j Hj. apply in_seq in Hj. lia. }
      rewrite E'. eexists; reflexivity.
  - apply Nat.eqb_neq in Eq.
    set (n := Nat.min (List.length vl) (List.length vr)).
    destruct (Nat.eq_dec n 0) as [Z | NZ].
    + rewrite Z. cbn [seq blend_rows bind]. eexists; reflexivity.
    + assert (Hl : (0 < List.length vl)%nat) by lia.
      assert (Hr : (0 < List.length vr)%nat) by lia.
      rewrite (ncols_shaped _ _ _ Sl Hl), (ncols_shaped _ _ _ Sr Hr).
      destruct (blend_rows_ok w_left w_right vl vr rl rr (zeros n 4)
                  (List.length vl) (List.length vr) n 4 (seq 0 n)
                  Sl Sr (zeros_shaped _ _)) as (a' & E').
      { apply Forall_forall. intros j Hj. apply in_seq in Hj. lia. }
      destruct (Nat.ltb (List.length vr) (List.length vl));
        rewrite E'; eexists; reflexivity.
Qed.

(** *** A query at the timestamp of a record *)

Lemma searchsorted_at (ts : list Z) (i : nat) (t : Z) :
  (forall j k a b, (j < k)%nat ->
     nth_error ts j = Some a -> nth_error ts k = Some b -> (a < b)%Z) ->
  nth_error ts i = Some t -> searchsorted_left ts t = i.
Proof.
  revert i. induction ts as [| x ts IH]; intros i H Hi.
  - destruct i; discriminate.
  - destruct i as [| i]; cbn in Hi; cbn [searchsorted_left].
    + injection Hi as ->. now rewrite Z.ltb_irrefl.
    + assert (Hx : (x < t)%Z) by (apply (H 0%nat (S i) x t); [lia | reflexivity | exact Hi]).
      rewrite (proj2 (Z.ltb_lt _ _) Hx). f_equal. apply IH; [| exact Hi].
      intros j k a b Hjk Hj Hk. apply (H (S j) (S k)); [lia | exact Hj | exact Hk].
Qed.

Lemma ascending_le (ts : list Z) (j k : nat) (a b : Z) :
  (forall j k a b, (j < k)%nat ->
     nth_error ts j = Some a -> nth_error ts k = Some b -> (a < b)%Z) ->
  (j <= k)%nat -> nth_error ts j = Some a -> nth_error ts k = Some b -> (a <= b)%Z.
Proof.
  intros H Hjk Hj Hk. destruct (Nat.eq_dec j k) as [-> | Hne].
  - rewrite Hj in Hk. injection Hk as ->. lia.
  - apply Z.lt_le_incl. apply (H j k); [lia | exact Hj | exact Hk].
Qed.

(** The range check passes at the timestamp of any record. *)
Lemma range_check_at (ts : list Z) (i : nat) (t : Z) :
  (forall j k a b, (j < k)%nat ->
     nth_error ts j = Some a -> nth_error ts k = Some b -> (a < b)%Z) ->
  nth_error ts i = Some t ->
  try_except
    (t_last <- index ts (List.length ts - 1) ;;
     _ <- assert (t <=? t_last)%Z ;;
     t_first <- index ts 0 ;;
     assert (t_first <=? t)%Z)
    (Raise (Exception "Out of interpolation range")) = Ok tt.
Proof.
  intros H Hi.
  assert (Hlen : (i < List.length ts)%nat) by (apply nth_error_Some; now rewrite Hi).
  destruct (index_ok ts (List.length ts - 1) ltac:(lia)) as (tl & El & Nl).
  destruct (index_ok ts 0 ltac:(lia)) as (tf & Ef & Nf).
  rewrite El, Ef. cbn [bind].
  rewrite (proj2 (Z.leb_le t tl)) by (apply (ascending_le ts i (List.length ts - 1)); (assumption || lia)).
  cbn [assert bind].
  rewrite (proj2 (Z.leb_le tf t)) by (apply (ascending_le ts 0 i); (assumption || lia)).
  reflexivity.
Qed.

Lemma total_seconds_zero : total_seconds 0 = 0.
Proof. unfold total_seconds. lra. Qed.

(** At the right end of a bracket the weights are 0 and 1. *)
Lemma weights_at_right (k : nat) (t0 t1 : Z) :
  (t0 < t1)%Z -> weights k (S k) t0 t1 t1 = Ok (Fin 0, Fin 1).
Proof.
  intros H. unfold weights.
  rewrite (proj2 (Nat.ltb_lt k (S k))) by lia.
  pose proof (total_seconds_pos (t1 - t0) ltac:(lia)) as Hp.
  rewrite Reqb_false by lra. rewrite Z.sub_diag, total_seconds_zero.
  cbn [fsub fneg fadd]. f_equal. f_equal; apply Fin_eq; field; lra.
Qed.

(** Weight 1 on a value and weight 0 on a finite value give the first
    value back. *)
Lemma blend_exact_right (a b : fl) :
  finite a -> blend a b (Fin 0) (Fin 1) = b.
Proof.
  intros (x & ->). unfold blend. destruct b as [| s | y]; cbn [fmul fadd].
  - reflexivity.
  - rewrite (Reqb_false 1 0), (Rltb_false 1 0) by lra. cbn [fadd].
    now rewrite xorb_false_r.
  - apply Fin_eq. ring.
Qed.

Lemma blend_exact_left (a : fl) :
  finite a -> blend a a (Fin 1) (Fin 0) = a.
Proof. intros (x & ->). unfold blend. cbn [fmul fadd]. apply Fin_eq. ring. Qed.

(** With weight 0 on a NaN the blend is NaN. *)
Lemma blend_nan_other (b : fl) : blend NaN b (Fin 0) (Fin 1) = NaN.
Proof. reflexivity. Qed.

(** The record a query at the timestamp of record [i] returns: that
    record's radial lists, and every scalar field blended with weights
    (1, 0) for the first record and (0, 1) on (previous, this) otherwise. *)
Lemma interpolate_at_record (self : Track) (i : nat) (rec other : CycloneRecord) :
  ascending self ->
  nth_error (records self) i = Some rec ->
  other_endpoint self i = Some other ->
  wf_radial rec -> wf_radial other ->
  exists w_left w_right,
    ((i = 0%nat /\ other = rec /\ w_left = Fin 1 /\ w_right = Fin 0) \/
     ((0 < i)%nat /\ w_left = Fin 0 /\ w_right = Fin 1)) /\
    let mix (field : CycloneRecord -> fl) :=
      blend (field other) (field rec) w_left w_right in
    interpolate self (timestamp rec)
    = Ok (mkRecord (timestamp rec) (mix lon) (mix lat) (mix mslp) (mix vmax)
            (mix rmax) (vinfo rec) (RTable (atleast_2d (radinfo rec)))
            (mix ustorm) (mix vstorm) None None None None).
Proof.
  intros Hasc Hrec Hother Wrec Wother.
  assert (Hti : nth_error (timeindex self) i = Some (timestamp rec)).
  { unfold timeindex. now apply map_nth_error. }
  unfold interpolate.
  rewrite (range_check_at _ i _ Hasc Hti). cbn [bind].
  rewrite (searchsorted_at _ i _ Hasc Hti).
  unfold other_endpoint in Hother.
  destruct i as [| k].
  - cbn [Nat.eqb] in *. rewrite Hrec in Hother. injection Hother as <-.
    exists (Fin 1), (Fin 0). split; [left; repeat split |].
    unfold index. rewrite Hti, Hrec. cbn [bind].
    unfold weights. cbn [Nat.ltb Nat.leb bind].
    destruct (blend_radial_ok (Fin 1) (Fin 0) rec rec Wrec Wrec) as (b & Eb).
    rewrite Eb. cbn [bind feq].
    rewrite (Reqb_false 0 1), (Reqb_true 1 1) by lra. reflexivity.
  - cbn [Nat.eqb] in *. replace (S k - 1)%nat with k in * by lia.
    exists (Fin 0), (Fin 1). split; [right; repeat split; lia |].
    assert (Htk : nth_error (timeindex self) k = Some (timestamp other)).
    { unfold timeindex. now apply map_nth_error. }
    assert (Hlt : (timestamp other < timestamp rec)%Z).
    { apply (Hasc k (S k)); [lia | exact Htk | exact Hti]. }
    unfold index. rewrite Htk, Hti, Hother, Hrec. cbn [bind].
    rewrite (weights_at_right k _ _ Hlt). cbn [bind].
    destruct (blend_radial_ok (Fin 0) (Fin 1) other rec Wother Wrec) as (b & Eb).
    rewrite Eb. cbn [bind feq].
    rewrite (Reqb_true 1 1) by lra. reflexivity.
Qed.

(** C6.  On a Track with strictly ascending timestamps, a query equal to
    the timestamp of a record whose radial fields, and those of the other
    bracket endpoint, are well formed returns a Record with that
    timestamp, that record's [vinfo] unchanged and its [radinfo] as a
    two-dimensional table (the blended lists are computed and then
    replaced); each scalar field equals that record's field whenever the
    same field of the other endpoint is a finite number. *)
Theorem C6_interpolate_at_record_timestamp
    (self : Track) (i : nat) (rec other : CycloneRecord) :
  ascending self ->
  nth_error (records self) i = Some rec ->
  other_endpoint self i = Some other ->
  wf_radial rec -> wf_radial other ->
  exists r,
    interpolate self (timestamp rec) = Ok r /\
    timestamp r = timestamp rec /\
    vinfo r = vinfo rec /\
    radinfo r = RTable (atleast_2d (radinfo rec)) /\
    (finite (lon other) -> lon r = lon rec) /\
    (finite (lat other) -> lat r = lat rec) /\
    (finite (mslp other) -> mslp r = mslp rec) /\
    (finite (vmax other) -> vmax r = vmax rec) /\
    (finite (rmax other) -> rmax r = rmax rec) /\
    (finite (ustorm other) -> ustorm r = ustorm rec) /\
    (finite (vstorm other) -> vstorm r = vstorm rec).
Proof.
  intros Hasc Hrec Hother Wrec Wother.
  destruct (interpolate_at_record self i rec other Hasc Hrec Hother Wrec Wother)
    as (w_left & w_right & Hw & E).
  cbv zeta in E. rewrite E. eexists. split; [reflexivity |].
  cbn [timestamp vinfo radinfo lon lat mslp vmax rmax ustorm vstorm].
  destruct Hw as [(_ & -> & -> & ->) | (_ & -> & ->)];
    repeat split; try reflexivity; intros F;
    (now apply blend_exact_left) || (now apply blend_exact_right).
Qed.

(** When the previous record has no [vinfo] array, [len] raises. *)
Lemma interpolate_without_vinfo (self : Track) (k : nat) (rec other : CycloneRecord)
    (x : fl) :
  ascending self ->
  nth_error (records self) (S k) = Some rec ->
  nth_error (records self) k = Some other ->
  vinfo other = VScalar x ->
  interpolate self (timestamp rec) = Raise TypeError.
Proof.
  intros Hasc Hrec Hother Hv.
  assert (Hti : nth_error (timeindex self) (S k) = Some (timestamp rec)).
  { unfold timeindex. now apply map_nth_error. }
  assert (Htk : nth_error (timeindex self) k = Some (timestamp other)).
  { unfold timeindex. now apply map_nth_error. }
  assert (Hlt : (timestamp other < timestamp rec)%Z).
  { apply (Hasc k (S k)); [lia | exact Htk | exact Hti]. }
  unfold interpolate.
  rewrite (range_check_at _ (S k) _ Hasc Hti). cbn [bind].
  rewrite (searchsorted_at _ (S k) _ Hasc Hti).
  cbn [Nat.eqb]. replace (S k - 1)%nat with k by lia.
  unfold index. rewrite Htk, Hti, Hother, Hrec. cbn [bind].
  rewrite (weights_at_right k _ _ Hlt). cbn [bind].
  unfold blend_radial. rewrite Hv. reflexivity.
Qed.

Lemma ascending_two (a b : CycloneRecord) :
  (timestamp a < timestamp b)%Z -> ascending (mkTrack [a; b]).
Proof.
  intros H j k x y Hjk Hj Hk. unfold timeindex in Hj, Hk. cbn [records map] in Hj, Hk.
  destruct j as [| [| j]], k as [| [| k]]; cbn in Hj, Hk; try lia;
    try discriminate; try (destruct k; discriminate); try (destruct j; discriminate).
  injection Hj as <-. injection Hk as <-. exact H.
Qed.

Lemma wf_radial_fix (t : Z) (rm : fl) (vs row : list fl) :
  List.length vs = 1%nat -> List.length row = 4%nat ->
  wf_radial (fix_at t rm (VArr vs) (RRow row)).
Proof.
  intros Hv Hr. exists vs. cbn [fix_at vinfo radinfo atleast_2d List.length].
  repeat split; [now rewrite Hv | constructor; [exact Hr | constructor]].
Qed.

Lemma C6_interpolate_at_record_timestamp_witness :
  exists r,
    interpolate track_rmax_missing 0 = Ok r /\
    vinfo r = VArr [Fin 17] /\
    radinfo r = RTable [quadrants 100000] /\
    lon r = Fin 90 /\ mslp r = Fin 95000.
Proof.
  destruct (C6_interpolate_at_record_timestamp track_rmax_missing 0
              (fix_at 0 NaN (VArr [Fin 17]) (RRow (quadrants 100000)))
              (fix_at 0 NaN (VArr [Fin 17]) (RRow (quadrants 100000))))
    as (r & E & _ & Hv & Hr & Hlon & _ & Hmslp & _).
  - apply ascending_two. cbn [timestamp fix_at]. unfold six_hours. lia.
  - reflexivity.
  - reflexivity.
  - apply wf_radial_fix; reflexivity.
  - apply wf_radial_fix; reflexivity.
  - exists r. split; [exact E |]. split; [exact Hv |]. split; [exact Hr |].
    split; [apply Hlon | apply Hmslp]; eexists; reflexivity.
Defined.

(** C6, counterexample.  The track has no rmax at its first fix and
    30000 m at its second; the query is the timestamp of the second fix.
    The call returns, and the rmax of the result is NaN ([NaN*0 + 30000*1]),
    not the 30000 of the record.  On a track whose records were built
    without [vinfo] the same query raises [TypeError] in the blending
    block, which is executed before its result is replaced. *)
Lemma C6_exact_query_does_not_reproduce_the_record :
  (exists r,
     interpolate track_rmax_missing six_hours = Ok r /\
     nth_error (records track_rmax_missing) 1
     = Some (fix_at six_hours (Fin 30000) (VArr [Fin 17]) (RRow (quadrants 120000))) /\
     rmax r = NaN /\
     rmax r <> rmax (fix_at six_hours (Fin 30000) (VArr [Fin 17])
                       (RRow (quadrants 120000)))) /\
  interpolate track_without_vinfo six_hours = Raise TypeError.
Proof.
  split.
  - destruct (interpolate_at_record track_rmax_missing 1
                (fix_at six_hours (Fin 30000) (VArr [Fin 17]) (RRow (quadrants 120000)))
                (fix_at 0 NaN (VArr [Fin 17]) (RRow (quadrants 100000))))
      as (w_left & w_right & Hw & E).
    + apply ascending_two. cbn [timestamp fix_at]. unfold six_hours. lia.
    + reflexivity.
    + reflexivity.
    + apply wf_radial_fix; reflexivity.
    + apply wf_radial_fix; reflexivity.
    + destruct Hw as [(Hi & _) | (_ & -> & ->)]; [discriminate |].
      cbv zeta in E. cbn [timestamp fix_at] in E. rewrite E.
      eexists. split; [reflexivity |]. split; [reflexivity |].
      cbn [rmax fix_at]. split; [reflexivity | discriminate].
  - apply (interpolate_without_vinfo track_without_vinfo 0
             (fix_at six_hours (Fin 30000) (VScalar NaN) (RScalar NaN))
             (fix_at 0 (Fin 30000) (VScalar NaN) (RScalar NaN)) NaN).
    + apply ascending_two. cbn [timestamp fix_at]. unfold six_hours. lia.
    + reflexivity.
    + reflexivity.
    + reflexivity.
Qed.

(** * Further properties of the physics library *)

Lemma Rdiv_le_bound (x d v : R) : 0 < d -> x <= v * d -> x / d <= v.
Proof.
  intros Hd H. apply Rmult_le_reg_r with (r := d); [exact Hd |].
  unfold Rdiv. rewrite Rmult_assoc, Rinv_l by lra. lra.
Qed.

Lemma Rdiv_nonneg (x d : R) : 0 <= x -> 0 < d -> 0 <= x / d.
Proof.
  intros Hx Hd. apply Rmult_le_pos; [exact Hx |].
  left. now apply Rinv_0_lt_compat.
Qed.

Lemma Rpower_one (y : R) : Rpower 1 y = 1.
Proof. unfold Rpower. rewrite ln_1, Rmult_0_r. apply exp_0. Qed.

(** [1 ** n] is 1 for every exponent, NaN and the infinities included. *)
Lemma fpow_one (n : fl) : (Fin 1 ** n)%fl = Fin 1.
Proof.
  destruct n as [| t | y]; unfold fpow.
  - now rewrite (Reqb_true 1 1).
  - now rewrite Rabs_R1, (Reqb_true 1 1).
  - destruct (Req_dec_T y 0) as [H | H].
    + now rewrite (Reqb_true y 0).
    + rewrite (Reqb_false y 0) by exact H. rewrite (Rltb_true 0 1) by lra.
      now rewrite Rpower_one.
Qed.

(** A base in [0, 1] to a positive power stays in [0, 1]. *)
Lemma fpow_unit_interval (x y : R) :
  0 <= x <= 1 -> 0 < y -> exists p, (Fin x ** Fin y)%fl = Fin p /\ 0 <= p <= 1.
Proof.
  intros [Hx0 Hx1] Hy. unfold fpow. rewrite (Reqb_false y 0) by lra.
  destruct (Rlt_dec 0 x) as [H | H].
  - rewrite (Rltb_true 0 x) by exact H. exists (Rpower x y).
    split; [reflexivity |]. unfold Rpower. split; [left; apply exp_pos |].
    destruct (Req_dec_T x 1) as [-> | Hne].
    + rewrite ln_1, Rmult_0_r, exp_0. lra.
    + assert (L : ln x < 0) by (rewrite <- ln_1; apply ln_increasing; lra).
      rewrite <- exp_0. left. apply exp_increasing. nra.
  - rewrite (Rltb_false 0 x) by exact H. rewrite (Reqb_true x 0) by lra.
    rewrite (Rltb_true 0 y) by exact Hy. exists 0. split; [reflexivity | lra].
Qed.

(** X1.  coriolis is an odd function of the latitude, vanishes at the
    equator, is bounded by [2 * 7.292e-5], and is NaN when the latitude is
    not a finite number. *)
Theorem X1_coriolis_odd_and_bounded (la : R) :
  coriolis (Fin (- la)) = fneg (coriolis (Fin la)) /\
  coriolis (Fin 0) = Fin 0 /\
  (exists f, coriolis (Fin la) = Fin f /\ Rabs f <= 2 * 7.292e-5) /\
  coriolis NaN = NaN /\ (forall s, coriolis (Inf s) = NaN).
Proof.
  rewrite !coriolis_Fin. repeat split.
  - cbn [fneg]. apply Fin_eq.
    replace (- la * (PI / 180)) with (- (la * (PI / 180))) by ring.
    rewrite sin_neg. ring.
  - apply Fin_eq. rewrite Rmult_0_l, sin_0. ring.
  - eexists. split; [reflexivity |].
    pose proof (SIN_bound (la * (PI / 180))) as [S1 S2].
    apply Rabs_le. split; nra.
  - intros s. unfold coriolis, deg2rad. cbn [fmul].
    destruct (Reqb (PI / 180) 0); reflexivity.
Qed.

Lemma calc_vcirc_j92_Fin (r rm vm : R) :
  0 < rm ->
  calc_vcirc_j92 (Fin r) (Fin rm) (Fin vm)
  = Fin (2 * r * rm * vm / (rm * rm + r * r)).
Proof.
  intros H. unfold calc_vcirc_j92. rewrite !fpow_2. cbn [fmul fadd].
  now rewrite fdiv_Fin by nra.
Qed.

(** X2.  The J92 (SLOSH) profile: for [rmax > 0] and [vmax >= 0] the
    speed at any radius [r >= 0] is a number between 0 and [vmax], and it
    is exactly [vmax] at [r = rmax]. *)
Theorem X2_j92_peaks_at_rmax (r rm vm : R) :
  0 <= r -> 0 < rm -> 0 <= vm ->
  (exists v, calc_vcirc_j92 (Fin r) (Fin rm) (Fin vm) = Fin v /\ 0 <= v <= vm) /\
  calc_vcirc_j92 (Fin rm) (Fin rm) (Fin vm) = Fin vm.
Proof.
  intros Hr Hrm Hvm. rewrite !calc_vcirc_j92_Fin by exact Hrm.
  assert (D1 : 0 < rm * rm) by (apply Rmult_lt_0_compat; lra).
  assert (D2 : 0 <= r * r) by (apply Rmult_le_pos; lra).
  split.
  - eexists. split; [reflexivity |]. split.
    + apply Rdiv_nonneg; [| lra].
      apply Rmult_le_pos; [| exact Hvm]. apply Rmult_le_pos; lra.
    + apply Rdiv_le_bound; [lra |].
      assert (A : 0 <= (rm - r) * (rm - r)) by apply Rle_0_sqr.
      assert (A' : 2 * r * rm <= rm * rm + r * r) by lra.
      replace (2 * r * rm * vm) with (vm * (2 * r * rm)) by ring.
      apply Rmult_le_compat_l; assumption.
  - apply Fin_eq. field. lra.
Qed.

Lemma X2_j92_peaks_at_rmax_witness :
  (exists v, calc_vcirc_j92 (Fin 100000) (Fin 50000) (Fin 30) = Fin v /\ 0 <= v <= 30) /\
  calc_vcirc_j92 (Fin 50000) (Fin 50000) (Fin 30) = Fin 30.
Proof.
  apply (X2_j92_peaks_at_rmax 100000 50000 30); lra.
Defined.

(** X3.  With a zero Coriolis parameter the E11 profile is the J92
    profile, as the docstring of calc_vcirc_j92 says. *)
Theorem X3_e11_without_coriolis_is_j92 (r rm vm : R) :
  0 < rm ->
  calc_vcirc_e11 (Fin r) (Fin rm) (Fin vm) (Fin 0)
  = calc_vcirc_j92 (Fin r) (Fin rm) (Fin vm).
Proof.
  intros H. rewrite calc_vcirc_e11_Fin, calc_vcirc_j92_Fin by exact H.
  apply Fin_eq. field. nra.
Qed.

Lemma X3_e11_without_coriolis_is_j92_witness :
  calc_vcirc_e11 (Fin 100000) (Fin 50000) (Fin 30) (Fin 0)
  = calc_vcirc_j92 (Fin 100000) (Fin 50000) (Fin 30).
Proof. apply (X3_e11_without_coriolis_is_j92 100000 50000 30). lra. Defined.

Lemma fsqrt_plus_zero (A : fl) (z : R) :
  z = 0 -> (fsqrt (A + Fin (z * z)) - Fin z)%fl = fsqrt A.
Proof.
  intros ->. destruct A as [| s | a]; cbn [fadd fsqrt].
  - reflexivity.
  - destruct s; reflexivity.
  - replace (a + 0 * 0) with a by ring.
    destruct (Rltb a 0); [reflexivity |]. cbn [fsub fneg fadd].
    apply Fin_eq. ring.
Qed.

(** X4.  With a zero Coriolis parameter calc_vcirc_h80 returns what the
    cyclostrophic calc_vcirc_h80c returns, for every value of the other
    arguments. *)
Theorem X4_h80_without_coriolis_is_h80c (r : R) (Rm pc B pn rhoair : fl) :
  calc_vcirc_h80 (Fin r) Rm pc B pn rhoair (Fin 0)
  = calc_vcirc_h80c (Fin r) Rm pc B pn rhoair.
Proof.
  unfold calc_vcirc_h80, calc_vcirc_h80c. cbn [fadd].
  cbn [fmul]. rewrite (fdiv_Fin _ 2) by lra. rewrite fpow_2.
  apply fsqrt_plus_zero. unfold Rdiv. ring.
Qed.

Lemma exp_nonpos_le_one (x : R) : x <= 0 -> 0 < exp x <= 1.
Proof.
  intros H. split; [apply exp_pos |].
  destruct (Req_dec_T x 0) as [-> | Hne]; [rewrite exp_0; lra |].
  rewrite <- exp_0. left. apply exp_increasing. lra.
Qed.

(** X5.  The W06 profile is continuous at [r = rmax], where it equals
    [vmax] whatever the exponent [n] and on both branches of the
    function; for [rmax > 0], [vmax >= 0], [n > 0] and [X > 0] the speed
    at any radius [r >= 0] is a number between 0 and [vmax]. *)
Theorem X5_w06_peaks_at_rmax (r rm vm n X : R) :
  0 <= r -> 0 < rm -> 0 <= vm -> 0 < n -> 0 < X ->
  (forall n' X' : fl, calc_vcirc_w06 (Fin rm) (Fin rm) (Fin vm) n' X' = Fin vm) /\
  (Fin vm * fexp (- (Fin rm - Fin rm) / Fin X))%fl = Fin vm /\
  (exists v, calc_vcirc_w06 (Fin r) (Fin rm) (Fin vm) (Fin n) (Fin X) = Fin v /\
             0 <= v <= vm).
Proof.
  intros Hr Hrm Hvm Hn HX. split; [| split].
  - intros n' X'. unfold calc_vcirc_w06. cbn [fle].
    rewrite (Rleb_true rm rm) by lra. rewrite fdiv_Fin by lra.
    replace (rm / rm) with 1 by (field; lra).
    rewrite fpow_one. cbn [fmul]. apply Fin_eq. ring.
  - cbn [fsub fneg fadd]. rewrite fdiv_Fin by lra. cbn [fexp fmul].
    apply Fin_eq. replace (- (rm + - rm) / X) with 0 by (field; lra).
    rewrite exp_0. ring.
  - unfold calc_vcirc_w06. cbn [fle].
    destruct (Rle_dec r rm) as [H | H].
    + rewrite (Rleb_true r rm) by exact H. rewrite fdiv_Fin by lra.
      destruct (fpow_unit_interval (r / rm) n) as (p & E & Hp0 & Hp1);
        [split; [apply Rdiv_nonneg; lra | apply Rdiv_le_bound; lra] | exact Hn |].
      rewrite E. cbn [fmul]. eexists. split; [reflexivity |]. split; nra.
    + rewrite (Rleb_false r rm) by exact H.
      cbn [fsub fneg fadd]. rewrite fdiv_Fin by lra. cbn [fexp fmul].
      eexists. split; [reflexivity |].
      assert (A : - (r + - rm) / X <= 0).
      { apply Rdiv_le_bound; [exact HX | lra]. }
      destruct (exp_nonpos_le_one _ A) as [E0 E1]. split; nra.
Qed.

Lemma X5_w06_peaks_at_rmax_witness :
  calc_vcirc_w06 (Fin 50000) (Fin 50000) (Fin 30) (Fin 0.79) (Fin 243000) = Fin 30 /\
  (exists v, calc_vcirc_w06 (Fin 100000) (Fin 50000) (Fin 30) (Fin 0.79) (Fin 243000)
             = Fin v /\ 0 <= v <= 30).
Proof.
  destruct (X5_w06_peaks_at_rmax 100000 50000 30 0.79 243000) as (A & _ & B);
    try lra.
  split; [apply A | exact B].
Defined.

(** X6.  The M16 profile equals [vmax] at [r = rmax] whatever the
    exponent; for [rmax > 0], [vmax >= 0] and [n > 0] the speed at any
    radius [r >= 0] is a number between 0 and [vmax]. *)
Theorem X6_m16_peaks_at_rmax (r rm vm n : R) :
  0 <= r -> 0 < rm -> 0 <= vm -> 0 < n ->
  (forall n' : fl, calc_vcirc_m16 (Fin rm) (Fin rm) (Fin vm) n' = Fin vm) /\
  (exists v, calc_vcirc_m16 (Fin r) (Fin rm) (Fin vm) (Fin n) = Fin v /\
             0 <= v <= vm).
Proof.
  intros Hr Hrm Hvm Hn.
  assert (D1 : 0 < rm * rm) by (apply Rmult_lt_0_compat; lra).
  assert (D2 : 0 <= r * r) by (apply Rmult_le_pos; lra).
  split.
  - intros n'. unfold calc_vcirc_m16. rewrite !fpow_2. cbn [fmul fadd].
    rewrite fdiv_Fin by lra.
    replace (2 * rm * rm / (rm * rm + rm * rm)) with 1 by (field; lra).
    rewrite fpow_one. cbn [fmul]. apply Fin_eq. ring.
  - unfold calc_vcirc_m16. rewrite !fpow_2. cbn [fmul fadd].
    rewrite fdiv_Fin by lra.
    destruct (fpow_unit_interval (2 * r * rm / (rm * rm + r * r)) n)
      as (p & E & Hp0 & Hp1); [| exact Hn |].
    { split.
      - apply Rdiv_nonneg; [| lra]. apply Rmult_le_pos; lra.
      - apply Rdiv_le_bound; [lra |].
        assert (A : 0 <= (rm - r) * (rm - r)) by apply Rle_0_sqr. lra. }
    rewrite E. cbn [fmul]. eexists. split; [reflexivity |]. split; nra.
Qed.

Lemma X6_m16_peaks_at_rmax_witness :
  calc_vcirc_m16 (Fin 50000) (Fin 50000) (Fin 30) (Fin 0.6) = Fin 30 /\
  (exists v, calc_vcirc_m16 (Fin 100000) (Fin 50000) (Fin 30) (Fin 0.6) = Fin v /\
             0 <= v <= 30).
Proof.
  destruct (X6_m16_peaks_at_rmax 100000 50000 30 0.6) as (A & B); try lra.
  split; [apply A | exact B].
Defined.

(** [exp(-(x ** B))] for a base [x >= 0] is a number in [0, 1]. *)
Lemma holland_decay_unit (x B : R) :
  0 <= x -> exists e, fexp (- (Fin x ** Fin B))%fl = Fin e /\ 0 <= e <= 1.
Proof.
  intros Hx. unfold fpow.
  destruct (Req_dec_T B 0) as [HB | HB].
  - rewrite (Reqb_true B 0) by exact HB. cbn [fneg fexp].
    eexists. split; [reflexivity |].
    destruct (exp_nonpos_le_one (Ropp 1)) as [E0 E1]; lra.
  - rewrite (Reqb_false B 0) by exact HB.
    destruct (Rlt_dec 0 x) as [H | H].
    + rewrite (Rltb_true 0 x) by exact H. cbn [fneg fexp].
      eexists. split; [reflexivity |].
      assert (P : 0 < Rpower x B) by (unfold Rpower; apply exp_pos).
      destruct (exp_nonpos_le_one (- Rpower x B)) as [E0 E1]; lra.
    + rewrite (Rltb_false 0 x) by exact H. rewrite (Reqb_true x 0) by lra.
      destruct (Rltb 0 B); cbn [fneg fexp PInf negb].
      * eexists. split; [reflexivity |].
        destruct (exp_nonpos_le_one (Ropp 0)) as [E0 E1]; lra.
      * exists 0. split; [reflexivity | lra].
Qed.

(** X7.  The H80 pressure profile stays between the central and the
    ambient pressure: for [r >= 0], [rmax >= 0], a numeric [B] and
    [pc <= pn], calc_mslp_h80 returns a number [p] with [pc <= p <= pn]. *)
Theorem X7_mslp_between_center_and_ambient (r rm pc B pn : R) :
  0 <= r -> 0 <= rm -> pc <= pn ->
  exists p, calc_mslp_h80 (Fin r) (Fin rm) (Fin pc) (Fin B) (Fin pn) = Fin p /\
            pc <= p <= pn.
Proof.
  intros Hr Hrm Hp. unfold calc_mslp_h80. cbn [fadd].
  rewrite fdiv_Fin by lra.
  destruct (holland_decay_unit (rm / (r + 1e-8)) B) as (e & E & He0 & He1).
  { apply Rdiv_nonneg; lra. }
  rewrite E. cbn [fsub fneg fadd fmul]. eexists. split; [reflexivity |].
  split; nra.
Qed.

Lemma X7_mslp_between_center_and_ambient_witness :
  exists p, calc_mslp_h80 (Fin 0) (Fin 50000) (Fin 95000) (Fin 1.5) (Fin 101325)
            = Fin p /\ 95000 <= p <= 101325.
Proof.
  apply (X7_mslp_between_center_and_ambient 0 50000 95000 1.5 101325); lra.
Defined.

(** * Further properties of the Record methods *)

(** ** gen_radial_fields on a table of radii *)

Lemma skipn_cons_nth {A : Type} (i : nat) :
  forall (l : list A) (a : A) (t : list A),
    skipn i l = a :: t -> nth_error l i = Some a /\ skipn (S i) l = t.
Proof.
  induction i as [| i IH]; intros l a t H.
  - destruct l; [discriminate |]. cbn in H. injection H as -> ->. split; reflexivity.
  - destruct l as [| b l]; [discriminate |]. cbn [skipn] in H.
    destruct (IH l a t H) as [H1 H2]. split; assumption.
Qed.

Lemma interp1d_five (ys : list fl) :
  List.length ys = 5%nat -> interp1d theta_grid ys = Ok (interp1d_call theta_grid ys).
Proof. intros H. unfold interp1d. rewrite H. reflexivity. Qed.

(** The threshold loop on numeric thresholds that each have a row of
    four radii: nothing is raised, [vinfo] and [radinfo] are left alone
    and each threshold adds one interpolator to each array. *)
Lemma radial_loop_table (fr us vs sw : fl) (vinfos : list fl) :
  forall (i : nat) (st : radial_state) (table rows rest : list (list fl)),
    rs_radinfo st = RTable table ->
    skipn i table = rows ++ rest ->
    List.length rows = List.length vinfos ->
    Forall (fun v => isnan v = false) vinfos ->
    Forall (fun row => List.length row = 4%nat) rows ->
    radial_loop fr us vs sw i vinfos st
    = (mkRadial (rs_vinfo st) (rs_radinfo st)
         (rs_fvinfo st
          ++ map (fun v => interp1d_call theta_grid (radial_amps v fr us vs sw)) vinfos)
         (rs_fradinfo st
          ++ map (fun row => interp1d_call theta_grid (row ++ [hd NaN row])) rows),
       None).
Proof.
  induction vinfos as [| v vinfos IH]; intros i st table rows rest Ht Hs Hl Hv Hr.
  - destruct rows; [| discriminate]. cbn [radial_loop map].
    rewrite !app_nil_r. destruct st; reflexivity.
  - destruct rows as [| row rows]; [discriminate |].
    cbn [app] in Hs. destruct (skipn_cons_nth i table row (rows ++ rest) Hs) as [Hn Hs'].
    inversion Hv as [| ? ? Hv0 Hv']; subst.
    inversion Hr as [| ? ? Hr0 Hr']; subst.
    destruct row as [| a [| b [| c [| d [| ? ?]]]]]; try discriminate.
    cbn [radial_loop]. unfold radial_step. rewrite Hv0, Ht.
    unfold radinfo_closed, index. rewrite Hn. cbn [bind nth_error].
    rewrite interp1d_five by reflexivity.
    cbn [rs_vinfo rs_radinfo rs_fvinfo rs_fradinfo].
    rewrite (IH (S i) _ table rows rest); try assumption.
    + cbn [rs_vinfo rs_radinfo rs_fvinfo rs_fradinfo map hd app].
      rewrite <- !app_assoc. reflexivity.
    + reflexivity.
    + cbn in Hl. lia.
Qed.

(** The interpolator of one closed row of quadrant radii returns the
    reported radius at each quadrant bearing and the first one again at
    [2*pi]. *)
Lemma closed_row_nodes (a b c d : R) :
  let f := interp1d_call theta_grid [Fin a; Fin b; Fin c; Fin d; Fin a] in
  f (Fin 0) = Ok (Fin a) /\ f (Fin (PI / 2)) = Ok (Fin b) /\
  f (Fin PI) = Ok (Fin c) /\ f (Fin (3 * PI / 2)) = Ok (Fin d) /\
  f (Fin (2 * PI)) = Ok (Fin a).
Proof.
  pose proof PI_RGT_0 as Hpi. cbv zeta.
  repeat split; unfold interp1d_call, theta_grid; cbn [hd last];
    match goal with
    | |- context [Rltb ?x 0] => rewrite (Rltb_false x 0) by lra
    end;
    match goal with
    | |- context [Rltb (2 * PI) ?x] => rewrite (Rltb_false (2 * PI) x) by lra
    end;
    f_equal;
    repeat (rewrite interp_linear_step;
            match goal with
            | |- context [Rleb ?x ?y] =>
                first [ rewrite (Rleb_true x y) by lra
                      | rewrite (Rleb_false x y) by lra ]
            end;
            cbn [orb]);
    cbn [fsub fneg fadd]; rewrite fdiv_Fin by lra; cbn [fmul fadd];
    apply Fin_eq; field; lra.
Qed.

(** X8.  On a Record whose thresholds are all numbers and whose [radinfo]
    is a table with one row of four radii per threshold,
    gen_radial_fields raises nothing, leaves [vinfo] and [radinfo] as
    they were, and stores one threshold interpolator and one radius
    interpolator per threshold; the radius interpolator of a row
    [a, b, c, d] returns [a], [b], [c], [d] at the bearings 0, pi/2, pi,
    3*pi/2 and [a] again at 2*pi. *)
Theorem X8_radial_fields_of_table
    (self : CycloneRecord) (fraction angle swrf : fl)
    (vs : list fl) (rows : list (list fl)) :
  vinfo self = VArr vs -> radinfo self = RTable rows ->
  List.length rows = List.length vs ->
  Forall (fun v => isnan v = false) vs ->
  Forall (fun row => List.length row = 4%nat) rows ->
  exists out ffv ffr,
    gen_radial_fields self fraction angle swrf = (out, None) /\
    vinfo out = vinfo self /\ radinfo out = radinfo self /\
    fvinfo out = Some ffv /\ fradinfo out = Some ffr /\
    List.length ffv = List.length vs /\ List.length ffr = List.length vs /\
    forall i a b c d, nth_error rows i = Some [Fin a; Fin b; Fin c; Fin d] ->
      exists f, nth_error ffr i = Some f /\
        f (Fin 0) = Ok (Fin a) /\ f (Fin (PI / 2)) = Ok (Fin b) /\
        f (Fin PI) = Ok (Fin c) /\ f (Fin (3 * PI / 2)) = Ok (Fin d) /\
        f (Fin (2 * PI)) = Ok (Fin a).
Proof.
  intros Hv Hr Hl Hn Hf. unfold gen_radial_fields.
  destruct (removed_translation self angle) as [us vt].
  rewrite Hv. cbn [vinfo_1d].
  rewrite (radial_loop_table fraction us vt swrf vs 0 _ rows rows []);
    try assumption; try reflexivity.
  2: { cbn [skipn]. now rewrite app_nil_r. }
  cbn [rs_vinfo rs_radinfo rs_fvinfo rs_fradinfo app].
  do 3 eexists. split; [reflexivity |].
  cbn [vinfo radinfo fvinfo fradinfo].
  repeat split; try (symmetry; assumption); try (rewrite length_map; congruence).
  intros i a b c d Hi. eexists. split.
  - rewrite nth_error_map, Hi. reflexivity.
  - cbn [hd app]. apply closed_row_nodes.
Qed.

Lemma X8_radial_fields_of_table_witness :
  exists out ffv ffr,
    gen_radial_fields (storm (Fin 3) (Fin 4)) (Fin 0.56) (Fin 19.2) (Fin 0.9)
    = (out, None) /\
    vinfo out = vinfo (storm (Fin 3) (Fin 4)) /\
    radinfo out = radinfo (storm (Fin 3) (Fin 4)) /\
    fvinfo out = Some ffv /\ fradinfo out = Some ffr /\
    List.length ffv = 1%nat /\ List.length ffr = 1%nat /\
    forall i a b c d,
      nth_error [[Fin 50000; Fin 60000; Fin 55000; Fin 45000]] i
      = Some [Fin a; Fin b; Fin c; Fin d] ->
      exists f, nth_error ffr i = Some f /\
        f (Fin 0) = Ok (Fin a) /\ f (Fin (PI / 2)) = Ok (Fin b) /\
        f (Fin PI) = Ok (Fin c) /\ f (Fin (3 * PI / 2)) = Ok (Fin d) /\
        f (Fin (2 * PI)) = Ok (Fin a).
Proof.
  apply (X8_radial_fields_of_table (storm (Fin 3) (Fin 4)) (Fin 0.56) (Fin 19.2)
           (Fin 0.9) [Fin 17] [[Fin 50000; Fin 60000; Fin 55000; Fin 45000]]);
    try reflexivity; repeat constructor.
Defined.

(** X9.  gen_radial_fields needs a table of radii.  With a numeric first
    threshold, a one-dimensional [radinfo] ends the call with IndexError
    and a scalar one with TypeError; a missing (NaN) threshold followed
    by a numeric one ends it with TypeError whatever [radinfo] was.  In
    each case [fvmax] has already been stored while [fvinfo] and
    [fradinfo] are as before the call. *)
Theorem X9_radial_fields_need_a_table
    (self : CycloneRecord) (fraction angle swrf : fl) (v w : fl) (rest : list fl) :
  isnan v = false ->
  let call := gen_radial_fields self fraction angle swrf in
  (vinfo self = VArr (v :: rest) ->
   (forall row, radinfo self = RRow row -> snd call = Some IndexError) /\
   (forall x, radinfo self = RScalar x -> snd call = Some TypeError)) /\
  (vinfo self = VArr (w :: v :: rest) -> isnan w = true ->
   snd call = Some TypeError) /\
  (snd call <> None ->
   fvmax (fst call) <> None /\
   fvinfo (fst call) = fvinfo self /\ fradinfo (fst call) = fradinfo self).
Proof.
  intros Hv call. subst call. unfold gen_radial_fields.
  destruct (removed_translation self angle) as [us vt].
  split; [| split].
  - intros E. rewrite E. cbn [vinfo_1d radial_loop]. unfold radial_step.
    rewrite Hv. cbn [rs_radinfo]. split.
    + intros row ->. cbn [radinfo_closed]. unfold index.
      destruct (nth_error row 0); reflexivity.
    + intros x ->. reflexivity.
  - intros E Hw. rewrite E. cbn [vinfo_1d radial_loop]. unfold radial_step.
    rewrite Hw, Hv. reflexivity.
  - destruct (radial_loop fraction us vt swrf 0 (vinfo_1d (vinfo self))
                (mkRadial (vinfo self) (radinfo self) [] [])) as [st [e |]];
      cbn [fst snd fvmax fvinfo fradinfo].
    + intros _. repeat split. discriminate.
    + intros H. now contradiction H.
Qed.

Lemma X9_radial_fields_need_a_table_witness :
  snd (gen_radial_fields (fix_at 0 NaN (VArr [Fin 17]) (RRow (quadrants 100000)))
         (Fin 0.56) (Fin 19.2) (Fin 0.9)) = Some IndexError.
Proof.
  apply (proj1 (proj1 (X9_radial_fields_need_a_table
                         (fix_at 0 NaN (VArr [Fin 17]) (RRow (quadrants 100000)))
                         (Fin 0.56) (Fin 19.2) (Fin 0.9) (Fin 17) NaN []
                         eq_refl) eq_refl) (quadrants 100000)).
  reflexivity.
Defined.

(** ** The wind vector *)

(** X10.  Away from the centre ([r >= 1e-8]) the wind vector does not
    depend on [r]: it is the tangential vector of length
    [vcirc*swrf] at bearing [theta], plus [fraction] times the
    translation rotated by [angle] when both of its components are
    known, the whole multiplied by [tfac].  Without a known translation
    the vector has no radial component and its length is
    [|vcirc*swrf*tfac|]. *)
Theorem X10_wind_is_tangential_plus_translation
    (self : CycloneRecord) (fr ang sw tf vc r theta : R) :
  1e-8 <= r ->
  let kw_corr := mkCorr (Fin fr) (Fin ang) (Fin sw) (Fin tf) in
  let a := ang * (PI / 180) in
  let s := vc * sw in
  (forall us vs, ustorm self = Fin us -> vstorm self = Fin vs ->
     wind_uv self kw_corr (Fin vc) (Fin r) (Fin theta)
     = (Fin ((- s * sin theta + fr * (us * cos a - vs * sin a)) * tf),
        Fin ((s * cos theta + fr * (us * sin a + vs * cos a)) * tf))) /\
  (isnan (ustorm self) || isnan (vstorm self) = true ->
     exists u v,
       wind_uv self kw_corr (Fin vc) (Fin r) (Fin theta) = (Fin u, Fin v) /\
       u = - s * sin theta * tf /\ v = s * cos theta * tf /\
       u * cos theta + v * sin theta = 0 /\
       u * u + v * v = (s * tf) * (s * tf)).
Proof.
  intros Hr kw_corr a s. subst kw_corr a s.
  assert (M : np_max2 (Fin r) (Fin 1e-8) = Fin r).
  { unfold np_max2, flt. now rewrite (Rltb_false r 1e-8) by lra. }
  split.
  - intros us vs Hu Hv. unfold wind_uv. cbn [swrf angle fraction tfac].
    rewrite M, Hu, Hv. cbn [deg2rad fmul fsin fcos fsub fneg fadd].
    rewrite !fdiv_Fin by lra. cbn [isnan negb andb fadd fmul].
    f_equal; apply Fin_eq; field; lra.
  - intros H. unfold wind_uv. cbn [swrf angle fraction tfac].
    destruct (rotated_translation_nan (ustorm self) (vstorm self)
                (fcos (deg2rad (Fin ang))) (fsin (deg2rad (Fin ang))) H) as [-> ->].
    rewrite M. cbn [fmul fsin fcos fneg]. rewrite !fdiv_Fin by lra.
    cbn [isnan negb andb fmul].
    exists (- (vc * sw) * sin theta * tf), (vc * sw * cos theta * tf).
    split; [f_equal; apply Fin_eq; field; lra |].
    split; [reflexivity |]. split; [reflexivity |].
    split; [ring |].
    pose proof (sin2_cos2 theta) as T. unfold Rsqr in T.
    replace (- (vc * sw) * sin theta * tf * (- (vc * sw) * sin theta * tf)
             + vc * sw * cos theta * tf * (vc * sw * cos theta * tf))
      with ((vc * sw * tf) * (vc * sw * tf)
            * (sin theta * sin theta + cos theta * cos theta)) by ring.
    rewrite T. ring.
Qed.

Lemma X10_wind_is_tangential_plus_translation_witness :
  exists u v,
    wind_uv (storm NaN NaN) kw_corr_default (Fin 30) (Fin 50000) (Fin 0)
    = (Fin u, Fin v) /\
    u = - (30 * 0.9) * sin 0 * 0.88 /\ v = 30 * 0.9 * cos 0 * 0.88 /\
    u * cos 0 + v * sin 0 = 0 /\
    u * u + v * v = (30 * 0.9 * 0.88) * (30 * 0.9 * 0.88).
Proof.
  apply (X10_wind_is_tangential_plus_translation (storm NaN NaN)
           0.56 19.2 0.9 0.88 30 50000 0); [lra | reflexivity].
Defined.

(** ** The pressure models *)

Lemma clamp_B_finite (B bmax bmin : R) :
  exists B', clamp_B (Fin B) (Fin bmax) (Fin bmin) = Fin B'.
Proof.
  unfold clamp_B, fgt, flt.
  destruct (Rltb B bmin); [eexists; reflexivity |].
  destruct (Rltb bmax B); eexists; reflexivity.
Qed.

Lemma calc_mslp_h80_range (r rm pc B pn : R) :
  0 <= r -> 0 <= rm -> pc <= pn ->
  exists p, calc_mslp_h80 (Fin r) (Fin rm) (Fin pc) (Fin B) (Fin pn) = Fin p /\
            pc <= p <= pn.
Proof.
  intros Hr Hrm Hp. unfold calc_mslp_h80. cbn [fadd].
  rewrite fdiv_Fin by lra.
  destruct (holland_decay_unit (rm / (r + 1e-8)) B) as (e & E & He0 & He1).
  { apply Rdiv_nonneg; lra. }
  rewrite E. cbn [fsub fneg fadd fmul]. eexists. split; [reflexivity |].
  split; nra.
Qed.

(** X11.  Both pressure methods of calculate_pressure, "H80" (Holland B
    from the full expression) and "H80c" (from the simplified one),
    produce a number between the central pressure of the Record and the
    ambient pressure [pn], for any finite query radius [r >= 0], radius
    of maximum wind [rmax >= 0] and maximum wind, when the central
    pressure is below [pn]. *)
Theorem X11_pressure_between_center_and_ambient
    (self : CycloneRecord) (kw_atmos : kw_atmos_t) (kw_h80 : kw_h80_t)
    (method : string) (r rm vm pc la p_n rho bmx bmn : R) :
  mslp self = Fin pc -> lat self = Fin la ->
  pn kw_atmos = Fin p_n -> rhoair kw_atmos = Fin rho ->
  bmax kw_h80 = Fin bmx -> bmin kw_h80 = Fin bmn ->
  pc < p_n -> 0 <= r -> 0 <= rm ->
  method = "H80"%string \/ method = "H80c"%string ->
  exists p,
    pressure_model self kw_atmos kw_h80 method (Fin r) (Fin rm) (Fin vm)
    = Some (Fin p) /\ pc <= p <= p_n.
Proof.
  intros Hm Hl Hpn Hrho Hbx Hbn Hlt Hr Hrm [-> | ->]; unfold pressure_model;
    rewrite Hm, Hl, Hpn, Hrho, Hbx, Hbn.
  - rewrite String.eqb_refl. unfold calc_holland_B_full.
    rewrite coriolis_Fin, holland_B_full_raw_finite by exact Hlt.
    match goal with
    | |- context [clamp_B (Fin ?B) _ _] =>
        destruct (clamp_B_finite B bmx bmn) as (B' & ->)
    end.
    destruct (calc_mslp_h80_range r rm pc B' p_n) as (p & -> & Hp); try lra.
    exists p. split; [reflexivity | exact Hp].
  - change (String.eqb "H80c" "H80") with false. rewrite String.eqb_refl.
    unfold calc_holland_B. rewrite holland_B_raw_finite by exact Hlt.
    match goal with
    | |- context [clamp_B (Fin ?B) _ _] =>
        destruct (clamp_B_finite B bmx bmn) as (B' & ->)
    end.
    destruct (calc_mslp_h80_range r rm pc B' p_n) as (p & -> & Hp); try lra.
    exists p. split; [reflexivity | exact Hp].
Qed.

Lemma X11_pressure_between_center_and_ambient_witness :
  exists p,
    pressure_model (storm NaN NaN) kw_atmos_default kw_h80_default "H80"
      (Fin 100000) (Fin 50000) (Fin 30) = Some (Fin p) /\
    95000 <= p <= 101325.
Proof.
  apply (X11_pressure_between_center_and_ambient (storm NaN NaN) kw_atmos_default
           kw_h80_default "H80" 100000 50000 30 95000 20 101325 1.15 2.5 0.5);
    try reflexivity; try lra.
  left. reflexivity.
Defined.

(** ** Queries that no band or no model answers *)

Lemma band_loop_none (model : string -> option fl) (r : fl) (los his : list fl)
    (methods : list string) :
  (forall i, in_band r los his i = false) ->
  forall k, band_loop model methods k r los his = None.
Proof.
  intros H. induction methods as [| m methods IH]; intros k; cbn [band_loop].
  - reflexivity.
  - rewrite H. apply IH.
Qed.

Lemma outside_every_band (r : fl) (los his : list fl) :
  Forall (fun hi => flt r hi = false) his ->
  forall i, in_band r los his i = false.
Proof.
  intros H i. destruct (nth_error his i) as [hi |] eqn:E.
  - apply (in_band_above r los his i hi E).
    rewrite Forall_forall in H. apply H. eapply nth_error_In. exact E.
  - unfold in_band. rewrite E. destruct (nth_error los i); reflexivity.
Qed.

(** X12.  When the query radius is below no upper band limit
    [rmax_frac[i]*rmax] (a radius at or beyond the last limit when that
    limit is finite, or a NaN radius), the band loop assigns nothing:
    calculate_wind ends with UnboundLocalError on [vcirc] and
    calculate_pressure with UnboundLocalError on [mslp]. *)
Theorem X12_outside_every_band
    (lin : list fl -> list fl -> res interp) (self : CycloneRecord)
    (kw_atmos : kw_atmos_t) (kw_h80 : kw_h80_t) (kw_e04 : kw_e04_t)
    (kw_w06 : kw_w06_t) (kw_m16 : kw_m16_t) (kw_corr : kw_corr_t)
    (r theta_input vm rm : fl) (fv : interp)
    (methods : list string) (rmax_frac : list fl) (sel : rmax_select_t) :
  fvmax self = Some fv ->
  fv (query_theta theta_input) = Ok vm ->
  select_rmax lin self sel r (query_theta theta_input) = Ok (Some rm) ->
  List.length rmax_frac = List.length methods ->
  Forall (fun hi => flt r hi = false) (rlim_max_of rmax_frac rm) ->
  calculate_wind lin self kw_atmos kw_h80 kw_e04 kw_w06 kw_m16
    (r, theta_input) methods rmax_frac sel kw_corr
  = Raise (UnboundLocalError "vcirc") /\
  calculate_pressure lin self kw_atmos kw_h80
    (r, theta_input) methods rmax_frac sel
  = Raise (UnboundLocalError "mslp").
Proof.
  intros Hf Hv Hs Hl Hout.
  pose proof (outside_every_band r (rlim_min_of rmax_frac rm) _ Hout) as Hb.
  unfold calculate_wind, calculate_pressure, wind_dispatch, pressure_dispatch,
    wind_bands, pressure_bands.
  rewrite Hf. cbn [getitem bind]. rewrite Hv. cbn [bind]. rewrite Hs. cbn [bind].
  rewrite Hl, Nat.eqb_refl. cbn [bind local].
  rewrite !(band_loop_none _ r _ _ methods Hb). split; reflexivity.
Qed.

Lemma X12_outside_every_band_witness :
  wind_with (storm (Fin 3) (Fin 4)) (Fin 100000, Fin 0) ["E11"; "H80"]%string
    [Fin 1; Fin 2] (SelStr "mean") = Raise (UnboundLocalError "vcirc") /\
  pressure_with (storm (Fin 3) (Fin 4)) (Fin 100000, Fin 0) ["E11"; "H80"]%string
    [Fin 1; Fin 2] (SelStr "mean") = Raise (UnboundLocalError "mslp").
Proof.
  unfold wind_with, pressure_with.
  apply (X12_outside_every_band interp1d_general (storm (Fin 3) (Fin 4))
           kw_atmos_default kw_h80_default kw_e04_default kw_w06_default
           kw_m16_default kw_corr_default (Fin 100000) (Fin 0) (Fin 30) (Fin 50000)
           (const_interp 30)).
  - reflexivity.
  - apply storm_fvmax.
  - rewrite (select_rmax_mean _ _ _ _ _ (storm_frmax_values (Fin 3) (Fin 4))).
    now rewrite np_mean_single.
  - reflexivity.
  - unfold rlim_max_of. cbn [map fmul flt].
    repeat constructor; apply Rltb_false; lra.
Defined.

Lemma eqb_not_in (m x : string) (l : list string) :
  ~ In m (x :: l) -> String.eqb m x = false /\ ~ In m l.
Proof.
  intros H. split.
  - apply String.eqb_neq. intros ->. apply H. now left.
  - intros I. apply H. now right.
Qed.

(** X13.  A band whose listed method the function does not implement
    answers with an exception, not with a value: when the query radius
    lies in band [i], calculate_wind ends with UnboundLocalError on
    [vcirc] if [methods[i]] is none of H80, H80c, J92, W06, E04, E11 and
    M16, and calculate_pressure ends with UnboundLocalError on [mslp] if
    [methods[i]] is neither H80 nor H80c (so for every wind-only
    profile). *)
Theorem X13_unimplemented_method_in_band
    (lin : list fl -> list fl -> res interp) (self : CycloneRecord)
    (kw_atmos : kw_atmos_t) (kw_h80 : kw_h80_t) (kw_e04 : kw_e04_t)
    (kw_w06 : kw_w06_t) (kw_m16 : kw_m16_t) (kw_corr : kw_corr_t)
    (r theta_input vm : fl) (rm : R) (fv : interp)
    (methods : list string) (rmax_frac : list fl) (sel : rmax_select_t)
    (i : nat) (m : string) (lo hi : fl) :
  fvmax self = Some fv ->
  fv (query_theta theta_input) = Ok vm ->
  select_rmax lin self sel r (query_theta theta_input) = Ok (Some (Fin rm)) ->
  0 < rm -> increasing rmax_frac ->
  List.length rmax_frac = List.length methods ->
  nth_error methods i = Some m ->
  nth_error (rlim_min_of rmax_frac (Fin rm)) i = Some lo ->
  nth_error (rlim_max_of rmax_frac (Fin rm)) i = Some hi ->
  fle lo r = true -> flt r hi = true ->
  (~ In m ["H80"; "H80c"; "J92"; "W06"; "E04"; "E11"; "M16"]%string ->
   calculate_wind lin self kw_atmos kw_h80 kw_e04 kw_w06 kw_m16
     (r, theta_input) methods rmax_frac sel kw_corr
   = Raise (UnboundLocalError "vcirc")) /\
  (~ In m ["H80"; "H80c"]%string ->
   calculate_pressure lin self kw_atmos kw_h80
     (r, theta_input) methods rmax_frac sel
   = Raise (UnboundLocalError "mslp")).
Proof.
  intros Hf Hv Hs Hrm Hinc Hl Hm Hlo Hhi Hle Hlt.
  unfold calculate_wind, calculate_pressure, wind_dispatch, pressure_dispatch,
    wind_bands, pressure_bands.
  rewrite Hf. cbn [getitem bind]. rewrite Hv. cbn [bind]. rewrite Hs. cbn [bind].
  rewrite Hl, Nat.eqb_refl. cbn [bind local].
  rewrite (band_selected
             (fun method => wind_model self kw_atmos kw_h80 kw_e04 kw_w06 kw_m16
                              method r (Fin rm) vm)
             methods rmax_frac rm r i m lo hi) by assumption.
  rewrite (band_selected
             (fun method => pressure_model self kw_atmos kw_h80 method r (Fin rm) vm)
             methods rmax_frac rm r i m lo hi) by assumption.
  cbn [bind local]. split; intros H.
  - unfold wind_model.
    repeat match type of H with
           | ~ In _ (_ :: _) =>
               apply eqb_not_in in H; destruct H as [-> H]
           end.
    reflexivity.
  - unfold pressure_model.
    repeat match type of H with
           | ~ In _ (_ :: _) =>
               apply eqb_not_in in H; destruct H as [-> H]
           end.
    reflexivity.
Qed.

Lemma increasing_two_inf : increasing [Fin 2; PInf].
Proof.
  intros j t a b Hjt Hj Ht.
  destruct j as [| [| j]], t as [| [| t]]; cbn in Hj, Ht; try lia;
    try discriminate; try (destruct t; discriminate); try (destruct j; discriminate).
  injection Hj as <-. injection Ht as <-. reflexivity.
Qed.

Lemma X13_unimplemented_method_in_band_witness :
  pressure_with (storm (Fin 3) (Fin 4)) (Fin 0, Fin 0) ["E11"; "H80"]%string
    [Fin 2; PInf] (SelStr "mean") = Raise (UnboundLocalError "mslp").
Proof.
  unfold pressure_with.
  apply (proj2 (X13_unimplemented_method_in_band interp1d_general
                  (storm (Fin 3) (Fin 4))
                  kw_atmos_default kw_h80_default kw_e04_default kw_w06_default
                  kw_m16_default kw_corr_default (Fin 0) (Fin 0) (Fin 30) 50000
                  (const_interp 30) ["E11"; "H80"]%string [Fin 2; PInf]
                  (SelStr "mean") 0 "E11"%string (Fin (0 * 50000)) (Fin (2 * 50000))
                  eq_refl storm_fvmax
                  ltac:(rewrite (select_rmax_mean _ _ _ _ _
                                   (storm_frmax_values (Fin 3) (Fin 4)));
                        now rewrite np_mean_single)
                  ltac:(lra) increasing_two_inf eq_refl eq_refl eq_refl eq_refl
                  ltac:(cbn [fle]; apply Rleb_true; lra)
                  ltac:(cbn [flt]; apply Rltb_true; lra))).
  intros [H | [H | []]]; discriminate.
Defined.

(** * Further properties of Track.interpolate *)

(** X14.  interpolate answers only inside the span of the track: on a
    track without records, for a query before the first timestamp and
    for a query after the last one it raises the exception "Out of
    interpolation range". *)
Theorem X14_interpolate_out_of_range (self : Track) (at_ : Z) :
  records self = [] \/
  (exists t, nth_error (timeindex self) 0 = Some t /\ (at_ < t)%Z) \/
  (exists t, nth_error (timeindex self) (List.length (timeindex self) - 1) = Some t /\
             (t < at_)%Z) ->
  interpolate self at_ = Raise (Exception "Out of interpolation range").
Proof.
  intros H. unfold interpolate.
  assert (E : try_except
                (t_last <- index (timeindex self) (List.length (timeindex self) - 1) ;;
                 _ <- assert (at_ <=? t_last)%Z ;;
                 t_first <- index (timeindex self) 0 ;;
                 assert (t_first <=? at_)%Z)
                (Raise (Exception "Out of interpolation range"))
              = Raise (Exception "Out of interpolation range")).
  { destruct H as [H | [(t & Ht & L) | (t & Ht & L)]].
    - unfold timeindex. rewrite H. reflexivity.
    - unfold index at 1.
      destruct (nth_error (timeindex self) (List.length (timeindex self) - 1));
        [| reflexivity].
      cbn [bind]. destruct (at_ <=? z)%Z; [| reflexivity].
      cbn [assert bind]. unfold index. rewrite Ht. cbn [bind].
      now rewrite (proj2 (Z.leb_gt t at_)) by lia.
    - unfold index at 1. rewrite Ht. cbn [bind].
      now rewrite (proj2 (Z.leb_gt at_ t)) by lia. }
  rewrite E. reflexivity.
Qed.

Lemma X14_interpolate_out_of_range_witness :
  interpolate track_rmax_missing (six_hours + 1)
  = Raise (Exception "Out of interpolation range").
Proof.
  apply X14_interpolate_out_of_range. right. right.
  exists six_hours. split; [reflexivity | lia].
Defined.

Lemma searchsorted_between (ts : list Z) (i : nat) (t0 t1 at_ : Z) :
  (forall j k a b, (j < k)%nat ->
     nth_error ts j = Some a -> nth_error ts k = Some b -> (a < b)%Z) ->
  nth_error ts i = Some t0 -> nth_error ts (S i) = Some t1 ->
  (t0 < at_ <= t1)%Z ->
  searchsorted_left ts at_ = S i.
Proof.
  revert i. induction ts as [| x ts IH]; intros i H H0 H1 Hat.
  - destruct i; discriminate.
  - destruct i as [| i]; cbn in H0; cbn [searchsorted_left].
    + injection H0 as ->. rewrite (proj2 (Z.ltb_lt _ _)) by lia. f_equal.
      destruct ts as [| y ts]; [discriminate |]. cbn in H1. injection H1 as ->.
      cbn [searchsorted_left]. now rewrite (proj2 (Z.ltb_ge _ _)) by lia.
    + assert (Hx : (x < t0)%Z).
      { apply (H 0%nat (S i) x t0); [lia | reflexivity | exact H0]. }
      rewrite (proj2 (Z.ltb_lt _ _)) by lia. f_equal.
      apply (IH i); [| exact H0 | exact H1 | exact Hat].
      intros j k a b Hjk Hj Hk. apply (H (S j) (S k)); [lia | exact Hj | exact Hk].
Qed.

Lemma range_check_between (ts : list Z) (i k : nat) (t0 t1 at_ : Z) :
  (forall j k a b, (j < k)%nat ->
     nth_error ts j = Some a -> nth_error ts k = Some b -> (a < b)%Z) ->
  nth_error ts i = Some t0 -> nth_error ts k = Some t1 ->
  (t0 <= at_ <= t1)%Z ->
  try_except
    (t_last <- index ts (List.length ts - 1) ;;
     _ <- assert (at_ <=? t_last)%Z ;;
     t_first <- index ts 0 ;;
     assert (t_first <=? at_)%Z)
    (Raise (Exception "Out of interpolation range")) = Ok tt.
Proof.
  intros H H0 H1 Hat.
  assert (Li : (i < List.length ts)%nat) by (apply nth_error_Some; now rewrite H0).
  assert (Lk : (k < List.length ts)%nat) by (apply nth_error_Some; now rewrite H1).
  destruct (index_ok ts (List.length ts - 1) ltac:(lia)) as (tl & El & Nl).
  destruct (index_ok ts 0 ltac:(lia)) as (tf & Ef & Nf).
  rewrite El, Ef. cbn [bind].
  pose proof (ascending_le ts k (List.length ts - 1) t1 tl H ltac:(lia) H1 Nl).
  pose proof (ascending_le ts 0 i tf t0 H ltac:(lia) Nf H0).
  rewrite (proj2 (Z.leb_le at_ tl)) by lia. cbn [assert bind].
  rewrite (proj2 (Z.leb_le tf at_)) by lia. reflexivity.
Qed.

Lemma weights_inside (k : nat) (t0 t1 at_ : Z) :
  (t0 < at_ < t1)%Z ->
  let w := total_seconds (t1 - at_) / total_seconds (t1 - t0) in
  weights k (S k) t0 t1 at_ = Ok (Fin w, Fin (1 + - w)) /\ 0 < w < 1.
Proof.
  intros [H0 H1] w. subst w. unfold weights.
  rewrite (proj2 (Nat.ltb_lt k (S k))) by lia.
  pose proof (total_seconds_pos (t1 - at_) ltac:(lia)) as Ha.
  pose proof (total_seconds_lt (t1 - at_) (t1 - t0) ltac:(lia)) as Hb.
  rewrite Reqb_false by lra.
  split; [reflexivity |].
  assert (Hi : 0 < / total_seconds (t1 - t0)) by (apply Rinv_0_lt_compat; lra).
  split.
  - now apply Rmult_lt_0_compat.
  - apply Rmult_lt_reg_r with (r := total_seconds (t1 - t0)); [lra |].
    unfold Rdiv. rewrite Rmult_assoc, Rinv_l by lra. lra.
Qed.

(** On well-formed records with at least one threshold on the left the
    blending block assigns both locals. *)
Lemma blend_radial_some (w_left w_right : fl) (left right : CycloneRecord) :
  wf_radial left -> wf_radial right -> vinfo left <> VArr [] ->
  exists vr, blend_radial w_left w_right left right = Ok (Some vr).
Proof.
  intros Wl Wr Hne.
  destruct (wf_radial_shaped left Wl) as (vl & El & Sl).
  destruct (wf_radial_shaped right Wr) as (vr & Er & Sr).
  assert (Hpos : (0 < List.length vl)%nat).
  { destruct vl; [now contradiction Hne | cbn; lia]. }
  unfold blend_radial. rewrite El, Er. cbn [vinfo_len bind].
  set (rl := atleast_2d (radinfo left)) in *.
  set (rr := atleast_2d (radinfo right)) in *.
  destruct (Nat.eqb (List.length vl) (List.length vr)) eqn:Eq; cbn [negb].
  - apply Nat.eqb_eq in Eq.
    destruct (Nat.eqb (List.length vl) 1) eqn:E1.
    + apply Nat.eqb_eq in E1.
      destruct (index_ok vl 0 ltac:(lia)) as (a & Ea & _).
      destruct (index_ok vr 0 ltac:(lia)) as (b & Eb & _).
      rewrite Ea, Eb. cbn [bind].
      destruct (isnan a || isnan b); [eexists; reflexivity |].
      destruct (feq a (Fin 0) || feq b (Fin 0)); [eexists; reflexivity |].
      destruct (blend_single_ok w_left w_right rl rr
                  (zeros (List.length rl) (ncols rl))
                  (List.length vl) (List.length vr) 4 (seq 0 (List.length rl)) Sl Sr)
        as (a' & E').
      { apply Forall_forall. intros j Hj. apply in_seq in Hj.
        destruct Sl as [Ll _]. unfold zeros. rewrite repeat_length. lia. }
      rewrite E'. eexists; reflexivity.
    + apply Nat.eqb_neq in E1.
      rewrite (proj2 (Nat.ltb_lt 1 (List.length vl))) by lia.
      rewrite (ncols_shaped _ _ _ Sl) by lia.
      destruct (blend_rows_ok w_left w_right vl vr rl rr
                  (zeros (List.length vl) 4)
                  (List.length vl) (List.length vr) (List.length vl) 4
                  (seq 0 (List.length vl)) Sl Sr (zeros_shaped _ _)) as (a' & E').
      { apply Forall_forall. intros j Hj. apply in_seq in Hj. lia. }
      rewrite E'. eexists; reflexivity.
  - apply Nat.eqb_neq in Eq.
    set (n := Nat.min (List.length vl) (List.length vr)).
    destruct (Nat.eq_dec n 0) as [Z | NZ].
    + rewrite Z. cbn [seq blend_rows bind]. eexists; reflexivity.
    + assert (Hr : (0 < List.length vr)%nat) by lia.
      rewrite (ncols_shaped _ _ _ Sl Hpos), (ncols_shaped _ _ _ Sr Hr).
      destruct (blend_rows_ok w_left w_right vl vr rl rr (zeros n 4)
                  (List.length vl) (List.length vr) n 4 (seq 0 n)
                  Sl Sr (zeros_shaped _ _)) as (a' & E').
      { apply Forall_forall. intros j Hj. apply in_seq in Hj. lia. }
      destruct (Nat.ltb (List.length vr) (List.length vl));
        rewrite E'; eexists; reflexivity.
Qed.

(** A blend with weights [w] and [1 - w], [0 <= w <= 1], of two numbers
    lies between them. *)
Lemma blend_convex (a b w : R) :
  0 <= w <= 1 ->
  exists x, blend (Fin a) (Fin b) (Fin w) (Fin (1 + - w)) = Fin x /\
            Rmin a b <= x <= Rmax a b.
Proof.
  intros Hw. unfold blend. cbn [fmul fadd]. eexists. split; [reflexivity |].
  unfold Rmin, Rmax. destruct (Rle_dec a b); split; nra.
Qed.

(** X15.  On a Track with strictly ascending timestamps, a query strictly
    between the timestamps of two consecutive records with well-formed
    radial fields returns a Record at the query time in which every
    scalar field is the blend of the two records with weights [w] and
    [1 - w], where [w] is the share of the bracket that lies after the
    query and [0 < w < 1]; a blend of two numbers lies between them.
    The radial lists are those of the blending block, and the returned
    Record carries no interpolator. *)
Theorem X15_interpolate_inside_bracket
    (self : Track) (i : nat) (left right : CycloneRecord) (at_ : Z) :
  ascending self ->
  nth_error (records self) i = Some left ->
  nth_error (records self) (S i) = Some right ->
  (timestamp left < at_ < timestamp right)%Z ->
  wf_radial left -> wf_radial right -> vinfo left <> VArr [] ->
  exists w vr,
    w = total_seconds (timestamp right - at_)
        / total_seconds (timestamp right - timestamp left) /\
    0 < w < 1 /\
    blend_radial (Fin w) (Fin (1 + - w)) left right = Ok (Some vr) /\
    (let mix (field : CycloneRecord -> fl) :=
       blend (field left) (field right) (Fin w) (Fin (1 + - w)) in
     interpolate self at_
     = Ok (mkRecord at_ (mix lon) (mix lat) (mix mslp) (mix vmax) (mix rmax)
             (fst vr) (snd vr) (mix ustorm) (mix vstorm) None None None None)) /\
    (forall a b, exists x,
       blend (Fin a) (Fin b) (Fin w) (Fin (1 + - w)) = Fin x /\
       Rmin a b <= x <= Rmax a b).
Proof.
  intros Hasc Hl Hr Hat Wl Wr Hne.
  assert (Tl : nth_error (timeindex self) i = Some (timestamp left)).
  { unfold timeindex. now apply map_nth_error. }
  assert (Tr : nth_error (timeindex self) (S i) = Some (timestamp right)).
  { unfold timeindex. now apply map_nth_error. }
  destruct (weights_inside i _ _ _ Hat) as [Ew Hw].
  set (w := total_seconds (timestamp right - at_)
            / total_seconds (timestamp right - timestamp left)) in *.
  destruct (blend_radial_some (Fin w) (Fin (1 + - w)) left right Wl Wr Hne)
    as (vr & Eb).
  exists w, vr. split; [reflexivity |]. split; [exact Hw |]. split; [exact Eb |].
  split.
  - unfold interpolate.
    rewrite (range_check_between _ i (S i) _ _ at_ Hasc Tl Tr) by lia.
    cbn [bind].
    rewrite (searchsorted_between _ i _ _ at_ Hasc Tl Tr) by lia.
    cbn [Nat.eqb]. replace (S i - 1)%nat with i by lia.
    unfold index. rewrite Tl, Tr, Hl, Hr. cbn [bind].
    rewrite Ew. cbn [bind]. rewrite Eb. cbn [bind feq].
    rewrite (Reqb_false (1 + - w) 1), (Reqb_false w 1) by lra.
    reflexivity.
  - intros a b. apply blend_convex. lra.
Qed.

Lemma X15_interpolate_inside_bracket_witness :
  exists w vr,
    w = total_seconds (six_hours - three_hours) / total_seconds (six_hours - 0) /\
    0 < w < 1 /\
    blend_radial (Fin w) (Fin (1 + - w))
      (fix_at 0 NaN (VArr [Fin 17]) (RRow (quadrants 100000)))
      (fix_at six_hours (Fin 30000) (VArr [Fin 17]) (RRow (quadrants 120000)))
    = Ok (Some vr) /\
    interpolate track_rmax_missing three_hours
    = Ok (mkRecord three_hours
            (blend (Fin 90) (Fin 90) (Fin w) (Fin (1 + - w)))
            (blend (Fin 20) (Fin 20) (Fin w) (Fin (1 + - w)))
            (blend (Fin 95000) (Fin 95000) (Fin w) (Fin (1 + - w)))
            (blend (Fin 27) (Fin 27) (Fin w) (Fin (1 + - w)))
            (blend NaN (Fin 30000) (Fin w) (Fin (1 + - w)))
            (fst vr) (snd vr)
            (blend (Fin 3) (Fin 3) (Fin w) (Fin (1 + - w)))
            (blend (Fin 4) (Fin 4) (Fin w) (Fin (1 + - w)))
            None None None None).
Proof.
  destruct (X15_interpolate_inside_bracket track_rmax_missing 0
              (fix_at 0 NaN (VArr [Fin 17]) (RRow (quadrants 100000)))
              (fix_at six_hours (Fin 30000) (VArr [Fin 17]) (RRow (quadrants 120000)))
              three_hours)
    as (w & vr & Ew & Hw & Eb & Ei & _).
  - apply ascending_two. cbn [timestamp fix_at]. unfold six_hours. lia.
  - reflexivity.
  - reflexivity.
  - cbn [timestamp fix_at]. unfold six_hours, three_hours. lia.
  - apply wf_radial_fix; reflexivity.
  - apply wf_radial_fix; reflexivity.
  - discriminate.
  - exists w, vr. repeat split; try assumption; apply Hw.
Defined.

(** * The radius of maximum wind *)

(** ** The scan solver *)

Lemma Rceil_spec (x : R) : x <= IZR (Rceil x) < x + 1.
Proof.
  unfold Rceil, Int_part. destruct (archimed (- x)) as [H1 H2].
  rewrite opp_IZR, minus_IZR. lra.
Qed.

Lemma INR_to_nat (z : Z) : (0 <= z)%Z -> INR (Z.to_nat z) = IZR z.
Proof. intros H. rewrite INR_IZR_INZ, Z2Nat.id by exact H. reflexivity. Qed.

(** The number of points of a range over a positive span. *)
Lemma arange_points (x : R) :
  0 < x -> (1 <= Z.to_nat (Rceil x))%nat /\ x <= INR (Z.to_nat (Rceil x)) < x + 1.
Proof.
  intros H. pose proof (Rceil_spec x) as [H1 H2].
  assert (P : (0 < Rceil x)%Z) by (apply lt_IZR; lra).
  split; [lia |]. rewrite INR_to_nat by lia. lra.
Qed.

Lemma arange_empty (x : R) : x <= 0 -> Z.to_nat (Rceil x) = 0%nat.
Proof.
  intros H. pose proof (Rceil_spec x) as [H1 H2].
  assert (P : (Rceil x < 1)%Z) by (apply lt_IZR; lra).
  lia.
Qed.

(** The scan over a non-empty range stops at the first point whose
    residual is negative, and at the last point when there is none. *)
Lemma scan_loop_seq (resfunc : fl -> fl) (g : nat -> fl) (len : nat) :
  forall (start : nat) (prev : option fl),
    (0 < len)%nat ->
    exists k, (start <= k < start + len)%nat /\
      scan_loop resfunc (map g (seq start len)) prev = Some (g k) /\
      (forall j, (start <= j < k)%nat -> flt (resfunc (g j)) (Fin 0) = false) /\
      (flt (resfunc (g k)) (Fin 0) = true \/ k = (start + len - 1)%nat).
Proof.
  induction len as [| len IH]; intros start prev Hlen; [lia |].
  cbn [seq map scan_loop].
  destruct (flt (resfunc (g start)) (Fin 0)) eqn:E.
  - exists start.
    split; [lia |]. split; [reflexivity |]. split; [intros j Hj; lia | now left].
  - destruct len as [| len].
    + exists start. cbn [seq map scan_loop].
      split; [lia |]. split; [reflexivity |]. split; [intros j Hj; lia | right; lia].
    + destruct (IH (S start) (Some (g start)) ltac:(lia)) as (k & Hk & Es & Hb & Ha).
      exists k. split; [lia |]. split; [exact Es |]. split.
      * intros j Hj. destruct (Nat.eq_dec j start) as [-> | Hne]; [exact E |].
        apply Hb. lia.
      * destruct Ha as [Ha | Ha]; [now left | right; lia].
Qed.

Section ScanSolver.

Variable fsolve : (fl -> fl) -> fl -> res fl.

Lemma solve_rmax_scan (resfunc : fl -> fl) (a b s : R) :
  0 < s -> a <= b ->
  exists k : nat,
    solve_rmax fsolve resfunc "scan" [Fin a; Fin b] (Fin s)
    = Ok (Fin (a + INR k * s)) /\
    a + INR k * s < b + s /\
    (forall j, (j < k)%nat ->
       flt (resfunc (Fin (a + INR j * s))) (Fin 0) = false) /\
    (flt (resfunc (Fin (a + INR k * s))) (Fin 0) = true \/ b <= a + INR k * s).
Proof.
  intros Hs Hab. unfold solve_rmax.
  cbn [String.eqb Ascii.eqb Bool.eqb index nth_error bind fadd np_arange].
  rewrite (Reqb_false s 0) by lra. cbn [bind].
  set (x := (b + s - a) / s).
  assert (Hx : x * s = b + s - a) by (unfold x; field; lra).
  assert (Hx0 : 0 < x) by (unfold x; apply Rdiv_lt_0_compat; lra).
  destruct (arange_points x Hx0) as [Hn [Hlo Hhi]].
  set (n := Z.to_nat (Rceil x)) in *.
  destruct (scan_loop_seq resfunc (fun k => Fin (a + INR k * s)) n 0 None ltac:(lia))
    as (k & Hk & Es & Hb & Ha).
  exists k. rewrite Es. cbn [local bind try_except].
  split; [reflexivity |].
  assert (Hkn : INR k <= INR n - 1).
  { assert (T : (S k <= n)%nat) by lia. apply le_INR in T. rewrite S_INR in T. lra. }
  split; [nra |]. split.
  - intros j Hj. apply Hb. lia.
  - destruct Ha as [Ha | Ha]; [now left | right].
    assert (T : INR k = INR n - 1).
    { replace n with (S k) by lia. rewrite S_INR. lra. }
    nra.
Qed.

Lemma solve_rmax_scan_empty (resfunc : fl -> fl) (a b s : R) :
  0 < s -> b + s <= a ->
  solve_rmax fsolve resfunc "scan" [Fin a; Fin b] (Fin s)
  = Raise (Exception "Solver failed").
Proof.
  intros Hs Hab. unfold solve_rmax.
  cbn [String.eqb Ascii.eqb Bool.eqb index nth_error bind fadd np_arange].
  rewrite (Reqb_false s 0) by lra. cbn [bind].
  rewrite arange_empty.
  - reflexivity.
  - assert (T : 0 <= (a - (b + s)) / s) by (apply Rdiv_nonneg; lra).
    replace ((b + s - a) / s) with (- ((a - (b + s)) / s)) by (field; lra). lra.
Qed.

Lemma solve_rmax_other (resfunc : fl -> fl) (solver : string) (limit : list fl)
    (step : fl) :
  solver <> "scan"%string -> solver <> "fsolve"%string ->
  solve_rmax fsolve resfunc solver limit step = Raise (UnboundLocalError "rmax_solved").
Proof.
  intros H1 H2. unfold solve_rmax.
  rewrite (proj2 (String.eqb_neq _ _) H1), (proj2 (String.eqb_neq _ _) H2).
  reflexivity.
Qed.

Lemma solve_rmax_fsolve (resfunc : fl -> fl) (x0 : fl) (rest : list fl) (step : fl) :
  solve_rmax fsolve resfunc "fsolve" (x0 :: rest) step
  = match fsolve resfunc x0 with
    | Ok x => Ok x
    | Raise _ => Raise (Exception "Solver failed")
    end.
Proof.
  unfold solve_rmax.
  cbn [String.eqb Ascii.eqb Bool.eqb index nth_error bind].
  destruct (fsolve resfunc x0); reflexivity.
Qed.

End ScanSolver.

(** X16.  With the "scan" solver, a positive step and limits
    [start <= stop], calc_rmax_e11 and calc_rmax_h80 always return: the
    result is a point [start + k*step] of the range, below [stop + step];
    the residual is not negative at any earlier point of the range; and
    either the residual is negative at the result, or the result is the
    last point of the range (at or beyond [stop]), which is what is
    returned when the residual never becomes negative. *)
Theorem X16_scan_returns_first_negative_residual
    (fsolve : (fl -> fl) -> fl -> res fl)
    (v r vmax f pc B p_n rho : fl) (a b s : R) :
  0 < s -> a <= b ->
  (exists k : nat,
     calc_rmax_e11 fsolve v r vmax f "scan" [Fin a; Fin b] (Fin s)
     = Ok (Fin (a + INR k * s)) /\
     a + INR k * s < b + s /\
     (forall j, (j < k)%nat ->
        flt (resfunc_e11 v r vmax f (Fin (a + INR j * s))) (Fin 0) = false) /\
     (flt (resfunc_e11 v r vmax f (Fin (a + INR k * s))) (Fin 0) = true \/
      b <= a + INR k * s)) /\
  (exists k : nat,
     calc_rmax_h80 fsolve v r pc B f p_n rho "scan" [Fin a; Fin b] (Fin s)
     = Ok (Fin (a + INR k * s)) /\
     a + INR k * s < b + s /\
     (forall j, (j < k)%nat ->
        flt (resfunc_h80 v r pc B f p_n rho (Fin (a + INR j * s))) (Fin 0) = false) /\
     (flt (resfunc_h80 v r pc B f p_n rho (Fin (a + INR k * s))) (Fin 0) = true \/
      b <= a + INR k * s)).
Proof.
  intros Hs Hab. split.
  - apply (solve_rmax_scan fsolve (resfunc_e11 v r vmax f) a b s Hs Hab).
  - apply (solve_rmax_scan fsolve (resfunc_h80 v r pc B f p_n rho) a b s Hs Hab).
Qed.

Lemma X16_scan_returns_first_negative_residual_witness :
  exists k : nat,
    calc_rmax_e11 fsolve_start (Fin 17) (Fin 100000) (Fin 30) (Fin 0)
      "scan" [Fin 5000; Fin 500000] (Fin 100)
    = Ok (Fin (5000 + INR k * 100)) /\
    5000 + INR k * 100 < 500000 + 100 /\
    (forall j, (j < k)%nat ->
       flt (resfunc_e11 (Fin 17) (Fin 100000) (Fin 30) (Fin 0)
              (Fin (5000 + INR j * 100))) (Fin 0) = false) /\
    (flt (resfunc_e11 (Fin 17) (Fin 100000) (Fin 30) (Fin 0)
            (Fin (5000 + INR k * 100))) (Fin 0) = true \/
     500000 <= 5000 + INR k * 100).
Proof.
  apply (proj1 (X16_scan_returns_first_negative_residual fsolve_start
                  (Fin 17) (Fin 100000) (Fin 30) (Fin 0) (Fin 95000) (Fin 1)
                  (Fin 101325) (Fin 1.15) 5000 500000 100
                  ltac:(lra) ltac:(lra))).
Defined.

Lemma fmul_comm (a b : fl) : (a * b)%fl = (b * a)%fl.
Proof.
  destruct a as [| s | x], b as [| t | y]; cbn [fmul]; try reflexivity.
  - now rewrite xorb_comm.
  - apply Fin_eq. ring.
Qed.

(** X17.  The residual the E11 solver drives below zero is the known
    speed [v] minus the E11 profile that calculate_wind evaluates, at the
    known radius and the trial rmax, for all arguments; the residual of
    the H80 solver is [v] minus the H80 profile evaluated [1e-8] closer
    to the centre (the profile adds [1e-8] to its radius, the solver
    does not). *)
Theorem X17_residuals_invert_the_profiles
    (v vmax f pc B p_n rho rmax : fl) (r : R) :
  (forall r' : fl,
     resfunc_e11 v r' vmax f rmax = (v - calc_vcirc_e11 r' rmax vmax f)%fl) /\
  resfunc_h80 v (Fin r) pc B f p_n rho rmax
  = (v - calc_vcirc_h80 (Fin (r - 1e-8)) rmax pc B p_n rho f)%fl.
Proof.
  split.
  - intros r'. unfold resfunc_e11, calc_vcirc_e11.
    now rewrite (fmul_comm vmax rmax), (fmul_comm f r').
  - unfold resfunc_h80, calc_vcirc_h80. cbn [fadd].
    replace (r - 1e-8 + 1e-8) with r by ring.
    now rewrite (fmul_comm (B / rho)%fl).
Qed.

(** X18.  How the two solvers fail.  With "scan", a positive step and an
    empty range ([stop + step <= start]) the call raises the exception
    "Solver failed"; with "fsolve" it returns what the library solver
    returns from the start point [limit[0]], and raises "Solver failed"
    whatever the library raises; with any other solver name nothing is
    solved and the call ends with UnboundLocalError on [rmax_solved],
    not with "Solver failed". *)
Theorem X18_solver_failures
    (fsolve : (fl -> fl) -> fl -> res fl)
    (v r vmax f pc B p_n rho : fl) (solver : string) (limit : list fl) (step : fl)
    (a b s : R) (x0 : fl) (rest : list fl) :
  (0 < s -> b + s <= a ->
   calc_rmax_e11 fsolve v r vmax f "scan" [Fin a; Fin b] (Fin s)
   = Raise (Exception "Solver failed") /\
   calc_rmax_h80 fsolve v r pc B f p_n rho "scan" [Fin a; Fin b] (Fin s)
   = Raise (Exception "Solver failed")) /\
  (calc_rmax_e11 fsolve v r vmax f "fsolve" (x0 :: rest) step
   = match fsolve (resfunc_e11 v r vmax f) x0 with
     | Ok x => Ok x
     | Raise _ => Raise (Exception "Solver failed")
     end /\
   calc_rmax_h80 fsolve v r pc B f p_n rho "fsolve" (x0 :: rest) step
   = match fsolve (resfunc_h80 v r pc B f p_n rho) x0 with
     | Ok x => Ok x
     | Raise _ => Raise (Exception "Solver failed")
     end) /\
  (solver <> "scan"%string -> solver <> "fsolve"%string ->
   calc_rmax_e11 fsolve v r vmax f solver limit step
   = Raise (UnboundLocalError "rmax_solved") /\
   calc_rmax_h80 fsolve v r pc B f p_n rho solver limit step
   = Raise (UnboundLocalError "rmax_solved")).
Proof.
  split; [| split].
  - intros Hs Hab. split; apply solve_rmax_scan_empty; assumption.
  - split; apply solve_rmax_fsolve.
  - intros H1 H2. split; apply solve_rmax_other; assumption.
Qed.

Lemma X18_solver_failures_witness :
  calc_rmax_e11 fsolve_start (Fin 17) (Fin 100000) (Fin 30) (Fin 0)
    "scan" [Fin 500000; Fin 5000] (Fin 100)
  = Raise (Exception "Solver failed") /\
  calc_rmax_e11 fsolve_start (Fin 17) (Fin 100000) (Fin 30) (Fin 0)
    "bisect" [Fin 5000; Fin 500000] (Fin 100)
  = Raise (UnboundLocalError "rmax_solved").
Proof.
  pose proof (X18_solver_failures fsolve_start (Fin 17) (Fin 100000) (Fin 30)
                (Fin 0) (Fin 95000) (Fin 1) (Fin 101325) (Fin 1.15)
                "bisect" [Fin 5000; Fin 500000] (Fin 100)
                500000 5000 100 (Fin 5000) []) as (A & _ & C).
  split.
  - apply A; lra.
  - apply C; discriminate.
Defined.

(** ** Record.calc_rmax *)

Lemma mapM_pure {A B : Type} (f : A -> res B) (g : A -> B) (l : list A) :
  (forall a, f a = Ok (g a)) -> mapM f l = Ok (map g l).
Proof.
  intros H. induction l as [| a l IH]; cbn [mapM map]; [reflexivity |].
  now rewrite H, IH.
Qed.

Lemma ones_times_Fin (k : R) : ones_times (Fin k) = repeat (Fin (1 * k)) 5.
Proof. reflexivity. Qed.

Lemma ones_times_length (x : fl) : List.length (ones_times x) = 5%nat.
Proof. reflexivity. Qed.

(** Five copies of a number interpolate to that number on the circle. *)
Lemma ones_times_const (k theta : R) :
  0 <= theta <= 2 * PI ->
  interp1d_call theta_grid (ones_times (Fin k)) (Fin theta) = Ok (Fin k).
Proof.
  intros H. rewrite ones_times_Fin, interp1d_const by exact H.
  f_equal. apply Fin_eq. ring.
Qed.

Section CalcRmax.

Variable fsolve : (fl -> fl) -> fl -> res fl.
Variable pa2mb : fl -> fl.
Variable km2m : fl -> fl.
Variable self : CycloneRecord.
Variable kw_atmos : kw_atmos_t.
Variable kw_h80 : kw_rmax_h80_t.
Variable kw_e11 : kw_rmax_e11_t.

Lemma rmax_attempt_unimplemented (lo hi : list fl) (fv fr : interp) (thetai : fl)
    (j : nat) (m : string) :
  ~ In m ["E11"; "H80"; "S02"; "W04"]%string ->
  rmax_attempt fsolve pa2mb km2m self kw_atmos kw_h80 kw_e11 lo hi fv fr thetai j m
  = Ok None \/
  exists e,
    rmax_attempt fsolve pa2mb km2m self kw_atmos kw_h80 kw_e11 lo hi fv fr thetai j m
    = Raise e.
Proof.
  intros H. unfold rmax_attempt.
  repeat match type of H with
         | ~ In _ (_ :: _) => apply eqb_not_in in H; destruct H as [-> H]
         end.
  destruct (fv thetai) as [x | e]; cbn [bind]; [| right; eexists; reflexivity].
  destruct (index lo j) as [l | e]; cbn [bind]; [| right; eexists; reflexivity].
  destruct (fge x l); cbn [assert bind]; [| right; eexists; reflexivity].
  destruct (index hi j) as [h | e]; cbn [bind]; [| right; eexists; reflexivity].
  destruct (flt x h); cbn [assert bind]; [| right; eexists; reflexivity].
  now left.
Qed.

Lemma rmax_methods_unimplemented (lo hi : list fl) (fv fr : interp) (thetai : fl)
    (methods : list string) (placeholder : fl) :
  Forall (fun m => ~ In m ["E11"; "H80"; "S02"; "W04"]%string) methods ->
  forall j,
    rmax_methods
      (rmax_attempt fsolve pa2mb km2m self kw_atmos kw_h80 kw_e11 lo hi fv fr thetai)
      j methods placeholder = placeholder.
Proof.
  induction 1 as [| m methods Hm _ IH]; intros j; cbn [rmax_methods];
    [reflexivity |].
  destruct (rmax_attempt_unimplemented lo hi fv fr thetai j m Hm) as [-> | (e & ->)];
    [reflexivity | apply IH].
Qed.

Lemma calc_rmax_known (methods : list string) (vlimit : list fl) (k : R) :
  List.length vlimit = List.length methods ->
  rmax self = Fin k ->
  calc_rmax fsolve pa2mb km2m self kw_atmos kw_h80 kw_e11 methods true vlimit
  = Ok (set_frmax self [interp1d_call theta_grid (ones_times (Fin k))]).
Proof.
  intros Hl Hk. unfold calc_rmax.
  rewrite Hl, Nat.eqb_refl. cbn [assert try_except bind].
  rewrite Hk. cbn [isnan negb andb].
  now rewrite interp1d_five by apply ones_times_length.
Qed.

Lemma calc_rmax_regression (methods : list string) (use_rmax_info : bool)
    (vlimit : list fl) :
  List.length vlimit = List.length methods ->
  negb (isnan (rmax self)) && use_rmax_info = false ->
  forallb isnan (vinfo_1d (vinfo self)) = true ->
  calc_rmax fsolve pa2mb km2m self kw_atmos kw_h80 kw_e11 methods use_rmax_info vlimit
  = if negb (isnan (mslp self))
    then Ok (set_frmax self
               [interp1d_call theta_grid
                  (ones_times (calc_rmax_s02 pa2mb km2m (mslp self)))])
    else if negb (isnan (vmax self))
    then Ok (set_frmax self
               [interp1d_call theta_grid
                  (ones_times (calc_rmax_w04 km2m (vmax self) (lat self)))])
    else Raise (UnboundLocalError "rmax").
Proof.
  intros Hl Hu Hv. unfold calc_rmax.
  rewrite Hl, Nat.eqb_refl. cbn [assert try_except bind].
  rewrite Hu, Hv.
  destruct (negb (isnan (mslp self))).
  - cbn [local bind]. now rewrite interp1d_five by apply ones_times_length.
  - destruct (negb (isnan (vmax self))).
    + cbn [local bind]. now rewrite interp1d_five by apply ones_times_length.
    + reflexivity.
Qed.

Lemma calc_rmax_radial (methods : list string) (use_rmax_info : bool)
    (vlimit : list fl) (fvs frs : list interp) :
  List.length vlimit = List.length methods ->
  negb (isnan (rmax self)) && use_rmax_info = false ->
  forallb isnan (vinfo_1d (vinfo self)) = false ->
  fvinfo self = Some fvs -> fradinfo self = Some frs ->
  calc_rmax fsolve pa2mb km2m self kw_atmos kw_h80 kw_e11 methods use_rmax_info vlimit
  = Ok (set_frmax self
          (map (fun p : interp * interp =>
                  interp1d_call theta_grid
                    (rmax_fv_theta fsolve pa2mb km2m self kw_atmos kw_h80 kw_e11
                       methods (removelast (Fin 0 :: vlimit)) vlimit (fst p) (snd p)))
               (combine fvs frs))).
Proof.
  intros Hl Hu Hv Hfv Hfr. unfold calc_rmax.
  rewrite Hl, Nat.eqb_refl. cbn [assert try_except bind].
  rewrite Hu, Hv, Hfv, Hfr. cbn [getitem bind].
  rewrite (mapM_pure _ (fun p : interp * interp =>
                          interp1d_call theta_grid
                            (rmax_fv_theta fsolve pa2mb km2m self kw_atmos kw_h80
                               kw_e11 methods (removelast (Fin 0 :: vlimit)) vlimit
                               (fst p) (snd p)))).
  - reflexivity.
  - intros p. apply interp1d_five. unfold rmax_fv_theta. now rewrite length_map.
Qed.

End CalcRmax.

(** X19.  The exceptions of calc_rmax.  A [vlimit] whose length differs
    from that of [methods] raises the exception "vlimit must be the size
    of methods.".  Otherwise, when the stored rmax is not used: a Record
    without any numeric threshold whose central pressure and maximum
    wind are both NaN ends with UnboundLocalError on [rmax]; a Record
    with a numeric threshold on which gen_radial_fields has not stored
    [fvinfo] ends with KeyError on [fvinfo], and with KeyError on
    [fradinfo] when only that one is absent. *)
Theorem X19_calc_rmax_exceptions
    (fsolve : (fl -> fl) -> fl -> res fl) (pa2mb km2m : fl -> fl)
    (self : CycloneRecord) (kw_atmos : kw_atmos_t) (kw_h80 : kw_rmax_h80_t)
    (kw_e11 : kw_rmax_e11_t) (methods : list string) (use_rmax_info : bool)
    (vlimit : list fl) :
  let call := calc_rmax fsolve pa2mb km2m self kw_atmos kw_h80 kw_e11
                methods use_rmax_info vlimit in
  (List.length vlimit <> List.length methods ->
   call = Raise (Exception "vlimit must be the size of methods.")) /\
  (List.length vlimit = List.length methods ->
   negb (isnan (rmax self)) && use_rmax_info = false ->
   (forallb isnan (vinfo_1d (vinfo self)) = true ->
    isnan (mslp self) = true -> isnan (vmax self) = true ->
    call = Raise (UnboundLocalError "rmax")) /\
   (forallb isnan (vinfo_1d (vinfo self)) = false ->
    (fvinfo self = None -> call = Raise (KeyError "fvinfo")) /\
    (fvinfo self <> None -> fradinfo self = None ->
     call = Raise (KeyError "fradinfo")))).
Proof.
  intros call. subst call. split.
  - intros H. unfold calc_rmax.
    now rewrite (proj2 (Nat.eqb_neq _ _) H).
  - intros Hl Hu. split.
    + intros Hv Hm Hx.
      rewrite calc_rmax_regression by assumption. now rewrite Hm, Hx.
    + intros Hv. unfold calc_rmax.
      rewrite Hl, Nat.eqb_refl. cbn [assert try_except bind].
      rewrite Hu, Hv. split.
      * intros ->. reflexivity.
      * intros Hfv ->. destruct (fvinfo self); [reflexivity | now contradiction Hfv].
Qed.

Lemma X19_calc_rmax_exceptions_witness :
  calc_rmax_with (fix_at 0 NaN (VArr [Fin 17]) (RTable [quadrants 100000]))
    ["H80"; "E11"]%string false [Fin 20; PInf]
  = Raise (KeyError "fvinfo") /\
  calc_rmax_with (storm NaN NaN) ["H80"; "E11"]%string false [PInf]
  = Raise (Exception "vlimit must be the size of methods.").
Proof.
  unfold calc_rmax_with. split.
  - apply (proj1 (proj2 (proj2 (X19_calc_rmax_exceptions fsolve_start pa2mb_div
                                  km2m_mul
                                  (fix_at 0 NaN (VArr [Fin 17])
                                     (RTable [quadrants 100000]))
                                  kw_atmos_default kw_rmax_h80_default
                                  kw_rmax_e11_default ["H80"; "E11"]%string false
                                  [Fin 20; PInf]) eq_refl eq_refl) eq_refl)).
    reflexivity.
  - apply (proj1 (X19_calc_rmax_exceptions fsolve_start pa2mb_div km2m_mul
                    (storm NaN NaN) kw_atmos_default kw_rmax_h80_default
                    kw_rmax_e11_default ["H80"; "E11"]%string false [PInf])).
    discriminate.
Defined.

(** X20.  With [use_rmax_info] set and a numeric rmax stored in the
    Record, calc_rmax ignores the methods: it returns the Record with a
    single [frmax] interpolator, and nothing else changed, which gives
    the stored rmax at every bearing of the circle; the "mean" selection
    of calculate_wind and calculate_pressure on the returned Record then
    yields the stored rmax, whatever the query radius. *)
Theorem X20_stored_rmax_is_used
    (fsolve : (fl -> fl) -> fl -> res fl) (pa2mb km2m : fl -> fl)
    (self : CycloneRecord) (kw_atmos : kw_atmos_t) (kw_h80 : kw_rmax_h80_t)
    (kw_e11 : kw_rmax_e11_t) (methods : list string) (vlimit : list fl) (k : R) :
  List.length vlimit = List.length methods ->
  rmax self = Fin k ->
  exists f,
    calc_rmax fsolve pa2mb km2m self kw_atmos kw_h80 kw_e11 methods true vlimit
    = Ok (set_frmax self [f]) /\
    (forall theta, 0 <= theta <= 2 * PI -> f (Fin theta) = Ok (Fin k)) /\
    (forall lin r theta, 0 <= theta <= 2 * PI ->
       select_rmax lin (set_frmax self [f]) (SelStr "mean") r (Fin theta)
       = Ok (Some (Fin k))).
Proof.
  intros Hl Hk. eexists.
  split; [exact (calc_rmax_known fsolve pa2mb km2m self kw_atmos kw_h80 kw_e11
                   methods vlimit k Hl Hk) |].
  split.
  - intros theta Ht. now apply ones_times_const.
  - intros lin r theta Ht.
    rewrite (select_rmax_mean lin _ r (Fin theta) [Fin k]).
    + now rewrite np_mean_single.
    + unfold frmax_values. cbn [set_frmax frmax getitem bind mapM].
      now rewrite ones_times_const by exact Ht.
Qed.

Lemma X20_stored_rmax_is_used_witness :
  exists f,
    calc_rmax_with (fix_at 0 (Fin 30000) (VArr [Fin 17]) (RTable [quadrants 100000]))
      ["H80"; "E11"]%string true [Fin 20; PInf]
    = Ok (set_frmax
            (fix_at 0 (Fin 30000) (VArr [Fin 17]) (RTable [quadrants 100000])) [f]) /\
    (forall theta, 0 <= theta <= 2 * PI -> f (Fin theta) = Ok (Fin 30000)) /\
    (forall lin r theta, 0 <= theta <= 2 * PI ->
       select_rmax lin
         (set_frmax
            (fix_at 0 (Fin 30000) (VArr [Fin 17]) (RTable [quadrants 100000])) [f])
         (SelStr "mean") r (Fin theta)
       = Ok (Some (Fin 30000))).
Proof.
  unfold calc_rmax_with.
  apply (X20_stored_rmax_is_used fsolve_start pa2mb_div km2m_mul
           (fix_at 0 (Fin 30000) (VArr [Fin 17]) (RTable [quadrants 100000]))
           kw_atmos_default kw_rmax_h80_default kw_rmax_e11_default
           ["H80"; "E11"]%string [Fin 20; PInf] 30000); reflexivity.
Defined.

(** X21.  On a Record without any numeric threshold whose stored rmax is
    not used, calc_rmax falls back on a regression and ignores the
    methods: the S02 regression of the central pressure when that is not
    NaN, else the W04 regression of the maximum wind and the latitude
    when the maximum wind is not NaN.  When the regression gives a
    number, the single [frmax] interpolator returns it at every bearing
    of the circle. *)
Theorem X21_regression_without_thresholds
    (fsolve : (fl -> fl) -> fl -> res fl) (pa2mb km2m : fl -> fl)
    (self : CycloneRecord) (kw_atmos : kw_atmos_t) (kw_h80 : kw_rmax_h80_t)
    (kw_e11 : kw_rmax_e11_t) (methods : list string) (use_rmax_info : bool)
    (vlimit : list fl) (k : R) :
  List.length vlimit = List.length methods ->
  negb (isnan (rmax self)) && use_rmax_info = false ->
  forallb isnan (vinfo_1d (vinfo self)) = true ->
  let call := calc_rmax fsolve pa2mb km2m self kw_atmos kw_h80 kw_e11
                methods use_rmax_info vlimit in
  (isnan (mslp self) = false ->
   calc_rmax_s02 pa2mb km2m (mslp self) = Fin k ->
   exists f, call = Ok (set_frmax self [f]) /\
     forall theta, 0 <= theta <= 2 * PI -> f (Fin theta) = Ok (Fin k)) /\
  (isnan (mslp self) = true -> isnan (vmax self) = false ->
   calc_rmax_w04 km2m (vmax self) (lat self) = Fin k ->
   exists f, call = Ok (set_frmax self [f]) /\
     forall theta, 0 <= theta <= 2 * PI -> f (Fin theta) = Ok (Fin k)).
Proof.
  intros Hl Hu Hv call. subst call.
  rewrite calc_rmax_regression by assumption. split.
  - intros Hm Hk. rewrite Hm, Hk. cbn [negb]. eexists. split; [reflexivity |].
    intros theta Ht. now apply ones_times_const.
  - intros Hm Hx Hk. rewrite Hm, Hx, Hk. cbn [negb]. eexists. split; [reflexivity |].
    intros theta Ht. now apply ones_times_const.
Qed.

Lemma X21_regression_without_thresholds_witness :
  exists f,
    calc_rmax_with storm_without_radii ["H80"; "E11"]%string false [Fin 20; PInf]
    = Ok (set_frmax storm_without_radii [f]) /\
    forall theta, 0 <= theta <= 2 * PI ->
      f (Fin theta) = Ok (Fin ((0.4785 * (95000 / 100) + - 413) * 1000)).
Proof.
  unfold calc_rmax_with.
  apply (proj1 (X21_regression_without_thresholds fsolve_start pa2mb_div km2m_mul
                  storm_without_radii kw_atmos_default kw_rmax_h80_default
                  kw_rmax_e11_default ["H80"; "E11"]%string false [Fin 20; PInf]
                  ((0.4785 * (95000 / 100) + - 413) * 1000)
                  eq_refl eq_refl eq_refl)).
  - reflexivity.
  - unfold calc_rmax_s02, pa2mb_div, km2m_mul, storm_without_radii. cbn [mslp].
    rewrite fdiv_Fin by lra. reflexivity.
Defined.

(** X22.  On a Record with a numeric threshold and both arrays of
    interpolators stored, calc_rmax never raises when the stored rmax is
    not used, whatever the solvers do (every failure of a method is
    swallowed): it returns the Record with one [frmax] interpolator per
    pair of threshold and radius interpolators.  When none of the listed
    methods is one of E11, H80, S02 and W04, each of these interpolators
    returns the placeholder 1 at every bearing of the circle. *)
Theorem X22_rmax_from_radial_fields
    (fsolve : (fl -> fl) -> fl -> res fl) (pa2mb km2m : fl -> fl)
    (self : CycloneRecord) (kw_atmos : kw_atmos_t) (kw_h80 : kw_rmax_h80_t)
    (kw_e11 : kw_rmax_e11_t) (methods : list string) (use_rmax_info : bool)
    (vlimit : list fl) (fvs frs : list interp) :
  List.length vlimit = List.length methods ->
  negb (isnan (rmax self)) && use_rmax_info = false ->
  forallb isnan (vinfo_1d (vinfo self)) = false ->
  fvinfo self = Some fvs -> fradinfo self = Some frs ->
  exists fs,
    calc_rmax fsolve pa2mb km2m self kw_atmos kw_h80 kw_e11 methods use_rmax_info vlimit
    = Ok (set_frmax self fs) /\
    List.length fs = Nat.min (List.length fvs) (List.length frs) /\
    (Forall (fun m => ~ In m ["E11"; "H80"; "S02"; "W04"]%string) methods ->
     forall f theta, In f fs -> 0 <= theta <= 2 * PI -> f (Fin theta) = Ok (Fin 1)).
Proof.
  intros Hl Hu Hv Hfv Hfr. eexists.
  split; [exact (calc_rmax_radial fsolve pa2mb km2m self kw_atmos kw_h80 kw_e11
                   methods use_rmax_info vlimit fvs frs Hl Hu Hv Hfv Hfr) |].
  split; [now rewrite length_map, length_combine |].
  intros Hm f theta Hin Ht. apply in_map_iff in Hin. destruct Hin as (p & <- & _).
  replace (rmax_fv_theta fsolve pa2mb km2m self kw_atmos kw_h80 kw_e11 methods
             (removelast (Fin 0 :: vlimit)) vlimit (fst p) (snd p))
    with (repeat (Fin 1) 5).
  - now apply interp1d_const.
  - unfold rmax_fv_theta, theta_grid. cbn [map repeat].
    now rewrite !rmax_methods_unimplemented by exact Hm.
Qed.

Lemma X22_rmax_from_radial_fields_witness :
  exists fs,
    calc_rmax_with (storm NaN NaN) ["M16"]%string false [PInf]
    = Ok (set_frmax (storm NaN NaN) fs) /\
    List.length fs = 1%nat /\
    forall f theta, In f fs -> 0 <= theta <= 2 * PI -> f (Fin theta) = Ok (Fin 1).
Proof.
  unfold calc_rmax_with.
  destruct (X22_rmax_from_radial_fields fsolve_start pa2mb_div km2m_mul
              (storm NaN NaN) kw_atmos_default kw_rmax_h80_default
              kw_rmax_e11_default ["M16"]%string false [PInf]
              [const_interp 19]
              [interp1d_call theta_grid
                 [Fin 50000; Fin 60000; Fin 55000; Fin 45000; Fin 50000]]
              eq_refl eq_refl eq_refl eq_refl eq_refl) as (fs & E & L & P).
  exists fs. split; [exact E |]. split; [exact L |].
  apply P. constructor; [| constructor].
  intros [H | [H | [H | [H | []]]]]; discriminate.
Defined.

(** * Building a Track *)

(** ** sort *)

Lemma insert_record_perm (rec : CycloneRecord) (l : list CycloneRecord) :
  Permutation (insert_record rec l) (rec :: l).
Proof.
  induction l as [| x l IH]; cbn [insert_record]; [reflexivity |].
  destruct (timestamp rec <=? timestamp x)%Z; [reflexivity |].
  rewrite IH. apply perm_swap.
Qed.

Lemma sort_perm (l : list CycloneRecord) :
  Permutation (fold_right insert_record [] l) l.
Proof.
  induction l as [| a l IH]; cbn [fold_right]; [constructor |].
  rewrite insert_record_perm. now constructor.
Qed.

Lemma insert_record_sorted (rec : CycloneRecord) (l : list CycloneRecord) :
  StronglySorted (fun a b => (timestamp a <= timestamp b)%Z) l ->
  StronglySorted (fun a b => (timestamp a <= timestamp b)%Z) (insert_record rec l).
Proof.
  induction l as [| x l IH]; intros H; cbn [insert_record].
  - repeat constructor.
  - inversion H as [| ? ? Hl Hx]; subst.
    destruct (Z.leb_spec (timestamp rec) (timestamp x)) as [L | L].
    + constructor; [exact H |]. constructor; [exact L |].
      rewrite Forall_forall in *. intros y Hy. specialize (Hx y Hy). lia.
    + constructor; [now apply IH |].
      rewrite Forall_forall in *. intros y Hy.
      apply (Permutation_in _ (insert_record_perm rec l)) in Hy.
      destruct Hy as [<- | Hy]; [lia | now apply Hx].
Qed.

Lemma sort_sorted (l : list CycloneRecord) :
  StronglySorted (fun a b => (timestamp a <= timestamp b)%Z)
    (fold_right insert_record [] l).
Proof.
  induction l as [| a l IH]; cbn [fold_right]; [constructor |].
  now apply insert_record_sorted.
Qed.

Lemma sorted_strict (l : list CycloneRecord) :
  StronglySorted (fun a b => (timestamp a <= timestamp b)%Z) l ->
  NoDup (map timestamp l) ->
  StronglySorted (fun a b => (timestamp a < timestamp b)%Z) l.
Proof.
  induction 1 as [| a l Hs IH Ha]; intros ND; constructor.
  - apply IH. now inversion ND.
  - cbn [map] in ND. apply NoDup_cons_iff in ND. destruct ND as [Hn _].
    rewrite Forall_forall in *. intros y Hy. specialize (Ha y Hy).
    assert (timestamp a <> timestamp y).
    { intros E. apply Hn. rewrite E. now apply in_map. }
    lia.
Qed.

Lemma sorted_nth (strict : bool) (l : list CycloneRecord) :
  StronglySorted
    (fun a b => if strict then (timestamp a < timestamp b)%Z
                else (timestamp a <= timestamp b)%Z) l ->
  forall j k a b, (j < k)%nat ->
    nth_error (map timestamp l) j = Some a ->
    nth_error (map timestamp l) k = Some b ->
    if strict then (a < b)%Z else (a <= b)%Z.
Proof.
  induction 1 as [| x l Hs IH Hx]; intros j k a b Hjk Hj Hk.
  - destruct j; discriminate.
  - destruct k as [| k]; [lia |]. cbn [map nth_error] in Hk.
    destruct j as [| j]; cbn [map nth_error] in Hj.
    + injection Hj as <-.
      apply nth_error_In in Hk. apply in_map_iff in Hk. destruct Hk as (y & <- & Hy).
      rewrite Forall_forall in Hx. now apply Hx.
    + apply (IH j k); [lia | exact Hj | exact Hk].
Qed.

(** A strictly ascending list of records is left alone. *)
Lemma sort_ascending_id (l : list CycloneRecord) :
  (forall j k a b, (j < k)%nat ->
     nth_error (map timestamp l) j = Some a ->
     nth_error (map timestamp l) k = Some b -> (a < b)%Z) ->
  fold_right insert_record [] l = l.
Proof.
  induction l as [| x l IH]; intros H; cbn [fold_right]; [reflexivity |].
  rewrite IH.
  - destruct l as [| y l]; [reflexivity |]. cbn [insert_record].
    assert (L : (timestamp x < timestamp y)%Z).
    { apply (H 0%nat 1%nat); [lia | reflexivity | reflexivity]. }
    now rewrite (proj2 (Z.leb_le _ _)) by lia.
  - intros j k a b Hjk Hj Hk. apply (H (S j) (S k)); [lia | exact Hj | exact Hk].
Qed.

(** X23.  Track.sort rearranges the records without adding or losing
    any, into non-decreasing order of timestamp; when no two records
    share a timestamp the order is strictly ascending (the invariant
    that interpolate relies on); and a Track whose timestamps are
    already strictly ascending is left as it is. *)
Theorem X23_sort_orders_the_records (self : Track) :
  Permutation (records (sort self)) (records self) /\
  (forall j k a b, (j < k)%nat ->
     nth_error (timeindex (sort self)) j = Some a ->
     nth_error (timeindex (sort self)) k = Some b -> (a <= b)%Z) /\
  (NoDup (timeindex self) -> ascending (sort self)) /\
  (ascending self -> sort self = self).
Proof.
  split; [apply sort_perm |]. split; [| split].
  - intros j k a b. apply (sorted_nth false). apply sort_sorted.
  - intros ND j k a b. apply (sorted_nth true).
    apply sorted_strict; [apply sort_sorted |].
    apply (Permutation_NoDup (l := timeindex self)); [| exact ND].
    unfold timeindex. apply Permutation_map. symmetry. apply sort_perm.
  - intros H. unfold sort. rewrite sort_ascending_id by exact H.
    now destruct self.
Qed.

Lemma X23_sort_orders_the_records_witness :
  ascending (sort (mkTrack fixes_out_of_order)) /\
  timeindex (sort (mkTrack fixes_out_of_order)) = [0; six_hours; 2 * six_hours]%Z.
Proof.
  split; [| reflexivity].
  apply (proj1 (proj2 (proj2 (X23_sort_orders_the_records
                                (mkTrack fixes_out_of_order))))).
  unfold timeindex, fixes_out_of_order, six_hours. cbn [records map timestamp fix_moving].
  repeat constructor; cbn [In]; intros H;
    repeat (destruct H as [H | H]; [discriminate H |]); exact H.
Defined.

(** ** calc_translation *)

Lemma set_at_nth {A : Type} (l : list A) :
  forall (i : nat) (x : A) (l' : list A),
    set_at l i x = Ok l' ->
    List.length l' = List.length l /\ nth_error l' i = Some x /\
    forall j, j <> i -> nth_error l' j = nth_error l j.
Proof.
  induction l as [| a l IH]; intros i x l' H; destruct i as [| i];
    cbn [set_at] in H; try discriminate.
  - injection H as <-. repeat split. intros j Hj. destruct j; [lia | reflexivity].
  - destruct (set_at l i x) as [l'' |] eqn:E; cbn [bind] in H; [| discriminate].
    injection H as <-. destruct (IH _ _ _ E) as (L & N & O).
    repeat split; [cbn [List.length]; lia | exact N |].
    intros j Hj. destruct j as [| j]; [reflexivity | apply O; lia].
Qed.

Lemma set_at_lt {A : Type} (l : list A) (i : nat) (x : A) :
  (i < List.length l)%nat -> exists l', set_at l i x = Ok l'.
Proof.
  intros H.
  destruct (set_at_ok (fun _ => True) l i x H) as (l' & E & _); [| exact I |].
  - apply Forall_forall. intros; exact I.
  - now exists l'.
Qed.

Lemma set_storm_same (o : CycloneRecord) : set_storm o (ustorm o) (vstorm o) = o.
Proof. now destruct o. Qed.

Section TranslationLoop.

Variable gc_distance : fl -> fl -> fl -> fl -> fl * fl.
Variable ts : list Z.

Lemma translation_between_set_storm (t0 t1 : Z) (o o1 : CycloneRecord)
    (a b c d : fl) :
  translation_between gc_distance t0 t1 (set_storm o a b) (set_storm o1 c d)
  = translation_between gc_distance t0 t1 o o1.
Proof. reflexivity. Qed.

(** One pass of the loop body. *)
Lemma translation_step_spec (recs : list CycloneRecord) (i : nat) :
  List.length ts = List.length recs -> (S i < List.length recs)%nat ->
  let n := List.length recs in
  exists r0 r1 t0 t1 l recs',
    nth_error recs i = Some r0 /\ nth_error recs (S i) = Some r1 /\
    nth_error ts i = Some t0 /\ nth_error ts (S i) = Some t1 /\
    nth_error recs (n - 1) = Some l /\
    translation_step gc_distance ts recs i = Ok recs' /\
    List.length recs' = n /\
    nth_error recs' i
    = Some (set_storm r0 (fst (translation_between gc_distance t0 t1 r0 r1))
              (snd (translation_between gc_distance t0 t1 r0 r1))) /\
    (forall j, j <> i -> j <> (n - 1)%nat -> nth_error recs' j = nth_error recs j) /\
    (exists p, nth_error recs' (n - 2) = Some p /\
               nth_error recs' (n - 1) = Some (set_storm l (ustorm p) (vstorm p))).
Proof.
  intros Hts Hi n. subst n.
  destruct (index_ok recs i ltac:(lia)) as (r0 & E0 & N0).
  destruct (index_ok recs (S i) ltac:(lia)) as (r1 & E1 & N1).
  destruct (index_ok ts i ltac:(lia)) as (t0 & F0 & M0).
  destruct (index_ok ts (S i) ltac:(lia)) as (t1 & F1 & M1).
  destruct (index_ok recs (List.length recs - 1) ltac:(lia)) as (l & El & Nl).
  unfold translation_step. replace (i + 1)%nat with (S i) by lia.
  rewrite F1, F0, E1, E0. cbn [bind].
  unfold translation_between.
  destruct (gc_distance (lon r1) (lat r1) (lon r0) (lat r0)) as [dx dy] eqn:G.
  set (r0' := set_storm r0 (dx / Fin (total_seconds (t1 - t0)))%fl
                (dy / Fin (total_seconds (t1 - t0)))%fl).
  destruct (set_at_lt recs i r0' ltac:(lia)) as (recs1 & S1).
  destruct (set_at_nth recs i r0' recs1 S1) as (L1 & A1 & O1).
  rewrite S1. cbn [bind]. rewrite L1.
  destruct (index_ok recs1 (List.length recs - 2) ltac:(lia)) as (p & Ep & Np).
  assert (Nl1 : nth_error recs1 (List.length recs - 1) = Some l).
  { rewrite O1 by lia. exact Nl. }
  unfold index at 1 2. rewrite Np, Nl1. cbn [bind].
  destruct (set_at_lt recs1 (List.length recs - 1)
              (set_storm l (ustorm p) (vstorm p)) ltac:(lia)) as (recs2 & S2).
  destruct (set_at_nth _ _ _ recs2 S2) as (L2 & A2 & O2).
  exists r0, r1, t0, t1, l, recs2. rewrite G. cbn [fst snd].
  repeat split; try assumption.
  - lia.
  - rewrite O2 by lia. exact A1.
  - intros j Hj Hn. rewrite O2 by lia. apply O1. exact Hj.
  - exists p. split; [| exact A2]. rewrite O2 by lia. exact Np.
Qed.

Variable orig : list CycloneRecord.

(** What holds after the passes for the indices below [k]. *)
Lemma translation_loop_spec (m : nat) :
  forall (k : nat) (cur : list CycloneRecord),
    List.length ts = List.length orig ->
    (forall j o, nth_error orig j = Some o -> nth_error ts j = Some (timestamp o)) ->
    (k + m = List.length orig - 1)%nat ->
    List.length cur = List.length orig ->
    (forall j o, nth_error orig j = Some o ->
       exists us vs, nth_error cur j = Some (set_storm o us vs)) ->
    (forall j o o1, (j < k)%nat ->
       nth_error orig j = Some o -> nth_error orig (S j) = Some o1 ->
       nth_error cur j
       = Some (set_storm o
                 (fst (translation_between gc_distance (timestamp o) (timestamp o1) o o1))
                 (snd (translation_between gc_distance (timestamp o) (timestamp o1) o o1)))) ->
    ((0 < k)%nat ->
     exists p l, nth_error cur (List.length orig - 2) = Some p /\
                 nth_error cur (List.length orig - 1) = Some l /\
                 ustorm l = ustorm p /\ vstorm l = vstorm p) ->
    exists out,
      translation_loop gc_distance ts (seq k m) cur = Ok out /\
      List.length out = List.length orig /\
      (forall j o, nth_error orig j = Some o ->
         exists us vs, nth_error out j = Some (set_storm o us vs)) /\
      (forall j o o1, (j < k + m)%nat ->
         nth_error orig j = Some o -> nth_error orig (S j) = Some o1 ->
         nth_error out j
         = Some (set_storm o
                   (fst (translation_between gc_distance (timestamp o) (timestamp o1) o o1))
                   (snd (translation_between gc_distance (timestamp o) (timestamp o1) o o1)))) /\
      ((0 < k + m)%nat ->
       exists p l, nth_error out (List.length orig - 2) = Some p /\
                   nth_error out (List.length orig - 1) = Some l /\
                   ustorm l = ustorm p /\ vstorm l = vstorm p).
Proof.
  induction m as [| m IH]; intros k cur Hts Htime Hkm Hlen Hsame Hvel Hlast.
  - exists cur. cbn [seq translation_loop]. rewrite Nat.add_0_r.
    repeat split; assumption.
  - cbn [seq translation_loop].
    destruct (translation_step_spec cur k ltac:(lia) ltac:(lia))
      as (r0 & r1 & t0 & t1 & l & recs' & N0 & N1 & M0 & M1 & Nl & Es & L' & Ak & Ok' & (p & Np & Al)).
    rewrite Hlen in *.
    rewrite Es. cbn [bind].
    destruct (nth_error orig k) as [o |] eqn:Eo.
    2: { apply nth_error_None in Eo. lia. }
    destruct (nth_error orig (S k)) as [o1 |] eqn:Eo1.
    2: { apply nth_error_None in Eo1. lia. }
    destruct (Hsame k o Eo) as (u0 & v0 & C0). rewrite C0 in N0. injection N0 as <-.
    destruct (Hsame (S k) o1 Eo1) as (u1 & v1 & C1). rewrite C1 in N1. injection N1 as <-.
    rewrite (Htime k o Eo) in M0. injection M0 as <-.
    rewrite (Htime (S k) o1 Eo1) in M1. injection M1 as <-.
    rewrite translation_between_set_storm in Ak.
    destruct (IH (S k) recs') as (out & Eout & Lout & Sout & Vout & Pout);
      try assumption; try lia.
    + intros j o' Ho'.
      destruct (Nat.eq_dec j k) as [-> | Hjk].
      { rewrite Eo in Ho'. injection Ho' as <-. rewrite Ak. do 2 eexists. reflexivity. }
      destruct (Nat.eq_dec j (List.length orig - 1)) as [-> | Hjn].
      { destruct (Hsame _ o' Ho') as (u & v & C). rewrite C in Nl. injection Nl as <-.
        rewrite Al. do 2 eexists. reflexivity. }
      rewrite Ok' by assumption. now apply Hsame.
    + intros j o' o1' Hj Ho' Ho1'.
      destruct (Nat.eq_dec j k) as [-> | Hjk].
      { rewrite Eo in Ho'. injection Ho' as <-.
        rewrite Eo1 in Ho1'. injection Ho1' as <-. exact Ak. }
      rewrite Ok' by lia. apply Hvel; [lia | exact Ho' | exact Ho1'].
    + intros _. exists p, (set_storm l (ustorm p) (vstorm p)).
      repeat split; assumption.
    + exists out. replace (k + S m)%nat with (S k + m)%nat by lia.
      repeat split; assumption.
Qed.

End TranslationLoop.

Lemma same_timeindex (orig out : list CycloneRecord) :
  List.length out = List.length orig ->
  (forall j o, nth_error orig j = Some o ->
     exists us vs, nth_error out j = Some (set_storm o us vs)) ->
  map timestamp out = map timestamp orig.
Proof.
  intros L H. apply nth_error_ext. intros j. rewrite !nth_error_map.
  destruct (nth_error orig j) as [o |] eqn:E.
  - destruct (H j o E) as (us & vs & ->). reflexivity.
  - apply nth_error_None in E.
    rewrite (proj2 (nth_error_None out j)) by lia. reflexivity.
Qed.

(** X24.  calc_translation changes nothing but [ustorm] and [vstorm]: the
    track keeps its length and its timestamps.  Every record but the
    last gets the displacement to the next record divided by the time
    between them; on a track of at least two records the last record
    gets the velocity of the record before it; a track of one record,
    or none, is returned as it is. *)
Theorem X24_translation_of_a_track
    (gc_distance : fl -> fl -> fl -> fl -> fl * fl) (self : Track) :
  let n := List.length (records self) in
  exists out,
    calc_translation gc_distance self = Ok out /\
    List.length (records out) = n /\
    timeindex out = timeindex self /\
    (forall j o, nth_error (records self) j = Some o ->
       exists us vs, nth_error (records out) j = Some (set_storm o us vs)) /\
    (forall j o o1, (S j < n)%nat ->
       nth_error (records self) j = Some o ->
       nth_error (records self) (S j) = Some o1 ->
       nth_error (records out) j
       = Some (set_storm o
                 (fst (translation_between gc_distance (timestamp o) (timestamp o1) o o1))
                 (snd (translation_between gc_distance (timestamp o) (timestamp o1) o o1)))) /\
    ((2 <= n)%nat ->
     exists p l, nth_error (records out) (n - 2) = Some p /\
                 nth_error (records out) (n - 1) = Some l /\
                 ustorm l = ustorm p /\ vstorm l = vstorm p) /\
    ((n <= 1)%nat -> out = self).
Proof.
  intros n. subst n. unfold calc_translation.
  destruct (translation_loop_spec gc_distance (timeindex self) (records self)
              (List.length (records self) - 1) 0 (records self))
    as (out & E & L & S & V & P).
  - unfold timeindex. apply length_map.
  - intros j o Ho. unfold timeindex. now apply map_nth_error.
  - lia.
  - reflexivity.
  - intros j o Ho. exists (ustorm o), (vstorm o). now rewrite set_storm_same.
  - intros j o o1 Hj. lia.
  - intros Hk. lia.
  - rewrite E. cbn [bind]. exists (mkTrack out). cbn [records].
    split; [reflexivity |]. split; [exact L |].
    split; [unfold timeindex; cbn [records]; now apply same_timeindex |].
    split; [exact S |]. split; [| split].
    + intros j o o1 Hj. apply V. cbn [Nat.add]. lia.
    + intros Hn. apply P. cbn [Nat.add]. lia.
    + intros Hn. revert E.
      replace (List.length (records self) - 1)%nat with 0%nat by lia.
      cbn [seq translation_loop]. intros E. injection E as <-. now destruct self.
Qed.

(** calc_translation returns, and keeps everything but the two
    velocity fields. *)
Lemma calc_translation_keeps
    (gc_distance : fl -> fl -> fl -> fl -> fl * fl) (self : Track) :
  exists out,
    calc_translation gc_distance self = Ok out /\
    timeindex out = timeindex self /\
    (forall j o, nth_error (records self) j = Some o ->
       exists us vs, nth_error (records out) j = Some (set_storm o us vs)) /\
    List.length (records out) = List.length (records self).
Proof.
  unfold calc_translation.
  destruct (translation_loop_spec gc_distance (timeindex self) (records self)
              (List.length (records self) - 1) 0 (records self))
    as (out & E & L & S & _).
  - unfold timeindex. apply length_map.
  - intros j o Ho. unfold timeindex. now apply map_nth_error.
  - lia.
  - reflexivity.
  - intros j o Ho. exists (ustorm o), (vstorm o). now rewrite set_storm_same.
  - intros j o o1 Hj. lia.
  - intros Hk. lia.
  - rewrite E. cbn [bind]. exists (mkTrack out). cbn [records].
    split; [reflexivity |].
    split; [unfold timeindex; cbn [records]; now apply same_timeindex |].
    split; [exact S | exact L].
Qed.

(** X25.  Building a Track from records with pairwise different
    timestamps succeeds; the Track holds the given records, up to their
    [ustorm] and [vstorm], in strictly ascending order of timestamp, so
    that the invariant interpolate relies on holds from the start. *)
Theorem X25_track_is_built_ascending
    (gc_distance : fl -> fl -> fl -> fl -> fl * fl) (recs : list CycloneRecord) :
  NoDup (map timestamp recs) ->
  exists trk,
    Track_init gc_distance recs = Ok trk /\
    ascending trk /\
    Permutation (timeindex trk) (map timestamp recs) /\
    (forall c, In c (records trk) ->
       exists o us vs, In o recs /\ c = set_storm o us vs).
Proof.
  intros ND. unfold Track_init.
  pose proof (sort_perm recs) as Hp.
  destruct (calc_translation_keeps gc_distance (sort (mkTrack recs)))
    as (trk & E & T & S & L).
  exists trk. split; [exact E |]. split; [| split].
  - unfold ascending. rewrite T. intros j k a b. apply (sorted_nth true).
    apply sorted_strict; [apply sort_sorted |].
    apply (Permutation_NoDup (l := map timestamp recs)); [| exact ND].
    apply Permutation_map. symmetry. exact Hp.
  - rewrite T. unfold timeindex. apply Permutation_map. exact Hp.
  - intros c Hc. apply In_nth_error in Hc. destruct Hc as (j & Hj).
    destruct (nth_error (records (sort (mkTrack recs))) j) as [o |] eqn:Eo.
    + destruct (S j o Eo) as (us & vs & Hout). rewrite Hout in Hj. injection Hj as <-.
      exists o, us, vs. split; [| reflexivity].
      apply (Permutation_in _ Hp). eapply nth_error_In. exact Eo.
    + apply nth_error_None in Eo.
      assert (H : nth_error (records trk) j <> None) by now rewrite Hj.
      apply nth_error_Some in H. lia.
Qed.

Lemma X25_track_is_built_ascending_witness :
  exists trk,
    Track_init planar_distance fixes_out_of_order = Ok trk /\
    ascending trk /\
    Permutation (timeindex trk) [six_hours; 2 * six_hours; 0]%Z /\
    (forall c, In c (records trk) ->
       exists o us vs, In o fixes_out_of_order /\ c = set_storm o us vs).
Proof.
  apply (X25_track_is_built_ascending planar_distance fixes_out_of_order).
  unfold fixes_out_of_order, six_hours. cbn [map timestamp fix_moving].
  repeat constructor; cbn [In]; intros H;
    repeat (destruct H as [H | H]; [discriminate H |]); exact H.
Defined.

(** * The blending block on single thresholds *)

(** X26.  When both bracket records report exactly one threshold, the
    blending block of interpolate treats a zero threshold like a missing
    one: if either threshold is NaN or zero, [vinfo] and [radinfo] are
    both the scalar NaN, whatever the radii and the weights.  Otherwise
    [vinfo] is the threshold of the left record, as a scalar and not
    blended with the right one, and [radinfo] is the one-row table of
    the radii blended quadrant by quadrant. *)
Theorem X26_single_threshold_blend
    (w_left w_right : fl) (left right : CycloneRecord) (a b : fl) :
  vinfo left = VArr [a] -> vinfo right = VArr [b] ->
  (isnan a || isnan b = true \/ feq a (Fin 0) || feq b (Fin 0) = true ->
   blend_radial w_left w_right left right = Ok (Some (VScalar NaN, RScalar NaN))) /\
  (isnan a || isnan b = false -> feq a (Fin 0) || feq b (Fin 0) = false ->
   forall row_l row_r,
     atleast_2d (radinfo left) = [row_l] -> atleast_2d (radinfo right) = [row_r] ->
     List.length row_l = List.length row_r ->
     blend_radial w_left w_right left right
     = Ok (Some (VScalar a,
                 RTable [map (fun p => blend (fst p) (snd p) w_left w_right)
                           (combine row_l row_r)]))).
Proof.
  intros Hl Hr. unfold blend_radial. rewrite Hl, Hr.
  cbn [vinfo_len bind List.length Nat.eqb negb index nth_error].
  split.
  - intros [H | H].
    + now rewrite H.
    + rewrite H. now destruct (isnan a || isnan b).
  - intros Hn Hz row_l row_r Rl Rr Hlen. rewrite Hn, Hz, Rl, Rr.
    cbn [List.length seq blend_single index nth_error bind ncols zeros repeat].
    unfold blend_whole_row. rewrite Hlen, Nat.eqb_refl.
    cbn [bind set_at blend_single]. reflexivity.
Qed.

Lemma X26_single_threshold_blend_witness :
  blend_radial (Fin 0.5) (Fin 0.5)
    (fix_at 0 NaN (VArr [Fin 17]) (RRow (quadrants 100000)))
    (fix_at six_hours (Fin 30000) (VArr [Fin 17]) (RRow (quadrants 120000)))
  = Ok (Some (VScalar (Fin 17),
              RTable [map (fun p => blend (fst p) (snd p) (Fin 0.5) (Fin 0.5))
                        (combine (quadrants 100000) (quadrants 120000))])) /\
  blend_radial (Fin 0.5) (Fin 0.5)
    (fix_at 0 NaN (VArr [Fin 0]) (RRow (quadrants 100000)))
    (fix_at six_hours (Fin 30000) (VArr [Fin 17]) (RRow (quadrants 120000)))
  = Ok (Some (VScalar NaN, RScalar NaN)).
Proof.
  split.
  - apply (proj2 (X26_single_threshold_blend (Fin 0.5) (Fin 0.5)
                    (fix_at 0 NaN (VArr [Fin 17]) (RRow (quadrants 100000)))
                    (fix_at six_hours (Fin 30000) (VArr [Fin 17])
                       (RRow (quadrants 120000)))
                    (Fin 17) (Fin 17) eq_refl eq_refl)); try reflexivity.
    cbn [feq orb]. now rewrite (Reqb_false 17 0) by lra.
  - apply (proj1 (X26_single_threshold_blend (Fin 0.5) (Fin 0.5)
                    (fix_at 0 NaN (VArr [Fin 0]) (RRow (quadrants 100000)))
                    (fix_at six_hours (Fin 30000) (VArr [Fin 17])
                       (RRow (quadrants 120000)))
                    (Fin 0) (Fin 17) eq_refl eq_refl)).
    right. cbn [feq]. now rewrite (Reqb_true 0 0) by lra.
Defined.

(** * schism.core: the time of day *)





(** * The "nearest" selection of rmax *)

(** [np.argmin] on numbers, continued from a running minimum [b] held at
    index [bi]: either nothing below [b] follows, or the result is the
    first position of the smallest value that follows. *)
Lemma argmin_from_spec (xs : list R) :
  forall (bi : nat) (b : R) (i : nat),
    (bi < i)%nat ->
    let k := argmin_from bi (Fin b) i (map Fin xs) in
    (k = bi /\ forall j y, nth_error xs j = Some y -> b <= y) \/
    (exists x, (i <= k)%nat /\ nth_error xs (k - i) = Some x /\ x < b /\
       (forall j y, nth_error xs j = Some y -> x <= y) /\
       (forall j y, (j < k - i)%nat -> nth_error xs j = Some y -> x < y)).
Proof.
  induction xs as [| x xs IH]; intros bi b i Hbi; cbn [map argmin_from isnan orb flt].
  - left. split; [reflexivity |]. intros j y Hj. destruct j; discriminate.
  - destruct (Rlt_dec x b) as [L | L].
    + rewrite (Rltb_true x b L).
      destruct (IH i x (S i) ltac:(lia)) as [[Ek Hmin] | (x' & Hk & Hn & Hlt & Hmin & Hfirst)].
      * right. exists x. rewrite Ek, Nat.sub_diag.
        split; [lia |]. split; [reflexivity |]. split; [exact L |]. split.
        -- intros j y Hj. destruct j as [| j]; cbn in Hj.
           ++ injection Hj as <-. lra.
           ++ now apply (Hmin j).
        -- intros j y Hj. lia.
      * right. exists x'.
        set (k := argmin_from i (Fin x) (S i) (map Fin xs)) in *.
        replace (k - i)%nat with (S (k - S i)) by lia.
        split; [lia |]. split; [exact Hn |]. split; [lra |]. split.
        -- intros j y Hj. destruct j as [| j]; cbn in Hj.
           ++ injection Hj as <-. lra.
           ++ now apply (Hmin j).
        -- intros j y Hj Hy. destruct j as [| j]; cbn in Hy.
           ++ injection Hy as <-. exact Hlt.
           ++ apply (Hfirst j); [lia | exact Hy].
    + rewrite (Rltb_false x b L).
      destruct (IH bi b (S i) ltac:(lia)) as [[Ek Hmin] | (x' & Hk & Hn & Hlt & Hmin & Hfirst)].
      * left. split; [exact Ek |].
        intros j y Hj. destruct j as [| j]; cbn in Hj.
        -- injection Hj as <-. lra.
        -- now apply (Hmin j).
      * right. exists x'.
        set (k := argmin_from bi (Fin b) (S i) (map Fin xs)) in *.
        replace (k - i)%nat with (S (k - S i)) by lia.
        split; [lia |]. split; [exact Hn |]. split; [exact Hlt |]. split.
        -- intros j y Hj. destruct j as [| j]; cbn in Hj.
           ++ injection Hj as <-. lra.
           ++ now apply (Hmin j).
        -- intros j y Hj Hy. destruct j as [| j]; cbn in Hy.
           ++ injection Hy as <-. lra.
           ++ apply (Hfirst j); [lia | exact Hy].
Qed.

(** On a non-empty list of numbers [np.argmin] returns the first position
    of the smallest one. *)
Lemma np_argmin_spec (xs : list R) :
  xs <> [] ->
  exists k x, np_argmin (map Fin xs) = Ok k /\ nth_error xs k = Some x /\
    (forall j y, nth_error xs j = Some y -> x <= y) /\
    (forall j y, (j < k)%nat -> nth_error xs j = Some y -> x < y).
Proof.
  destruct xs as [| b xs]; [intros H; now contradiction H | intros _].
  cbn [map np_argmin].
  destruct (argmin_from_spec xs 0 b 1 ltac:(lia))
    as [[Ek Hmin] | (x & Hk & Hn & Hlt & Hmin & Hfirst)].
  - exists 0%nat, b. rewrite Ek. split; [reflexivity |]. split; [reflexivity |]. split.
    + intros j y Hj. destruct j as [| j]; cbn in Hj.
      * injection Hj as <-. lra.
      * now apply (Hmin j).
    + intros j y Hj. lia.
  - set (k := argmin_from 0 (Fin b) 1 (map Fin xs)) in *.
    exists k, x. split; [reflexivity |].
    replace k with (S (k - 1)) at 1 by lia. split; [exact Hn |]. split.
    + intros j y Hj. destruct j as [| j]; cbn in Hj.
      * injection Hj as <-. lra.
      * now apply (Hmin j).
    + intros j y Hj Hy. destruct j as [| j]; cbn in Hy.
      * injection Hy as <-. exact Hlt.
      * apply (Hfirst j); [lia | exact Hy].
Qed.

(** X28.  The "nearest" selection of rmax.  When the radius
    interpolators give numbers at the bearing and there are at least as
    many rmax interpolators, the selection raises nothing and returns
    the value of the rmax interpolator of the threshold whose radius is
    nearest to the query radius; among equally near radii the first
    listed threshold is taken. *)
Theorem X28_nearest_selects_the_nearest_radius
    (lin : list fl -> list fl -> res interp) (self : CycloneRecord)
    (r : R) (theta : fl) (rads : list R) (vals : list fl) :
  fradinfo_values self theta = Ok (map Fin rads) ->
  frmax_values self theta = Ok vals ->
  rads <> [] -> (List.length rads <= List.length vals)%nat ->
  exists i rad rm,
    select_rmax lin self (SelStr "nearest") (Fin r) theta = Ok (Some rm) /\
    nth_error rads i = Some rad /\ nth_error vals i = Some rm /\
    (forall j rad', nth_error rads j = Some rad' ->
       Rabs (rad - r) <= Rabs (rad' - r)) /\
    (forall j rad', (j < i)%nat -> nth_error rads j = Some rad' ->
       Rabs (rad - r) < Rabs (rad' - r)).
Proof.
  intros Hr Hv Hne Hlen.
  assert (Hd : map (fun x => fabs (x - Fin r)%fl) (map Fin rads)
               = map Fin (map (fun rad => Rabs (rad - r)) rads)).
  { rewrite !map_map. reflexivity. }
  destruct (np_argmin_spec (map (fun rad => Rabs (rad - r)) rads))
    as (k & d & Ek & Hk & Hmin & Hfirst).
  { destruct rads; [now contradiction Hne | discriminate]. }
  rewrite nth_error_map in Hk.
  destruct (nth_error rads k) as [rad |] eqn:Erad; [| discriminate].
  cbn [option_map] in Hk. injection Hk as <-.
  assert (Hklen : (k < List.length vals)%nat).
  { assert (T : (k < List.length rads)%nat) by (apply nth_error_Some; now rewrite Erad).
    lia. }
  destruct (index_ok vals k Hklen) as (rm & Erm & Nrm).
  exists k, rad, rm.
  split; [| split; [exact Erad | split; [exact Nrm | split]]].
  - unfold select_rmax. cbn [rmax_select_methods_available existsb String.eqb
                               Ascii.eqb Bool.eqb orb assert try_except bind].
    unfold select_nearest. rewrite Hr. cbn [bind]. rewrite Hd, Ek. cbn [bind].
    rewrite Hv. cbn [bind]. rewrite Erm. reflexivity.
  - intros j rad' Hj. apply (Hmin j). rewrite nth_error_map, Hj. reflexivity.
  - intros j rad' Hlt Hj. apply (Hfirst j); [exact Hlt |].
    rewrite nth_error_map, Hj. reflexivity.
Qed.

Lemma X28_nearest_selects_the_nearest_radius_witness :
  exists i rad rm,
    select_rmax interp1d_general storm_two_thresholds (SelStr "nearest")
      (Fin 60000) (Fin 0) = Ok (Some rm) /\
    nth_error [100000; 50000] i = Some rad /\
    nth_error [Fin 40000; Fin 30000] i = Some rm /\
    (forall j rad', nth_error [100000; 50000] j = Some rad' ->
       Rabs (rad - 60000) <= Rabs (rad' - 60000)) /\
    (forall j rad', (j < i)%nat -> nth_error [100000; 50000] j = Some rad' ->
       Rabs (rad - 60000) < Rabs (rad' - 60000)).
Proof.
  apply (X28_nearest_selects_the_nearest_radius interp1d_general
           storm_two_thresholds 60000 (Fin 0) [100000; 50000]
           [Fin 40000; Fin 30000]).
  - unfold fradinfo_values, storm_two_thresholds. cbn [fradinfo getitem bind mapM].
    rewrite !const_interp_eval by apply zero_on_circle. reflexivity.
  - unfold frmax_values, storm_two_thresholds. cbn [frmax getitem bind mapM].
    rewrite !const_interp_eval by apply zero_on_circle. reflexivity.
  - discriminate.
  - cbn [List.length]. lia.
Defined.

(** * The E11 and E04 profiles at the radius of maximum wind *)

(** X29.  The E11 and the E04 profiles pass through the maximum: at
    [r = rmax] calc_vcirc_e11 returns [vmax] whatever the Coriolis
    parameter, and calc_vcirc_e04 returns [vmax] whatever the shape
    parameter [b], provided the divisions are defined
    ([n + m <> 0], [1 + 2*m <> 0], [R0 <> rmax]). *)
Theorem X29_e11_e04_pass_through_the_maximum (rm vm f b m n r0 : R) :
  0 < rm -> n + m <> 0 -> 1 + 2 * m <> 0 -> r0 <> rm ->
  calc_vcirc_e11 (Fin rm) (Fin rm) (Fin vm) (Fin f) = Fin vm /\
  calc_vcirc_e04 (Fin rm) (Fin rm) (Fin vm) (Fin b) (Fin m) (Fin n) (Fin r0)
  = Fin vm.
Proof.
  intros Hrm Hnm Hm HR0. split.
  - rewrite calc_vcirc_e11_Fin by exact Hrm. apply Fin_eq.
    replace 0.5 with (1 / 2) by lra. field. nra.
  - unfold calc_vcirc_e04. rewrite (fdiv_Fin rm rm) by lra.
    replace (rm / rm) with 1 by (field; lra).
    rewrite !fpow_one. cbn [fmul fadd fsub fneg].
    rewrite (fdiv_Fin _ (n + m * 1)) by (rewrite Rmult_1_r; exact Hnm).
    rewrite (fdiv_Fin _ (1 + 2 * m * 1)) by (rewrite Rmult_1_r; exact Hm).
    rewrite (fdiv_Fin _ (r0 + - rm)) by lra.
    cbn [fmul fadd].
    replace ((1 + - b) * (n + m) / (n + m * 1) + b * (1 + 2 * m) / (1 + 2 * m * 1))
      with 1 by (field; split; rewrite ?Rmult_1_r; assumption).
    unfold fsqrt. rewrite (Rltb_false 1 0) by lra. rewrite sqrt_1.
    cbn [fmul]. apply Fin_eq. field. lra.
Qed.

Lemma X29_e11_e04_pass_through_the_maximum_witness :
  calc_vcirc_e11 (Fin 50000) (Fin 50000) (Fin 30) (Fin 5e-5) = Fin 30 /\
  calc_vcirc_e04 (Fin 50000) (Fin 50000) (Fin 30)
    (Fin 0.25) (Fin 1.6) (Fin 0.9) (Fin 420000) = Fin 30.
Proof.
  apply (X29_e11_e04_pass_through_the_maximum 50000 30 5e-5 0.25 1.6 0.9 420000);
    lra.
Defined.

(** * From the reported radii to the radius of maximum wind *)

(** X30.  The two preparation steps compose.  On a Record with at least
    one threshold, all thresholds numbers and one row of four radii per
    threshold, gen_radial_fields followed by calc_rmax (the stored rmax
    not being used) raises nothing, whatever the methods, the limits and
    the solvers; the resulting Record has one [frmax] interpolator per
    threshold and holds all four interpolator fields that calculate_wind
    and calculate_pressure read. *)
Theorem X30_radial_fields_then_rmax
    (fsolve : (fl -> fl) -> fl -> res fl) (pa2mb km2m : fl -> fl)
    (self : CycloneRecord) (kw_atmos : kw_atmos_t) (kw_h80 : kw_rmax_h80_t)
    (kw_e11 : kw_rmax_e11_t) (fraction angle swrf : fl)
    (methods : list string) (vlimit : list fl)
    (vs : list fl) (rows : list (list fl)) :
  vinfo self = VArr vs -> radinfo self = RTable rows -> vs <> [] ->
  List.length rows = List.length vs ->
  Forall (fun v => isnan v = false) vs ->
  Forall (fun row => List.length row = 4%nat) rows ->
  List.length vlimit = List.length methods ->
  exists out fs final,
    gen_radial_fields self fraction angle swrf = (out, None) /\
    calc_rmax fsolve pa2mb km2m out kw_atmos kw_h80 kw_e11 methods false vlimit
    = Ok final /\
    final = set_frmax out fs /\
    List.length fs = List.length vs /\
    fvmax final <> None /\ fvinfo final <> None /\
    fradinfo final <> None /\ frmax final <> None.
Proof.
  intros Hv Hr Hne Hl Hn Hf Hlim. unfold gen_radial_fields.
  destruct (removed_translation self angle) as [us vt].
  rewrite Hv. cbn [vinfo_1d].
  rewrite (radial_loop_table fraction us vt swrf vs 0 _ rows rows []);
    try assumption; try reflexivity.
  2: { cbn [skipn]. now rewrite app_nil_r. }
  cbn [rs_vinfo rs_radinfo rs_fvinfo rs_fradinfo app].
  eexists. eexists. eexists. split; [reflexivity |].
  split.
  - apply calc_rmax_radial; try reflexivity; [exact Hlim | | ].
    + cbn [rmax andb]. apply andb_false_r.
    + cbn [vinfo vinfo_1d].
      destruct vs as [| v vs']; [now contradiction Hne |].
      inversion Hn as [| ? ? Hv0 _]; subst. cbn [forallb]. now rewrite Hv0.
  - split; [reflexivity |]. split.
    + rewrite length_map, length_combine, !length_map. lia.
    + cbn [set_frmax fvmax fvinfo fradinfo frmax]. repeat split; discriminate.
Qed.

Lemma X30_radial_fields_then_rmax_witness :
  exists out fs final,
    gen_radial_fields (fix_moving 0 90 20) (Fin 0.56) (Fin 19.2) (Fin 0.9)
    = (out, None) /\
    calc_rmax_with out ["H80"; "E11"]%string false [Fin 20; PInf] = Ok final /\
    final = set_frmax out fs /\
    List.length fs = 1%nat /\
    fvmax final <> None /\ fvinfo final <> None /\
    fradinfo final <> None /\ frmax final <> None.
Proof.
  unfold calc_rmax_with.
  apply (X30_radial_fields_then_rmax fsolve_start pa2mb_div km2m_mul
           (fix_moving 0 90 20) kw_atmos_default kw_rmax_h80_default
           kw_rmax_e11_default (Fin 0.56) (Fin 19.2) (Fin 0.9)
           ["H80"; "E11"]%string [Fin 20; PInf]
           [Fin 17] [quadrants 100000]);
    try reflexivity; try discriminate; repeat constructor.
Defined.
